(** * Procedural audio synthesizer: shallow embedding and verification

    The development embeds the server route ([POST] with its helper
    [generateAudioWAV], the WAV synthesizer and encoder, and [GET]), the
    client library ([estimateDuration], [createPlaceholderAudioFile],
    [createAudioBlob], the download helpers, [formatTime] and
    [TextToSpeechManager]) and the text state of the component
    [TextToSpeechApp].

    Modelling conventions.
    - A JavaScript string is its sequence of UTF-16 code units ([list Z]).
    - A JavaScript number is modelled by the rational it denotes ([Q]);
      integral quantities (sizes, indices, quantised samples) are [Z].
    - Where the result of an arithmetic expression decides an integer (the
      duration in seconds, the index of the character behind a sample, the
      minutes of a formatted time), every operation is followed by the
      rounding of IEEE 754 binary64, [Double.round]: the integer the code
      computes can differ from the one exact arithmetic gives.  The
      amplitude of a sample (time, envelope, waveform, volume) is computed
      in exact arithmetic, and decimal literals there denote their decimal
      value.  The exponent range of binary64 is not modelled (no overflow,
      no underflow), nor is division by zero: neither arises for a request
      within the limits of the route.
    - [Math.sin] and [Math.random] are not defined by the program: they are
      parameters of the model (a function on rationals and a stream of
      draws with a draw counter threaded through the synthesis loop).
    - The [ArrayBuffer] behind the [DataView] is a [list Z] of bytes;
      out-of-range writes raise [RangeError], modelled by [None]. *)

From Stdlib Require Import ZArith QArith Qround Qabs Qminmax Lqa String Ascii.
From Stdlib Require Import Qpower Qreduction.
From Stdlib Require DecimalString.
From stdpp Require Import base option list.
From Stdlib Require Import Lia.

Local Open Scope Z_scope.

(** ** JavaScript strings *)

Module JS.

Abbreviation jsstring := (list Z).

(** A source-level ASCII literal as a sequence of code units. *)
Definition lit (s : string) : jsstring :=
  map (fun a => Z.of_N (N_of_ascii a)) (list_ascii_of_string s).

(** The [WhiteSpace] and [LineTerminator] code points of ECMAScript: the set
    matched by the regular expression class [\s] and stripped by [trim]. *)
Definition is_whitespace (c : Z) : bool :=
  (c =? 9) || (c =? 10) || (c =? 11) || (c =? 12) || (c =? 13) || (c =? 32)
  || (c =? 160) || (c =? 5760) || ((8192 <=? c) && (c <=? 8202))
  || (c =? 8232) || (c =? 8233) || (c =? 8239) || (c =? 8287)
  || (c =? 12288) || (c =? 65279).

Fixpoint trimStart (s : jsstring) : jsstring :=
  match s with
  | c :: s' => if is_whitespace c then trimStart s' else s
  | [] => []
  end.

Definition trimEnd (s : jsstring) : jsstring := rev (trimStart (rev s)).

(** [String.prototype.trim] *)
Definition trim (s : jsstring) : jsstring := trimEnd (trimStart s).

(** [s.split(/\s+/)]: the pieces of [s] between maximal runs of
    whitespace.  [cur] is the piece being read (reversed) and [inws] tells
    whether the previous code unit belonged to a separator. *)
Fixpoint split_go (s : jsstring) (cur : jsstring) (inws : bool)
  : list jsstring :=
  match s with
  | [] => [rev cur]
  | c :: s' =>
      if is_whitespace c
      then (if inws then split_go s' cur true
            else rev cur :: split_go s' [] true)
      else split_go s' (c :: cur) false
  end.

Definition split_ws (s : jsstring) : list jsstring := split_go s [] false.

(** [s.charAt(i)]: a string of length one, or the empty string when [i]
    is out of range. *)
Definition charAt (s : jsstring) (i : Z) : jsstring :=
  if (0 <=? i) && (i <? Z.of_nat (length s))
  then match s !! Z.to_nat i with Some c => [c] | None => [] end
  else [].

(** [s.charCodeAt(i)]: [None] stands for [NaN]. *)
Definition charCodeAt (s : jsstring) (i : Z) : option Z :=
  if (0 <=? i) && (i <? Z.of_nat (length s)) then s !! Z.to_nat i else None.

Fixpoint starts_with (p s : jsstring) : bool :=
  match p, s with
  | [], _ => true
  | _ :: _, [] => false
  | a :: p', b :: s' => (a =? b) && starts_with p' s'
  end.

(** [s.includes(p)]: [p] occurs in [s] as a substring. *)
Fixpoint includes (s p : jsstring) : bool :=
  starts_with p s ||
  match s with
  | [] => false
  | _ :: s' => includes s' p
  end.

(** String equality [===]. *)
Fixpoint str_eqb (a b : jsstring) : bool :=
  match a, b with
  | [], [] => true
  | x :: a', y :: b' => (x =? y) && str_eqb a' b'
  | _, _ => false
  end.

End JS.

Import JS.

(** ** JavaScript numbers *)

(** Rounding to the nearest binary64 number, ties to even: what IEEE 754
    does to the exact result of every [+], [-], [*] and [/]. *)
Module Double.

(** The exponent of a positive rational: the [e] with
    [2^e <= x < 2^(e+1)]. *)
Definition exponent (x : Q) : Z :=
  let e := Z.log2 (Qnum x) - Z.log2 (Zpos (Qden x)) in
  if Qle_bool (2 ^ e) x then e else e - 1.

(** The nearest integer, the even one of the two when [x] lies half-way. *)
Definition round_half_even (x : Q) : Z :=
  let f := Qfloor x in
  match (x - inject_Z f ?= 1 # 2)%Q with
  | Lt => f
  | Gt => f + 1
  | Eq => if Z.even f then f else f + 1
  end.

(** The nearest number with a significand of 53 bits, for a positive [x]:
    the significand is scaled into [2^52, 2^53) and rounded there. *)
Definition round_positive (x : Q) : Q :=
  let e := exponent x in
  (inject_Z (round_half_even (x * 2 ^ (52 - e))) * 2 ^ (e - 52))%Q.

Definition round (x : Q) : Q :=
  let y := Qred x in
  match (y ?= 0)%Q with
  | Eq => 0%Q
  | Gt => round_positive y
  | Lt => (- round_positive (- y))%Q
  end.

(** Half the distance between 1 and the next number: [2^-53]. *)
Definition unit_roundoff : Q := 1 # 9007199254740992.

End Double.

Definition Math_ceil (x : Q) : Z := Qceiling x.
Definition Math_floor (x : Q) : Z := Qfloor x.
(** [Math.round] rounds half-way cases towards positive infinity. *)
Definition Math_round (x : Q) : Z := Qfloor (x + 0.5).
Definition Math_max (a b : Q) : Q := Qmax a b.
Definition Math_min (a b : Q) : Q := Qmin a b.
(** The double nearest to pi, [3.141592653589793], as an exact rational. *)
Definition Math_PI : Q := 884279719003555 # 281474976710656.

(** ** The server route: duration *)

Record AudioSettings := mkSettings {
  rate : Q;
  pitch : Q;
  volume : Q;
  voiceName : option string
}.

Definition sampleRate : Z := 44100.
Definition numChannels : Z := 1.
Definition bitsPerSample : Z := 16.
Definition baseFreq : Q := 200.

Definition wordsPerMinute (settings : AudioSettings) : Q :=
  Double.round (155 * rate settings)%Q.

(** [text.split(/\s+/).filter(word => word.length > 0).length] *)
Definition wordCount (text : jsstring) : Z :=
  Z.of_nat (length (List.filter (fun word => (0 <? length word)%nat)
                                (split_ws text))).

Definition baseDuration (text : jsstring) (settings : AudioSettings) : Q :=
  Math_max 2
    (Double.round
       (Double.round (inject_Z (wordCount text) / wordsPerMinute settings) * 60))%Q.

Definition duration (text : jsstring) (settings : AudioSettings) : Z :=
  Math_ceil (baseDuration text settings).

Definition numSamples (text : jsstring) (settings : AudioSettings) : Z :=
  sampleRate * duration text settings.

Definition dataSize (text : jsstring) (settings : AudioSettings) : Z :=
  numSamples text settings * numChannels * (bitsPerSample / 8).

Definition fileSize (text : jsstring) (settings : AudioSettings) : Z :=
  44 + dataSize text settings.

(** ** The client helpers *)

Module Client.

(** [estimateDuration(text, rate)]: the token count is taken without
    filtering out empty tokens.  At rate 0 the code divides by 0 and
    returns [Infinity], which the model does not represent. *)
Definition estimateDuration (text : jsstring) (rate : Q) : Q :=
  let wordsPerMinute := Double.round (155 * rate)%Q in
  let wordCount := Z.of_nat (length (split_ws text)) in
  Double.round (Double.round (inject_Z wordCount / wordsPerMinute) * 60)%Q.

(** Locals [duration], [numSamples] and [bufferSize] of
    [createPlaceholderAudioFile]. *)
Definition duration (text : jsstring) (rate : Q) : Z :=
  Z.max 1 (Math_ceil (estimateDuration text rate)).

Definition numSamples (text : jsstring) (rate : Q) : Z :=
  44100 * duration text rate.

Definition bufferSize (text : jsstring) (rate : Q) : Z :=
  44 + numSamples text rate * 2.

End Client.

Definition neutral : AudioSettings := mkSettings 1 1 1 None.

(** ** [DataView] over an [ArrayBuffer] *)

Module DataView.

Definition in_bounds (view : list Z) (byteOffset n : Z) : bool :=
  (0 <=? byteOffset) && (byteOffset + n <=? Z.of_nat (length view)).

(** The [n] low-order bytes of [v], least significant first; negative
    values come out in two's complement. *)
Fixpoint le_bytes (n : nat) (v : Z) : list Z :=
  match n with
  | O => []
  | S n' => v mod 256 :: le_bytes n' (v / 256)
  end.

Definition to_bytes (n : nat) (v : Z) (littleEndian : bool) : list Z :=
  if littleEndian then le_bytes n v else rev (le_bytes n v).

Definition set_bytes (view : list Z) (byteOffset : Z) (n : nat) (v : Z)
    (littleEndian : bool) : option (list Z) :=
  if in_bounds view byteOffset (Z.of_nat n)
  then Some (list_inserts (Z.to_nat byteOffset) (to_bytes n v littleEndian) view)
  else None.

Definition setUint8 (view : list Z) (byteOffset v : Z) : option (list Z) :=
  set_bytes view byteOffset 1 v true.
Definition setUint16 (view : list Z) (byteOffset v : Z) (littleEndian : bool) :=
  set_bytes view byteOffset 2 v littleEndian.
Definition setUint32 (view : list Z) (byteOffset v : Z) (littleEndian : bool) :=
  set_bytes view byteOffset 4 v littleEndian.
Definition setInt16 (view : list Z) (byteOffset v : Z) (littleEndian : bool) :=
  set_bytes view byteOffset 2 v littleEndian.

Fixpoint le_value (bs : list Z) : Z :=
  match bs with
  | [] => 0
  | b :: bs' => b + 256 * le_value bs'
  end.

Definition get_bytes (view : list Z) (byteOffset : Z) (n : nat)
    (littleEndian : bool) : option Z :=
  if in_bounds view byteOffset (Z.of_nat n)
  then let bs := take n (drop (Z.to_nat byteOffset) view) in
       Some (le_value (if littleEndian then bs else rev bs))
  else None.

Definition getUint16 (view : list Z) (byteOffset : Z) (littleEndian : bool) :=
  get_bytes view byteOffset 2 littleEndian.
Definition getUint32 (view : list Z) (byteOffset : Z) (littleEndian : bool) :=
  get_bytes view byteOffset 4 littleEndian.
Definition getInt16 (view : list Z) (byteOffset : Z) (littleEndian : bool)
  : option Z :=
  (fun u => if u <? 32768 then u else u - 65536)
    <$> get_bytes view byteOffset 2 littleEndian.

End DataView.

Import DataView.

(** ** [generateAudioWAV] *)

(** The closure [writeString] of [generateAudioWAV]. *)
Fixpoint writeString (view : list Z) (offset : Z) (str : jsstring)
  : option (list Z) :=
  match str with
  | [] => Some view
  | c :: str' => view' ← setUint8 view offset c; writeString view' (offset + 1) str'
  end.

(** State of the synthesis loop: the buffer behind the view and the number
    of [Math.random] draws made so far. *)
Record LoopState := mkLoop { view : list Z; draws : nat }.

Section Synthesizer.

Variable Math_sin : Q -> Q.
Variable Math_random : nat -> Q.

Section Sample.

Variable text : jsstring.
Variable settings : AudioSettings.
Variable i : Z.

Definition time : Q := (inject_Z i / inject_Z sampleRate)%Q.
Definition progress : Q :=
  Double.round (inject_Z i / inject_Z (numSamples text settings))%Q.
Definition charIndex : Z :=
  Math_floor (Double.round (progress * inject_Z (Z.of_nat (length text))))%Q.
Definition char : jsstring := charAt text charIndex.
Definition charCode : option Z := charCodeAt char 0.
Definition isVowel : bool := includes (lit "aeiouAEIOU") char.
(** [None] is [NaN], which [charCode] is when [char] is empty. *)
Definition baseCharFreq : option Q :=
  (fun c => baseFreq + inject_Z (Z.rem c 300))%Q <$> charCode.

(** The value of [sample] when the branch on the character class is left,
    with the draw counter after it; [d] is the counter before. *)
Definition waveform (d : nat) : option Q * nat :=
  if str_eqb char (lit " ") then (Some 0%Q, d)
  else if isVowel then
    ((fun f =>
        let freq1 := f * (1 + pitch settings * 0.5) in
        let freq2 := freq1 * 2.1 in
        let freq3 := freq1 * 3.2 in
        Math_sin (2 * Math_PI * freq1 * time) * 0.6 +
        Math_sin (2 * Math_PI * freq2 * time) * 0.3 +
        Math_sin (2 * Math_PI * freq3 * time) * 0.1)%Q <$> baseCharFreq, d)
  else
    ((fun f =>
        let freq := f * (1.5 + pitch settings * 0.8) in
        let noise := (Math_random d - 0.5) * 0.3 in
        Math_sin (2 * Math_PI * freq * time) * 0.7 + noise)%Q <$> baseCharFreq,
     S d).

Definition fadeTime : Q :=
  Math_min 0.1 (inject_Z (duration text settings) * 0.05)%Q.

Definition envelope : Q :=
  if Qlt_le_dec time fadeTime then (time / fadeTime)%Q
  else if Qlt_le_dec (inject_Z (duration text settings) - fadeTime) time
       then ((inject_Z (duration text settings) - time) / fadeTime)%Q
       else 1%Q.

Definition rateModulation : Q := (1 + (rate settings - 1) * 0.2)%Q.

(** The value of [sample] just before quantisation. *)
Definition sample (d : nat) : option Q :=
  (fun s => s * rateModulation * (volume settings * envelope * 0.3))%Q
    <$> (waveform d).1.

Definition quantize (s : Q) : Z :=
  Z.max (-32768) (Z.min 32767 (Math_round (s * 32767)%Q)).

(** [None] is [NaN], which [setInt16] stores as 0. *)
Definition intSample (d : nat) : option Z := quantize <$> sample d.

Definition loop_body (st : LoopState) : option LoopState :=
  view' ← setInt16 (view st) (44 + i * 2) (default 0 (intSample (draws st))) true;
  Some (mkLoop view' (waveform (draws st)).2).

End Sample.

(** [n] iterations of the sample loop, from index [i]. *)
Fixpoint loop (text : jsstring) (settings : AudioSettings) (n : nat) (i : Z)
    (st : LoopState) : option LoopState :=
  match n with
  | O => Some st
  | S n' => st' ← loop_body text settings i st; loop text settings n' (i + 1) st'
  end.

Definition write_header (text : jsstring) (settings : AudioSettings)
    (buffer : list Z) : option (list Z) :=
  v ← writeString buffer 0 (lit "RIFF");
  v ← setUint32 v 4 (fileSize text settings - 8) true;
  v ← writeString v 8 (lit "WAVE");
  v ← writeString v 12 (lit "fmt ");
  v ← setUint32 v 16 16 true;
  v ← setUint16 v 20 1 true;
  v ← setUint16 v 22 numChannels true;
  v ← setUint32 v 24 sampleRate true;
  v ← setUint32 v 28 (sampleRate * numChannels * (bitsPerSample / 8)) true;
  v ← setUint16 v 32 (numChannels * (bitsPerSample / 8)) true;
  v ← setUint16 v 34 bitsPerSample true;
  v ← writeString v 36 (lit "data");
  setUint32 v 40 (dataSize text settings) true.

(** The run of [generateAudioWAV], keeping the draw counter. *)
Definition synthesize (text : jsstring) (settings : AudioSettings)
  : option LoopState :=
  let buffer := replicate (Z.to_nat (fileSize text settings)) 0 in
  v ← write_header text settings buffer;
  loop text settings (Z.to_nat (numSamples text settings)) 0 (mkLoop v O).

Definition generateAudioWAV (text : jsstring) (settings : AudioSettings)
  : option (list Z) :=
  view <$> synthesize text settings.

End Synthesizer.

(** ** The route handler [POST] *)

Inductive JSValue :=
| JSUndefined
| JSNull
| JSBoolean (b : bool)
| JSNumber (x : Q)
| JSString (s : jsstring)
| JSObject.

(** The body of a request after [request.json()], when it is an object
    whose [rate], [pitch] and [volume] are numbers or absent.  An absent
    field is [None] and takes the default of the destructuring pattern.
    The other requests are those of [POST_request] below. *)
Record RequestBody := mkBody {
  body_text : JSValue;
  body_rate : option Q;
  body_pitch : option Q;
  body_volume : option Q;
  body_voiceName : option string
}.

Inductive Response :=
| JsonResponse (error : string) (status : Z)
| AudioResponse (audioBuffer : list Z) (status : Z) (contentLength : Z).

(** [!v] is [negb (truthy v)]. *)
Definition truthy (v : JSValue) : bool :=
  match v with
  | JSUndefined | JSNull => false
  | JSBoolean b => b
  | JSNumber x => negb (Qeq_bool x 0)
  | JSString s => negb (Nat.eqb (length s) 0)
  | JSObject => true
  end.

(** The part of [POST] that precedes the call of [generateAudioWAV]: the
    two validation guards with their early returns, then the normalisation
    of the settings.  [inr] carries the arguments of the call. *)
Definition POST_checks (body : RequestBody)
  : Response + (jsstring * AudioSettings) :=
  let text := body_text body in
  let rate := default 1%Q (body_rate body) in
  let pitch := default 1%Q (body_pitch body) in
  let volume := default 1%Q (body_volume body) in
  match text with
  | JSString s =>
      if negb (truthy text) || Nat.eqb (length (trim s)) 0
      then inl (JsonResponse "Text is required and must be a non-empty string" 400)
      else if (5000 <? Z.of_nat (length s))
      then inl (JsonResponse "Text must be less than 5000 characters" 400)
      else
        let normalizedRate := Math_max 0.1 (Math_min 10 rate) in
        let normalizedPitch := Math_max 0 (Math_min 2 pitch) in
        let normalizedVolume := Math_max 0 (Math_min 1 volume) in
        inr (s, mkSettings normalizedRate normalizedPitch normalizedVolume
                           (body_voiceName body))
  | _ => inl (JsonResponse "Text is required and must be a non-empty string" 400)
  end.

Definition POST (Math_sin : Q -> Q) (Math_random : nat -> Q)
    (body : RequestBody) : Response :=
  match POST_checks body with
  | inl response => response
  | inr (text, settings) =>
      match generateAudioWAV Math_sin Math_random text settings with
      | Some audioBuffer =>
          AudioResponse audioBuffer 200 (Z.of_nat (length audioBuffer))
      | None => JsonResponse "Failed to generate audio file" 500
      end
  end.

Definition response_audio (r : Response) : option (list Z) :=
  match r with
  | AudioResponse audioBuffer _ _ => Some audioBuffer
  | JsonResponse _ _ => None
  end.

(** A setting of the body as [Math.min] reads it: an absent property, a
    value that [ToNumber] turns into a number (a JSON number is itself,
    [null] is 0, [true] is 1, the string ["2"] is 2), or a value that
    [ToNumber] turns into [NaN] (the string ["fast"], an object). *)
Inductive Setting :=
| Absent
| Number (x : Q)
| NotANumber.

(** What the handler receives.  [request.json()] rejects when the body is
    not JSON; the JSON value [null] cannot be destructured; every other
    JSON value is read through the five properties the pattern names (a
    number, a string or an array has none of them). *)
Inductive Request :=
| NotJSON
| JSONNull
| JSONBody (text : JSValue) (rate pitch volume : Setting)
           (voiceName : option string).

Definition setting_number (s : Setting) : option Q :=
  match s with
  | Number x => Some x
  | Absent | NotANumber => None
  end.

Definition isNaN (s : Setting) : bool :=
  match s with
  | NotANumber => true
  | Absent | Number _ => false
  end.

(** [POST] on any request.  Both failures of the first two lines are
    caught and answered 500.  The guards on the text come before the
    settings are looked at.  [Math.max] and [Math.min] pass [NaN] on:
    - with a [NaN] rate the duration and all sizes are [NaN],
      [new ArrayBuffer(NaN)] has no bytes and the first [setUint8] of the
      header throws [RangeError], which is caught and answered 500;
    - with a [NaN] pitch or volume every sample that is not the 0 of a
      space is [NaN], and [setInt16] stores [NaN] as 0: the bytes are
      those the synthesizer writes at volume 0. *)
Definition POST_request (Math_sin : Q -> Q) (Math_random : nat -> Q)
    (request : Request) : Response :=
  match request with
  | NotJSON | JSONNull => JsonResponse "Failed to generate audio file" 500
  | JSONBody text rate' pitch' volume' voiceName =>
      let body := mkBody text (setting_number rate') (setting_number pitch')
                         (setting_number volume') voiceName in
      match POST_checks body with
      | inl response => response
      | inr (text, settings) =>
          if isNaN rate' then JsonResponse "Failed to generate audio file" 500
          else if isNaN pitch' || isNaN volume' then
            match generateAudioWAV Math_sin Math_random text
                    (mkSettings (rate settings) 0 0 voiceName) with
            | Some audioBuffer =>
                AudioResponse audioBuffer 200 (Z.of_nat (length audioBuffer))
            | None => JsonResponse "Failed to generate audio file" 500
            end
          else POST Math_sin Math_random body
      end
  end.

(** ** Specification vocabulary *)

(** The requests that reach [generateAudioWAV]: the text passed both guards
    of [POST] and the settings lie in the ranges [POST] clamps them to. *)
Definition valid_request (text : jsstring) (settings : AudioSettings) : Prop :=
  trim text <> [] /\ Z.of_nat (length text) <= 5000 /\
  (0.1 <= rate settings <= 10)%Q /\
  (0 <= pitch settings <= 2)%Q /\
  (0 <= volume settings <= 1)%Q.

(** The 44 header bytes, as [write_header] lays them out. *)
Definition wav_header (text : jsstring) (settings : AudioSettings) : list Z :=
  lit "RIFF" ++ le_bytes 4 (fileSize text settings - 8) ++ lit "WAVE"
  ++ lit "fmt " ++ le_bytes 4 16 ++ le_bytes 2 1 ++ le_bytes 2 numChannels
  ++ le_bytes 4 sampleRate
  ++ le_bytes 4 (sampleRate * numChannels * (bitsPerSample / 8))
  ++ le_bytes 2 (numChannels * (bitsPerSample / 8))
  ++ le_bytes 2 bitsPerSample
  ++ lit "data" ++ le_bytes 4 (dataSize text settings).

(** The quantised samples written by [n] iterations from index [i] with
    draw counter [d], in order, and the draw counter after [k] iterations. *)
Fixpoint samples (Math_sin : Q -> Q) (Math_random : nat -> Q)
    (text : jsstring) (settings : AudioSettings) (n : nat) (i : Z) (d : nat)
  : list Z :=
  match n with
  | O => []
  | S n' =>
      default 0 (intSample Math_sin Math_random text settings i d)
      :: samples Math_sin Math_random text settings n' (i + 1)
           (waveform Math_sin Math_random text settings i d).2
  end.

Fixpoint draws_from (Math_sin : Q -> Q) (Math_random : nat -> Q)
    (text : jsstring) (settings : AudioSettings) (k : nat) (i : Z) (d : nat)
  : nat :=
  match k with
  | O => d
  | S k' =>
      draws_from Math_sin Math_random text settings k' (i + 1)
        (waveform Math_sin Math_random text settings i d).2
  end.

(** Number of [Math.random] draws made before sample [i] is computed. *)
Definition draws_before (Math_sin : Q -> Q) (Math_random : nat -> Q)
    (text : jsstring) (settings : AudioSettings) (i : Z) : nat :=
  draws_from Math_sin Math_random text settings (Z.to_nat i) 0 0.

Definition encode_samples (l : list Z) : list Z :=
  concat (map (le_bytes 2) l).

(** Texts made of the code units of [a e i o u A E I O U] only. *)
Definition vowel_only (text : jsstring) : Prop :=
  Forall (fun c => In c (lit "aeiouAEIOU")) text.

(** A host whose sine is the clipped identity and whose random draws are all
    one quarter: it lies within the ranges the language guarantees, returns
    0 at 0 as every sine does, and is used where a concrete host is needed. *)
Definition clip_sin (x : Q) : Q := Qmax (-1) (Qmin 1 x).
Definition quarter_random (k : nat) : Q := 0.25%Q.

(** Non-empty tokens: what [filter(word => word.length > 0)] keeps. *)
Definition nonempty (word : jsstring) : bool := (0 <? length word)%nat.

(** The last code unit of [s] is not whitespace ([s] may be empty). *)
Definition ends_clean (s : jsstring) : Prop :=
  match rev s with
  | [] => True
  | c :: _ => is_whitespace c = false
  end.

(** The word count in the specification's words: the number of maximal runs
    of non-whitespace code units.  [inword] tells whether the previous code
    unit belonged to such a run. *)
Fixpoint count_words (s : jsstring) (inword : bool) : Z :=
  match s with
  | [] => 0
  | c :: s' =>
      if is_whitespace c then count_words s' false
      else (if inword then 0 else 1) + count_words s' true
  end.

(** The texts the first guards of [POST] turn away, with the length bound
    read on the trimmed text: anything that is not a string, and a string
    that is empty after trimming or longer than 5000 after trimming. *)
Definition text_rejected (v : JSValue) : Prop :=
  match v with
  | JSString s => trim s = [] \/ 5000 < Z.of_nat (length (trim s))
  | _ => True
  end.

(** The duration in the words of the specification, in exact arithmetic:
    [max(2, ceil((wordCount / (155 * rate)) * 60))] over the number of
    words of the text. *)
Definition spec_duration (text : jsstring) (rate : Q) : Z :=
  Z.max 2 (Qceiling ((inject_Z (count_words text false) / (155 * rate)) * 60)%Q).


(** Whether the piece being read by [split_go] has code units. *)
Definition nonemptyb_of (cur : jsstring) : bool :=
  match cur with [] => false | _ :: _ => true end.

Definition hello_world : jsstring := lit "Hello world".

(** The sample buffer of a request: the quantised samples in the order the
    loop of [generateAudioWAV] emits them. *)
Definition sample_buffer (Math_sin : Q -> Q) (Math_random : nat -> Q)
    (text : jsstring) (settings : AudioSettings) : list Z :=
  samples Math_sin Math_random text settings
    (Z.to_nat (numSamples text settings)) 0 0.

(** The extreme parameter combination: rate 10, pitch 2, volume 1. *)
Definition extreme : AudioSettings := mkSettings 10 2 1 None.

(** A valid text that starts with a tab: U+0009 followed by [a]. *)
Definition tab_text : jsstring := [9; 97].

Definition aaaa : jsstring := lit "aaaa".

(** 961 one-letter words separated by single spaces, 1921 code units. *)
Definition words_961 : jsstring :=
  concat (replicate 960 (lit "a ")) ++ lit "a".

(** A [b], a space and 47 times [x]: two words, 49 code units. *)
Definition b_space_xs : jsstring := lit "b " ++ replicate 47 120.

(** ** The route handler [GET] *)





Definition response_status (r : Response) : Z :=
  match r with
  | JsonResponse _ status => status
  | AudioResponse _ status _ => status
  end.

(** The bytes [n] to [n + 4] of a container, as a four-character tag. *)
Definition tag_at (container : list Z) (n : nat) : list Z :=
  take 4 (drop n container).

(** The longest valid text with the most words: 2500 one-letter words
    separated by single spaces, 4999 code units. *)
Definition densest_text : jsstring :=
  concat (replicate 2499 (lit "a ")) ++ lit "a".

(** The slowest valid settings: rate 0.1. *)
Definition slowest : AudioSettings := mkSettings 0.1 1 1 None.

(** The request [POST] would have received had the client already put the
    settings into range: same text and voice name, each setting replaced by
    its normalised value. *)
Definition normalised_body (body : RequestBody) : RequestBody :=
  mkBody (body_text body)
    (Some (Math_max 0.1 (Math_min 10 (default 1%Q (body_rate body)))))
    (Some (Math_max 0 (Math_min 2 (default 1%Q (body_pitch body)))))
    (Some (Math_max 0 (Math_min 1 (default 1%Q (body_volume body)))))
    (body_voiceName body).

(** ** The client library: placeholder file, request, progress, time *)

Module AudioUtils.

(** [VoiceSettings]; [vs_voice] is the name of the selected voice, [None]
    when no voice is selected. *)
Record VoiceSettings := mkVoiceSettings {
  vs_rate : Q;
  vs_pitch : Q;
  vs_volume : Q;
  vs_voice : option string
}.

(** [ToNumber] then [ToInt16] as far as [setInt16] needs it: [NaN] becomes
    0, any other number is truncated towards zero (the wrap-around modulo
    2^16 is done by the byte encoding). *)
Definition to_integer (x : option Q) : Z :=
  match x with
  | None => 0
  | Some q => Z.quot (Qnum q) (Zpos (Qden q))
  end.

(** [440 + (text.charCodeAt(i % text.length) % 200)].  On the empty text
    the index is [NaN] and so is the code, whatever [i] is; [charCodeAt]
    returns [None] on the empty text for every index. *)
Definition frequency (text : jsstring) (i : Z) : option Q :=
  (fun c => 440 + inject_Z (Z.rem c 200))%Q
    <$> charCodeAt text (Z.rem i (Z.of_nat (length text))).

Definition amplitude (settings : VoiceSettings) : Q :=
  (0.1 * vs_volume settings)%Q.

Definition placeholder_sample (Math_sin : Q -> Q) (text : jsstring)
    (settings : VoiceSettings) (i : Z) : option Q :=
  (fun f => Math_sin (2 * Math_PI * f * inject_Z i / inject_Z 44100)
            * amplitude settings * 32767)%Q
    <$> frequency text i.

Fixpoint placeholder_loop (Math_sin : Q -> Q) (text : jsstring)
    (settings : VoiceSettings) (n : nat) (i : Z) (view : list Z)
  : option (list Z) :=
  match n with
  | O => Some view
  | S n' =>
      view' ← setInt16 view (44 + i * 2)
                (to_integer (placeholder_sample Math_sin text settings i)) true;
      placeholder_loop Math_sin text settings n' (i + 1) view'
  end.

Definition placeholder_header (text : jsstring) (settings : VoiceSettings)
    (buffer : list Z) : option (list Z) :=
  let sampleRate := 44100 in
  let numChannels := 1 in
  let numSamples := Client.numSamples text (vs_rate settings) in
  let bufferSize := Client.bufferSize text (vs_rate settings) in
  v ← writeString buffer 0 (lit "RIFF");
  v ← setUint32 v 4 (bufferSize - 8) true;
  v ← writeString v 8 (lit "WAVE");
  v ← writeString v 12 (lit "fmt ");
  v ← setUint32 v 16 16 true;
  v ← setUint16 v 20 1 true;
  v ← setUint16 v 22 numChannels true;
  v ← setUint32 v 24 sampleRate true;
  v ← setUint32 v 28 (sampleRate * numChannels * 2) true;
  v ← setUint16 v 32 (numChannels * 2) true;
  v ← setUint16 v 34 16 true;
  v ← writeString v 36 (lit "data");
  setUint32 v 40 (numSamples * 2) true.

(** The bytes of the [Blob] returned by [createPlaceholderAudioFile]. *)
Definition createPlaceholderAudioFile (Math_sin : Q -> Q) (text : jsstring)
    (settings : VoiceSettings) : option (list Z) :=
  let buffer := replicate (Z.to_nat (Client.bufferSize text (vs_rate settings))) 0 in
  v ← placeholder_header text settings buffer;
  placeholder_loop Math_sin text settings
    (Z.to_nat (Client.numSamples text (vs_rate settings))) 0 v.

(** The JSON body [createAudioBlob] posts to the route.  A voice without a
    name, like no voice, is sent as [default]. *)
Definition request_body (text : jsstring) (settings : VoiceSettings)
  : RequestBody :=
  mkBody (JSString (trim text))
    (Some (vs_rate settings)) (Some (vs_pitch settings))
    (Some (vs_volume settings))
    (Some (match vs_voice settings with
           | Some name => if String.eqb name "" then "default"%string else name
           | None => "default"%string
           end)).

(** A settled promise. *)
Inductive Outcome (A : Type) :=
| Resolved (value : A)
| Rejected (error : string).
Arguments Resolved {A} value.
Arguments Rejected {A} error.

(** A [Blob] handle as the download code sees it: [None] for a missing
    blob, otherwise its size. *)
Definition is_empty_blob (blob : option Z) : bool :=
  match blob with
  | None => true
  | Some size => size =? 0
  end.

(** [downloadAudio]: the guard, then the DOM work, whose outcome [dom] is
    given (an exception there rejects the promise). *)
Definition downloadAudio (blob : option Z) (dom : Outcome unit) : Outcome unit :=
  if is_empty_blob blob
  then Rejected "Invalid audio file - empty or corrupted"
  else dom.

(** [downloadAudioWithProgress], given the outcome of [createAudioBlob] and
    of the DOM work: the values passed to [onProgress], in order, and the
    outcome of the returned promise. *)
Definition downloadAudioWithProgress (created : Outcome (option Z))
    (dom : Outcome unit) : list Z * Outcome unit :=
  match created with
  | Rejected error => ([0; 25; 0], Rejected error)
  | Resolved blob =>
      if is_empty_blob blob
      then ([0; 25; 75; 0], Rejected "Failed to generate audio file")
      else match downloadAudio blob dom with
           | Rejected error => ([0; 25; 75; 90; 0], Rejected error)
           | Resolved _ => ([0; 25; 75; 90; 100], Resolved tt)
           end
  end.

(** The remainder [a % b] of two numbers: it has the sign of [a], and it
    is a binary64 number whenever [a] and [b] are, so it is not rounded. *)
Definition js_rem (a b : Q) : Q :=
  (a - b * inject_Z (to_integer (Some (a / b))))%Q.

(** [Number.prototype.toString] on an integer below 2^53 in magnitude,
    where every digit of the integer is printed. *)
Definition number_toString (n : Z) : string :=
  DecimalString.NilZero.string_of_int (Z.to_int n).

Fixpoint pad_zeros (n : nat) (s : string) : string :=
  match n with
  | O => s
  | S n' => String "0" (pad_zeros n' s)
  end.

(** [s.padStart(targetLength, '0')] *)
Definition padStart (s : string) (targetLength : nat) : string :=
  pad_zeros (targetLength - String.length s) s.

Definition formatTime (seconds : Q) : string :=
  let mins := Math_floor (Double.round (seconds / 60)) in
  let secs := Math_floor (js_rem seconds 60) in
  (number_toString mins ++ ":" ++ padStart (number_toString secs) 2)%string.

End AudioUtils.

(** ** [TextToSpeechManager] *)

Module Manager.

Record State := mkState { isPlaying : bool; isPaused : bool }.

(** Calls made on [window.speechSynthesis]. *)
Inductive SynthCall := synth_speak | synth_pause | synth_resume | synth_cancel.

(** The fields as initialised by the class. *)
Definition initial : State := mkState false false.

Definition stop (st : State) : State * list SynthCall :=
  (mkState false false, [synth_cancel]).

Definition pause (st : State) : State * list SynthCall :=
  if isPlaying st && negb (isPaused st)
  then (mkState (isPlaying st) true, [synth_pause])
  else (st, []).

Definition resume (st : State) : State * list SynthCall :=
  if isPaused st
  then (mkState (isPlaying st) false, [synth_resume])
  else (st, []).

(** [speak] up to the call of [synth.speak]; the handlers it installs are
    the three callbacks below. *)
Definition speak (st : State) : State * list SynthCall :=
  let '(st', calls) := if isPlaying st then stop st else (st, []) in
  (st', calls ++ [synth_speak]).

Definition onstart (st : State) : State := mkState true false.
Definition onend (st : State) : State := mkState false false.
Definition onerror (st : State) : State := mkState false false.

Record StateView := mkView { view_isPlaying : bool; view_isPaused : bool; view_isIdle : bool }.

Definition getState (st : State) : StateView :=
  mkView (isPlaying st) (isPaused st) (negb (isPlaying st) && negb (isPaused st)).

(** What can happen to a manager: a method is called or the browser fires
    one of the callbacks of the utterance. *)
Inductive Event :=
| call_speak | call_pause | call_resume | call_stop
| fire_onstart | fire_onend | fire_onerror.

Definition step (st : State) (e : Event) : State * list SynthCall :=
  match e with
  | call_speak => speak st
  | call_pause => pause st
  | call_resume => resume st
  | call_stop => stop st
  | fire_onstart => (onstart st, [])
  | fire_onend => (onend st, [])
  | fire_onerror => (onerror st, [])
  end.

Fixpoint run (st : State) (events : list Event) : State * list SynthCall :=
  match events with
  | [] => (st, [])
  | e :: events' =>
      let '(st1, calls1) := step st e in
      let '(st2, calls2) := run st1 events' in
      (st2, calls1 ++ calls2)
  end.

(** [createUtterance]: [x || 1] replaces a missing or zero value by 1. *)
Record TTSOptions := mkOptions {
  opt_text : jsstring;
  opt_voice : option string;
  opt_rate : option Q;
  opt_pitch : option Q;
  opt_volume : option Q
}.

Record Utterance := mkUtterance {
  utt_text : jsstring;
  utt_voice : option string;
  utt_rate : Q;
  utt_pitch : Q;
  utt_volume : Q
}.

Definition or_one (x : option Q) : Q :=
  match x with
  | Some q => if Qeq_bool q 0 then 1%Q else q
  | None => 1%Q
  end.

Definition createUtterance (options : TTSOptions) : Utterance :=
  mkUtterance (opt_text options) (opt_voice options)
    (or_one (opt_rate options)) (or_one (opt_pitch options))
    (or_one (opt_volume options)).

End Manager.

(** ** The component [TextToSpeechApp]: the text state *)

Module App.

Definition MAX_CHARACTER_LIMIT : Z := 5000.

Definition SAMPLE_TEXTS : list jsstring :=
  [ lit "Hello! Welcome to our text-to-speech application. This tool converts your written text into natural-sounding speech that you can play and download.";
    lit "The quick brown fox jumps over the lazy dog. This sentence contains every letter of the English alphabet and is perfect for testing speech synthesis.";
    lit "In a hole in the ground there lived a hobbit. Not a nasty, dirty, wet hole, filled with the ends of worms and an oozy smell, nor yet a dry, bare, sandy hole with nothing in it to sit down on or to eat.";
    lit "To be or not to be, that is the question. Whether 'tis nobler in the mind to suffer the slings and arrows of outrageous fortune, or to take arms against a sea of troubles." ].

(** The text after [handleTextChange(value)]: an over-long value is
    ignored. *)
Definition handleTextChange (text value : jsstring) : jsstring :=
  if Z.of_nat (length value) <=? MAX_CHARACTER_LIMIT then value else text.

Definition handleClearText (text : jsstring) : jsstring := [].

(** [words.join(' ')] *)
Fixpoint join (sep : jsstring) (words : list jsstring) : jsstring :=
  match words with
  | [] => []
  | [w] => w
  | w :: words' => w ++ sep ++ join sep words'
  end.

(** The text after the button [Keep First Half]. *)
Definition keepFirstHalf (text : jsstring) : jsstring :=
  let words := split_ws text in
  join (lit " ")
    (take (Z.to_nat (Math_ceil
                       (Double.round (inject_Z (Z.of_nat (length words)) / 2))%Q))
          words).

Definition isTextValid (text : jsstring) : bool :=
  (0 <? length (trim text))%nat.

(** The actions on the text that the program defines by itself; the two
    case-mapping buttons come with [Event] below. *)
Inductive Action :=
| TextChange (value : jsstring)
| SampleTextSelect (index : nat)
| ClearText
| KeepFirstHalf.

(** [SampleTextSelect] comes from the buttons built over [SAMPLE_TEXTS], so
    its index is in range; for any other index the text stays as it is. *)
Definition act (text : jsstring) (a : Action) : jsstring :=
  match a with
  | TextChange value => handleTextChange text value
  | SampleTextSelect index => default text (SAMPLE_TEXTS !! index)
  | ClearText => handleClearText text
  | KeepFirstHalf => keepFirstHalf text
  end.

(** The text state after a series of actions, from the initial empty text. *)
Definition text_after (actions : list Action) : jsstring :=
  fold_left act actions [].

(** Everything that sets the text.  The buttons UPPERCASE and lowercase
    call [setText(text.toUpperCase())] and [setText(text.toLowerCase())]
    without a length check; the two case mappings are those of Unicode,
    which the program does not define: they are parameters of [handle]. *)
Inductive Event :=
| Act (a : Action)
| UpperCase
| LowerCase.

Definition handle (toUpperCase toLowerCase : jsstring -> jsstring)
    (text : jsstring) (e : Event) : jsstring :=
  match e with
  | Act a => act text a
  | UpperCase => toUpperCase text
  | LowerCase => toLowerCase text
  end.

Definition text_after_events (toUpperCase toLowerCase : jsstring -> jsstring)
    (events : list Event) : jsstring :=
  fold_left (handle toUpperCase toLowerCase) events [].

(** The body of the request sent by [handleDownload]: the text is trimmed
    there and once more in [createAudioBlob]. *)
Definition download_request (text : jsstring)
    (voiceSettings : AudioUtils.VoiceSettings) : RequestBody :=
  AudioUtils.request_body (trim text) voiceSettings.

End App.

(** The 44 header bytes of the placeholder file, as [placeholder_header]
    lays them out, and the integers its loop hands to [setInt16]. *)
Definition placeholder_wav_header (text : jsstring) (rate : Q) : list Z :=
  lit "RIFF" ++ le_bytes 4 (Client.bufferSize text rate - 8) ++ lit "WAVE"
  ++ lit "fmt " ++ le_bytes 4 16 ++ le_bytes 2 1 ++ le_bytes 2 1
  ++ le_bytes 4 44100 ++ le_bytes 4 (44100 * 1 * 2) ++ le_bytes 2 (1 * 2)
  ++ le_bytes 2 16 ++ lit "data" ++ le_bytes 4 (Client.numSamples text rate * 2).

Fixpoint placeholder_samples (Math_sin : Q -> Q) (text : jsstring)
    (settings : AudioUtils.VoiceSettings) (n : nat) (i : Z) : list Z :=
  match n with
  | O => []
  | S n' =>
      AudioUtils.to_integer
        (AudioUtils.placeholder_sample Math_sin text settings i)
      :: placeholder_samples Math_sin text settings n' (i + 1)
  end.

(** A [toUpperCase] that knows the capitals of the ASCII letters and the
    special casing of U+00DF, the sharp s, which Unicode maps to the two
    code units of [SS]; it is used where a concrete case mapping is
    needed. *)
Definition upper_sharp_s (s : jsstring) : jsstring :=
  concat (map (fun c => if c =? 223 then [83; 83]
                        else if (97 <=? c) && (c <=? 122) then [c - 32]
                        else [c]) s).

(** A number below 100 written with exactly two decimal digits. *)
Definition two_digits (r : Z) : string :=
  String (ascii_of_N (Z.to_N (48 + r / 10)))
    (String (ascii_of_N (Z.to_N (48 + r mod 10))) "").

(** * Verification *)

(** ** Rounding to binary64 *)

Section Rounding.

Import Double.

Lemma pow2_pos (e : Z) : (0 < 2 ^ e)%Q.
Proof. apply Qpower_0_lt. reflexivity. Qed.

Lemma pow2_plus (a b : Z) : (2 ^ (a + b) == 2 ^ a * 2 ^ b)%Q.
Proof. apply Qpower_plus. discriminate. Qed.

Lemma pow2_le (a b : Z) : a <= b -> (2 ^ a <= 2 ^ b)%Q.
Proof. intros H. apply Qpower_le_compat_l; [exact H|discriminate]. Qed.

Lemma pow2_succ (a : Z) : (2 ^ (a + 1) == 2 * 2 ^ a)%Q.
Proof. rewrite pow2_plus. change (2 ^ 1)%Q with 2%Q. ring. Qed.

Lemma pow2_Z (n : Z) : 0 <= n -> (inject_Z (2 ^ n) == 2 ^ n)%Q.
Proof. intros H. apply (Zpower_Qpower 2 n H). Qed.

Lemma exponent_spec (x : Q) :
  (0 < x)%Q -> (2 ^ exponent x <= x /\ x < 2 ^ (exponent x + 1))%Q.
Proof.
  intros Hx. destruct x as [n d].
  assert (Hn : 0 < n) by (unfold Qlt in Hx; simpl in Hx; lia).
  unfold exponent. cbn [Qnum Qden].
  set (a := Z.log2 n). set (b := Z.log2 (Z.pos d)).
  destruct (Z.log2_spec n Hn) as [Ha1 Ha2]. fold a in Ha1, Ha2.
  destruct (Z.log2_spec (Z.pos d) ltac:(lia)) as [Hb1 Hb2]. fold b in Hb1, Hb2.
  assert (Ha0 : 0 <= a) by apply Z.log2_nonneg.
  assert (Hb0 : 0 <= b) by apply Z.log2_nonneg.
  assert (Hx' : (n # d == inject_Z n / inject_Z (Z.pos d))%Q) by apply Qmake_Qdiv.
  assert (HD : (0 < inject_Z (Z.pos d))%Q) by reflexivity.
  assert (Ha1' : (2 ^ a <= inject_Z n)%Q).
  { rewrite <- pow2_Z by lia. rewrite <- Zle_Qle. exact Ha1. }
  assert (Hb1' : (2 ^ b <= inject_Z (Z.pos d))%Q).
  { rewrite <- pow2_Z by lia. rewrite <- Zle_Qle. exact Hb1. }
  assert (Ha2' : (inject_Z n < 2 ^ (a + 1))%Q).
  { rewrite <- pow2_Z by lia. rewrite <- Zlt_Qlt. exact Ha2. }
  assert (Hb2' : (inject_Z (Z.pos d) < 2 ^ (b + 1))%Q).
  { rewrite <- pow2_Z by lia. rewrite <- Zlt_Qlt. exact Hb2. }
  clear Ha1 Hb1 Ha2 Hb2.
  assert (Eab : (2 ^ a == 2 ^ (a - b) * 2 ^ b)%Q).
  { rewrite <- pow2_plus. replace (a - b + b) with a by lia. reflexivity. }
  pose proof (pow2_pos (a - b)) as Hp.
  pose proof (pow2_pos b) as Hpb.
  rewrite pow2_succ in Ha2', Hb2'.
  assert (Hup : (n # d < 2 * 2 ^ (a - b))%Q).
  { rewrite Hx'. apply Qlt_shift_div_r; [exact HD|].
    generalize dependent (inject_Z n). generalize dependent (inject_Z (Z.pos d)).
    generalize dependent (2 ^ a)%Q. generalize dependent (2 ^ b)%Q.
    generalize dependent (2 ^ (a - b))%Q. intros. nra. }
  assert (Hlo : (2 ^ (a - b) < 2 * (n # d))%Q).
  { rewrite Hx'.
    assert (E : (2 * (inject_Z n / inject_Z (Z.pos d))
                 == (2 * inject_Z n) / inject_Z (Z.pos d))%Q) by (field; lra).
    rewrite E. apply Qlt_shift_div_l; [exact HD|].
    generalize dependent (inject_Z n). generalize dependent (inject_Z (Z.pos d)).
    generalize dependent (2 ^ a)%Q. generalize dependent (2 ^ b)%Q.
    generalize dependent (2 ^ (a - b))%Q. intros. nra. }
  destruct (Qle_bool (2 ^ (a - b)) (n # d)) eqn:E.
  - apply Qle_bool_iff in E. split; [exact E|]. rewrite pow2_succ. exact Hup.
  - assert (Hlt : (n # d < 2 ^ (a - b))%Q).
    { apply Qnot_le_lt. intros H. apply Qle_bool_iff in H. congruence. }
    replace (a - b - 1 + 1) with (a - b) by lia.
    split; [|exact Hlt].
    assert (E2 : (2 ^ (a - b) == 2 * 2 ^ (a - b - 1))%Q).
    { rewrite <- pow2_succ. replace (a - b - 1 + 1) with (a - b) by lia. reflexivity. }
    rewrite E2 in Hlo. lra.
Qed.


Lemma exponent_unique (x : Q) (e : Z) :
  (2 ^ e <= x)%Q -> (x < 2 ^ (e + 1))%Q -> exponent x = e.
Proof.
  intros H1 H2.
  assert (Hx : (0 < x)%Q) by (pose proof (pow2_pos e); lra).
  destruct (exponent_spec x Hx) as [H3 H4].
  destruct (Z_lt_le_dec (exponent x) e) as [Hlt|Hge].
  - pose proof (pow2_le (exponent x + 1) e ltac:(lia)). lra.
  - destruct (Z_lt_le_dec e (exponent x)) as [Hlt|Hle]; [|lia].
    pose proof (pow2_le (e + 1) (exponent x) ltac:(lia)). lra.
Qed.

Lemma exponent_le (x y : Q) :
  (0 < x)%Q -> (x <= y)%Q -> exponent x <= exponent y.
Proof.
  intros Hx Hxy.
  destruct (exponent_spec x Hx) as [H1 H2].
  destruct (exponent_spec y ltac:(lra)) as [H3 H4].
  destruct (Z_lt_le_dec (exponent y) (exponent x)) as [Hlt|Hge]; [|exact Hge].
  pose proof (pow2_le (exponent y + 1) (exponent x) ltac:(lia)). lra.
Qed.

Ltac compare_to_order :=
  repeat match goal with
  | H : (_ ?= _)%Q = Eq |- _ => apply Qeq_alt in H
  | H : (_ ?= _)%Q = Lt |- _ => apply Qlt_alt in H
  | H : (_ ?= _)%Q = Gt |- _ => apply Qgt_alt in H
  end.

Lemma round_half_even_cases (x : Q) :
  round_half_even x = Qfloor x \/ round_half_even x = Qfloor x + 1.
Proof.
  unfold round_half_even.
  destruct (x - inject_Z (Qfloor x) ?= 1 # 2)%Q; auto.
  destruct (Z.even (Qfloor x)); auto.
Qed.

Lemma round_half_even_le (x y : Q) :
  (x <= y)%Q -> round_half_even x <= round_half_even y.
Proof.
  intros Hxy. pose proof (Qfloor_resp_le x y Hxy) as Hf.
  destruct (Z_lt_le_dec (Qfloor x) (Qfloor y)) as [Hlt|Hge].
  - destruct (round_half_even_cases x), (round_half_even_cases y); lia.
  - assert (E : Qfloor y = Qfloor x) by lia.
    unfold round_half_even. rewrite E.
    destruct (x - inject_Z (Qfloor x) ?= 1 # 2)%Q eqn:Cx;
      destruct (y - inject_Z (Qfloor x) ?= 1 # 2)%Q eqn:Cy;
      try (destruct (Z.even (Qfloor x))); try lia;
      exfalso; compare_to_order; lra.
Qed.

Lemma round_half_even_bounds (x : Q) :
  (x - (1 # 2) <= inject_Z (round_half_even x) <= x + (1 # 2))%Q.
Proof.
  pose proof (Qfloor_le x) as H1. pose proof (Qlt_floor x) as H2.
  rewrite inject_Z_plus in H2. change (inject_Z 1) with 1%Q in H2.
  unfold round_half_even.
  destruct (x - inject_Z (Qfloor x) ?= 1 # 2)%Q eqn:C; compare_to_order.
  - destruct (Z.even (Qfloor x)); rewrite ?inject_Z_plus;
      change (inject_Z 1) with 1%Q; lra.
  - lra.
  - rewrite inject_Z_plus. change (inject_Z 1) with 1%Q. lra.
Qed.

Lemma round_half_even_comp (x y : Q) :
  (x == y)%Q -> round_half_even x = round_half_even y.
Proof.
  intros H. unfold round_half_even.
  rewrite (Qfloor_comp x y H).
  assert (E : (x - inject_Z (Qfloor y) ?= 1 # 2)%Q
              = (y - inject_Z (Qfloor y) ?= 1 # 2)%Q).
  { apply Qcompare_comp; [rewrite H; reflexivity|reflexivity]. }
  rewrite E. reflexivity.
Qed.

Lemma round_half_even_Z (k : Z) : round_half_even (inject_Z k) = k.
Proof.
  unfold round_half_even. rewrite Qfloor_Z.
  assert (C : (inject_Z k - inject_Z k ?= 1 # 2)%Q = Lt).
  { apply Qlt_alt.
    assert (E : (inject_Z k - inject_Z k == 0)%Q) by ring.
    rewrite E. reflexivity. }
  rewrite C. reflexivity.
Qed.

(** The significand of a positive number, scaled to [2^52, 2^53). *)
Lemma significand_range (x : Q) :
  (0 < x)%Q ->
  (2 ^ 52 <= x * 2 ^ (52 - exponent x) /\ x * 2 ^ (52 - exponent x) < 2 ^ 53)%Q.
Proof.
  intros Hx. destruct (exponent_spec x Hx) as [H1 H2].
  pose proof (pow2_pos (52 - exponent x)) as Hp.
  assert (E1 : (2 ^ 52 == 2 ^ exponent x * 2 ^ (52 - exponent x))%Q).
  { rewrite <- pow2_plus. replace (exponent x + (52 - exponent x)) with 52 by lia.
    reflexivity. }
  assert (E2 : (2 ^ 53 == 2 ^ (exponent x + 1) * 2 ^ (52 - exponent x))%Q).
  { rewrite <- pow2_plus. replace (exponent x + 1 + (52 - exponent x)) with 53 by lia.
    reflexivity. }
  rewrite E1, E2.
  generalize dependent (2 ^ (52 - exponent x))%Q.
  generalize dependent (2 ^ (exponent x + 1))%Q.
  generalize dependent (2 ^ exponent x)%Q. intros. nra.
Qed.

Lemma round_positive_range (x : Q) :
  (0 < x)%Q ->
  (2 ^ exponent x <= round_positive x <= 2 ^ (exponent x + 1))%Q.
Proof.
  intros Hx. destruct (significand_range x Hx) as [H1 H2].
  unfold round_positive. cbv zeta.
  set (m := (x * 2 ^ (52 - exponent x))%Q) in *.
  assert (Hlo : 2 ^ 52 <= round_half_even m).
  { rewrite <- (round_half_even_Z (2 ^ 52)). apply round_half_even_le. exact H1. }
  assert (Hhi : round_half_even m <= 2 ^ 53).
  { rewrite <- (round_half_even_Z (2 ^ 53)). apply round_half_even_le.
    apply Qlt_le_weak. exact H2. }
  rewrite Zle_Qle in Hlo, Hhi.
  change (inject_Z (2 ^ 52)) with (2 ^ 52)%Q in Hlo.
  change (inject_Z (2 ^ 53)) with (2 ^ 53)%Q in Hhi.
  pose proof (pow2_pos (exponent x - 52)) as Hp.
  assert (E1 : (2 ^ exponent x == 2 ^ 52 * 2 ^ (exponent x - 52))%Q).
  { rewrite <- pow2_plus. replace (52 + (exponent x - 52)) with (exponent x) by lia.
    reflexivity. }
  assert (E2 : (2 ^ (exponent x + 1) == 2 ^ 53 * 2 ^ (exponent x - 52))%Q).
  { rewrite <- pow2_plus. replace (53 + (exponent x - 52)) with (exponent x + 1) by lia.
    reflexivity. }
  rewrite E1, E2.
  generalize dependent (inject_Z (round_half_even m)).
  generalize dependent (2 ^ (exponent x - 52))%Q. intros. nra.
Qed.

Lemma round_positive_le (x y : Q) :
  (0 < x)%Q -> (x <= y)%Q -> (round_positive x <= round_positive y)%Q.
Proof.
  intros Hx Hxy. assert (Hy : (0 < y)%Q) by lra.
  pose proof (exponent_le x y Hx Hxy) as He.
  destruct (Z_lt_le_dec (exponent x) (exponent y)) as [Hlt|Hge].
  - destruct (round_positive_range x Hx) as [_ H1].
    destruct (round_positive_range y Hy) as [H2 _].
    pose proof (pow2_le (exponent x + 1) (exponent y) ltac:(lia)). lra.
  - assert (E : exponent y = exponent x) by lia.
    unfold round_positive. cbv zeta. rewrite E.
    pose proof (pow2_pos (exponent x - 52)) as Hp.
    pose proof (pow2_pos (52 - exponent x)) as Hq.
    assert (Hm : round_half_even (x * 2 ^ (52 - exponent x))
                 <= round_half_even (y * 2 ^ (52 - exponent x))).
    { apply round_half_even_le.
      generalize dependent (2 ^ (52 - exponent x))%Q. intros. nra. }
    rewrite Zle_Qle in Hm.
    generalize dependent (inject_Z (round_half_even (x * 2 ^ (52 - exponent x)))).
    generalize dependent (inject_Z (round_half_even (y * 2 ^ (52 - exponent x)))).
    generalize dependent (2 ^ (exponent x - 52))%Q. intros. nra.
Qed.

Lemma round_positive_error (x : Q) :
  (0 < x)%Q ->
  (x * (1 - unit_roundoff) <= round_positive x <= x * (1 + unit_roundoff))%Q.
Proof.
  intros Hx. destruct (exponent_spec x Hx) as [H1 _].
  unfold round_positive. cbv zeta.
  pose proof (round_half_even_bounds (x * 2 ^ (52 - exponent x))) as [Hb1 Hb2].
  pose proof (pow2_pos (exponent x - 52)) as Hp.
  assert (E1 : (2 ^ exponent x == 2 ^ 52 * 2 ^ (exponent x - 52))%Q).
  { rewrite <- pow2_plus. replace (52 + (exponent x - 52)) with (exponent x) by lia.
    reflexivity. }
  assert (E2 : (2 ^ (52 - exponent x) * 2 ^ (exponent x - 52) == 1)%Q).
  { rewrite <- pow2_plus. replace (52 - exponent x + (exponent x - 52)) with 0 by lia.
    reflexivity. }
  rewrite E1 in H1. change (2 ^ 52)%Q with 4503599627370496%Q in H1.
  unfold unit_roundoff.
  set (q := (2 ^ (52 - exponent x))%Q) in *.
  set (p := (2 ^ (exponent x - 52))%Q) in *.
  set (r := inject_Z (round_half_even (x * q))) in *.
  clearbody r q p.
  assert (Hxq : (x * q * p == x)%Q) by (rewrite <- Qmult_assoc, E2; ring).
  assert (H3 : ((x * q - (1 # 2)) * p <= r * p)%Q) by nra.
  assert (H4 : (r * p <= (x * q + (1 # 2)) * p)%Q) by nra.
  assert (E3 : ((x * q - (1 # 2)) * p == x - (1 # 2) * p)%Q)
    by (rewrite <- Hxq at 2; ring).
  assert (E4 : ((x * q + (1 # 2)) * p == x + (1 # 2) * p)%Q)
    by (rewrite <- Hxq at 2; ring).
  rewrite E3 in H3. rewrite E4 in H4.
  split; lra.
Qed.


Lemma round_positive_pos (x : Q) : (0 < x)%Q -> (0 < round_positive x)%Q.
Proof.
  intros Hx. destruct (round_positive_range x Hx) as [H _].
  pose proof (pow2_pos (exponent x)). lra.
Qed.

Lemma rounding_comp (x y : Q) : (x == y)%Q -> round x = round y.
Proof. intros H. unfold round. rewrite (Qred_complete x y H). reflexivity. Qed.

Lemma rounding_of_positive (x : Q) :
  (0 < x)%Q -> round x = round_positive (Qred x).
Proof.
  intros Hx. unfold round. cbv zeta.
  assert (C : (Qred x ?= 0)%Q = Gt).
  { apply Qgt_alt. rewrite Qred_correct. exact Hx. }
  rewrite C. reflexivity.
Qed.

Lemma rounding_of_negative (x : Q) :
  (x < 0)%Q -> round x = (- round_positive (- Qred x))%Q.
Proof.
  intros Hx. unfold round. cbv zeta.
  assert (C : (Qred x ?= 0)%Q = Lt).
  { apply Qlt_alt. rewrite Qred_correct. exact Hx. }
  rewrite C. reflexivity.
Qed.

Lemma rounding_of_zero (x : Q) : (x == 0)%Q -> round x = 0%Q.
Proof. intros Hx. rewrite (rounding_comp x 0 Hx). reflexivity. Qed.

Lemma rounding_pos (x : Q) : (0 < x)%Q -> (0 < round x)%Q.
Proof.
  intros Hx. rewrite (rounding_of_positive x Hx).
  apply round_positive_pos. rewrite Qred_correct. exact Hx.
Qed.

Lemma rounding_neg (x : Q) : (x < 0)%Q -> (round x < 0)%Q.
Proof.
  intros Hx. rewrite (rounding_of_negative x Hx).
  assert (H : (0 < round_positive (- Qred x))%Q).
  { apply round_positive_pos. rewrite Qred_correct. lra. }
  lra.
Qed.

(** Rounding to nearest is monotone. *)
Lemma rounding_le (x y : Q) : (x <= y)%Q -> (round x <= round y)%Q.
Proof.
  intros Hxy.
  destruct (Q_dec x 0) as [[Hx|Hx]|Hx]; destruct (Q_dec y 0) as [[Hy|Hy]|Hy];
    try (exfalso; lra).
  - rewrite (rounding_of_negative x Hx), (rounding_of_negative y Hy).
    assert (H : (round_positive (- Qred y) <= round_positive (- Qred x))%Q).
    { apply round_positive_le; rewrite !Qred_correct; lra. }
    lra.
  - pose proof (rounding_neg x Hx). pose proof (rounding_pos y Hy). lra.
  - pose proof (rounding_neg x Hx). rewrite (rounding_of_zero y Hy). lra.
  - rewrite (rounding_of_positive x Hx), (rounding_of_positive y Hy).
    apply round_positive_le; rewrite !Qred_correct; assumption.
  - rewrite (rounding_of_zero x Hx). pose proof (rounding_pos y Hy). lra.
  - rewrite (rounding_of_zero x Hx), (rounding_of_zero y Hy). lra.
Qed.

Lemma rounding_nonneg (x : Q) : (0 <= x)%Q -> (0 <= round x)%Q.
Proof. intros Hx. change 0%Q with (round 0). apply rounding_le, Hx. Qed.

(** The relative error of one rounding is at most 2^-53. *)
Lemma rounding_error (x : Q) :
  (0 <= x)%Q ->
  (x * (1 - unit_roundoff) <= round x <= x * (1 + unit_roundoff))%Q.
Proof.
  intros Hx. destruct (Qle_lt_or_eq _ _ Hx) as [Hpos|Hz].
  - rewrite (rounding_of_positive x Hpos).
    pose proof (Qred_correct x) as Hq.
    assert (Hr : (0 < Qred x)%Q) by lra.
    pose proof (round_positive_error (Qred x) Hr) as H.
    unfold unit_roundoff in *. lra.
  - rewrite (rounding_of_zero x) by (symmetry; exact Hz).
    unfold unit_roundoff. lra.
Qed.

(** Integers below 2^53 are represented exactly. *)
Lemma rounding_Z (k : Z) :
  0 <= k < 2 ^ 53 -> (round (inject_Z k) == inject_Z k)%Q.
Proof.
  intros [H0 H1]. destruct (Z.eq_dec k 0) as [->|Hk]; [reflexivity|].
  assert (Hpos : (0 < inject_Z k)%Q).
  { change 0%Q with (inject_Z 0). rewrite <- Zlt_Qlt. lia. }
  rewrite (rounding_of_positive _ Hpos).
  set (y := Qred (inject_Z k)).
  assert (Hy : (y == inject_Z k)%Q) by apply Qred_correct.
  assert (Hy0 : (0 < y)%Q) by (rewrite Hy; exact Hpos).
  destruct (exponent_spec y Hy0) as [He1 He2].
  assert (He : 0 <= exponent y <= 52).
  { split.
    - apply (exponent_le 1 y); [reflexivity|].
      rewrite Hy. change 1%Q with (inject_Z 1). rewrite <- Zle_Qle. lia.
    - assert (H : (2 ^ exponent y < 2 ^ 53)%Q).
      { apply Qle_lt_trans with y; [exact He1|]. rewrite Hy.
        change (2 ^ 53)%Q with (inject_Z (2 ^ 53)). rewrite <- Zlt_Qlt. exact H1. }
      apply Qpower_lt_compat_l_inv in H; [lia|reflexivity]. }
  unfold round_positive. cbv zeta.
  assert (Em : (y * 2 ^ (52 - exponent y) == inject_Z (k * 2 ^ (52 - exponent y)))%Q).
  { rewrite inject_Z_mult, pow2_Z by lia.
    apply Qmult_comp; [exact Hy|reflexivity]. }
  rewrite (round_half_even_comp _ _ Em), round_half_even_Z.
  rewrite inject_Z_mult, pow2_Z by lia.
  rewrite <- Qmult_assoc, <- pow2_plus.
  replace (52 - exponent y + (exponent y - 52)) with 0 by lia.
  change (2 ^ 0)%Q with 1%Q. ring.
Qed.

End Rounding.

(** ** Strings: trimming and splitting *)

Example split_hello : split_ws (lit "Hello world") = [lit "Hello"; lit "world"].
Proof. reflexivity. Qed.

Example split_leading : split_ws (lit "  a b ") = [[]; lit "a"; lit "b"; []].
Proof. reflexivity. Qed.

Example split_empty : split_ws [] = [[]].
Proof. reflexivity. Qed.

Lemma trimStart_length s : (length (trimStart s) <= length s)%nat.
Proof.
  induction s as [|c s IH]; simpl; [lia|].
  destruct (is_whitespace c); simpl; lia.
Qed.

Lemma trim_length s : (length (trim s) <= length s)%nat.
Proof.
  unfold trim, trimEnd. rewrite length_rev.
  etransitivity; [apply trimStart_length|].
  rewrite length_rev. apply trimStart_length.
Qed.

Lemma trim_nonempty s : trim s <> [] -> (0 < length s)%nat.
Proof.
  intros H. pose proof (trim_length s).
  destruct (trim s); [congruence|]. simpl in *. lia.
Qed.

(** A text that [trimStart] leaves alone does not start with whitespace. *)
Lemma trimStart_fixed c s :
  trimStart (c :: s) = c :: s -> is_whitespace c = false.
Proof.
  simpl. destruct (is_whitespace c); [|reflexivity].
  intros H. pose proof (trimStart_length s) as Hl.
  rewrite H in Hl. simpl in Hl. lia.
Qed.

Lemma trimStart_head c s :
  is_whitespace c = false -> trimStart (c :: s) = c :: s.
Proof. simpl. intros ->. reflexivity. Qed.

Lemma split_go_count s : forall cur inws,
  (length (List.filter nonempty (split_go s cur inws))
   <= length s + length cur)%nat.
Proof.
  induction s as [|c s IH]; intros cur inws; simpl.
  - unfold nonempty. rewrite length_rev.
    destruct cur; simpl; lia.
  - destruct (is_whitespace c).
    + destruct inws.
      * specialize (IH cur true). lia.
      * simpl. specialize (IH [] true). simpl in IH.
        unfold nonempty at 1. rewrite length_rev.
        destruct cur; simpl; lia.
    + specialize (IH (c :: cur) false). simpl in IH. lia.
Qed.

Lemma wordCount_le_length text : wordCount text <= Z.of_nat (length text).
Proof.
  unfold wordCount, split_ws.
  pose proof (split_go_count text [] false) as H.
  unfold nonempty in *. simpl in H. lia.
Qed.

Lemma wordCount_nonneg text : 0 <= wordCount text.
Proof. unfold wordCount. lia. Qed.

Lemma ends_clean_tail c s : ends_clean (c :: s) -> s <> [] -> ends_clean s.
Proof.
  unfold ends_clean. simpl. intros H Hs.
  destruct (rev s) as [|x r] eqn:E.
  - apply (f_equal (@rev Z)) in E. rewrite rev_involutive in E. simpl in E. congruence.
  - simpl in H. exact H.
Qed.

Lemma ends_clean_single_ws c : is_whitespace c = true -> ~ ends_clean [c].
Proof. unfold ends_clean. simpl. congruence. Qed.

(** On a text that ends with a non-whitespace code unit, every token is
    non-empty once the piece being read is, or once a separator is open. *)
Lemma split_go_all_nonempty s : forall cur inws,
  ends_clean s ->
  (inws = false -> cur <> []) ->
  (inws = true -> s <> []) ->
  Forall (fun w => nonempty w = true) (split_go s cur inws).
Proof.
  induction s as [|c s IH]; intros cur inws Hend Hcur Hs; simpl.
  - destruct inws; [exfalso; apply Hs; reflexivity|].
    constructor; [|constructor].
    unfold nonempty. rewrite length_rev.
    destruct cur; [exfalso; apply Hcur; reflexivity|]. reflexivity.
  - destruct (is_whitespace c) eqn:Hc.
    + assert (Hne : s <> []).
      { intros ->. exact (ends_clean_single_ws c Hc Hend). }
      pose proof (ends_clean_tail c s Hend Hne) as Hend'.
      destruct inws.
      * apply IH; [exact Hend'|discriminate|intros _; exact Hne].
      * constructor.
        -- unfold nonempty. rewrite length_rev.
           destruct cur; [exfalso; apply Hcur; reflexivity|]. reflexivity.
        -- apply IH; [exact Hend'|discriminate|intros _; exact Hne].
    + apply IH.
      * destruct s as [|x s']; [exact I|].
        apply (ends_clean_tail c); [exact Hend|discriminate].
      * intros _. discriminate.
      * discriminate.
Qed.

Lemma trim_fixed_ends text :
  trim text = text -> text <> [] ->
  (exists c s, text = c :: s /\ is_whitespace c = false) /\ ends_clean text.
Proof.
  intros Ht Hne.
  assert (Hs : trimStart text = text).
  { pose proof (trimStart_length text) as H1.
    pose proof (trimStart_length (rev (trimStart text))) as H2.
    unfold trim, trimEnd in Ht.
    assert (Hl : length (trimStart text) = length text).
    { apply (f_equal (@length Z)) in Ht. rewrite length_rev in Ht.
      rewrite length_rev in H2. lia. }
    destruct text as [|c s]; [reflexivity|].
    revert Hl. simpl. destruct (is_whitespace c); [|reflexivity].
    intros Hl. pose proof (trimStart_length s). lia. }
  split.
  - destruct text as [|c s]; [congruence|].
    exists c, s. split; [reflexivity|]. apply (trimStart_fixed c s Hs).
  - unfold trim, trimEnd in Ht. rewrite Hs in Ht.
    apply (f_equal (@rev Z)) in Ht. rewrite rev_involutive in Ht.
    unfold ends_clean. destruct (rev text) as [|c r]; [exact I|].
    apply (trimStart_fixed c r Ht).
Qed.

Lemma filter_keeps_all {A} (f : A -> bool) (l : list A) :
  Forall (fun x => f x = true) l -> List.filter f l = l.
Proof.
  induction 1 as [|x l Hx _ IH]; simpl; [reflexivity|].
  rewrite Hx, IH. reflexivity.
Qed.

(** On a trimmed, non-empty text the filter removes nothing. *)
Lemma split_trimmed_tokens text :
  trim text = text -> text <> [] ->
  wordCount text = Z.of_nat (length (split_ws text)).
Proof.
  intros Ht Hne.
  destruct (trim_fixed_ends text Ht Hne) as [(c & s & -> & Hc) Hend].
  unfold wordCount, split_ws. f_equal. f_equal.
  change (fun word : jsstring => (0 <? length word)%nat) with nonempty.
  apply filter_keeps_all.
  simpl. rewrite Hc.
  apply split_go_all_nonempty.
  - destruct s as [|x s']; [exact I|].
    apply (ends_clean_tail c); [exact Hend|discriminate].
  - intros _. discriminate.
  - discriminate.
Qed.

Lemma split_go_count_words s : forall cur inws,
  (inws = true -> cur = []) ->
  Z.of_nat (length (List.filter nonempty (split_go s cur inws)))
  = (if nonemptyb_of cur then 1 else 0) + count_words s (nonemptyb_of cur).
Proof.
  induction s as [|c s IH]; intros cur inws Hinv; simpl.
  - unfold nonempty. rewrite length_rev. destruct cur; reflexivity.
  - destruct (is_whitespace c).
    + destruct inws.
      * rewrite (Hinv eq_refl). rewrite IH by reflexivity. reflexivity.
      * simpl. unfold nonempty at 1. rewrite length_rev.
        specialize (IH [] true (fun _ => eq_refl)). simpl in IH.
        destruct cur; simpl; lia.
    + rewrite IH by discriminate. simpl. destruct cur; simpl; lia.
Qed.

(** The code's [wordCount] is the number of words of the text. *)
Lemma wordCount_count_words text : wordCount text = count_words text false.
Proof.
  unfold wordCount, split_ws.
  change (fun word : jsstring => (0 <? length word)%nat) with nonempty.
  rewrite split_go_count_words by discriminate. reflexivity.
Qed.

(** ** Duration *)

Lemma Qceiling_max2 (x : Q) : Qceiling (Qmax 2 x) = Z.max 2 (Qceiling x).
Proof.
  destruct (Q.max_spec 2 x) as [[Hlt He]|[Hle He]].
  - rewrite (Qceiling_comp _ _ He).
    assert (H : Qceiling 2 <= Qceiling x)
      by (apply Qceiling_resp_le, Qlt_le_weak, Hlt).
    change (Qceiling 2) with 2 in H. lia.
  - rewrite (Qceiling_comp _ _ He).
    assert (H : Qceiling x <= Qceiling 2) by (apply Qceiling_resp_le, Hle).
    change (Qceiling 2) with 2 in *. lia.
Qed.

Lemma duration_max text settings :
  duration text settings
  = Z.max 2 (Math_ceil
               (Double.round
                  (Double.round (inject_Z (wordCount text)
                                 / Double.round (155 * rate settings)) * 60))%Q).
Proof.
  unfold duration, baseDuration, wordsPerMinute, Math_ceil, Math_max.
  apply Qceiling_max2.
Qed.

Lemma duration_ge_2 text settings : 2 <= duration text settings.
Proof. rewrite duration_max. lia. Qed.

Lemma inject_Z_range (a w b : Z) :
  a <= w <= b -> (inject_Z a <= inject_Z w <= inject_Z b)%Q.
Proof. intros [H1 H2]. rewrite <- !Zle_Qle. split; assumption. Qed.

(** Correctly rounded operations are monotone, so the rounded estimate is
    monotone in the number of words and antitone in the rate. *)
Lemma rounded_seconds_monotone (w1 w2 r1 r2 : Q) :
  (0 <= w1 <= w2)%Q -> (0 < r2 <= r1)%Q ->
  (Double.round (Double.round (w1 / Double.round (155 * r1)) * 60)
   <= Double.round (Double.round (w2 / Double.round (155 * r2)) * 60))%Q.
Proof.
  intros [Hw0 Hw] [Hr0 Hr].
  assert (H2 : (0 < Double.round (155 * r2))%Q) by (apply rounding_pos; lra).
  assert (H12 : (Double.round (155 * r2) <= Double.round (155 * r1))%Q)
    by (apply rounding_le; lra).
  set (a1 := Double.round (155 * r1)) in *.
  set (a2 := Double.round (155 * r2)) in *. clearbody a1 a2.
  assert (Hq : (w1 / a1 <= w2 / a2)%Q).
  { apply Qle_shift_div_r; [lra|].
    assert (E : (w2 / a2 * a1 == (w2 * a1) / a2)%Q) by (field; lra).
    rewrite E. apply Qle_shift_div_l; [exact H2|]. nra. }
  apply rounding_le. apply rounding_le in Hq. lra.
Qed.

(** The duration of a text of at most [W] words at a rate of at least
    0.1 is at most the duration of [W] words at rate 0.1. *)
Lemma duration_le_words text settings (W : Z) :
  wordCount text <= W -> (0.1 <= rate settings)%Q ->
  duration text settings
  <= Z.max 2 (Math_ceil
                (Double.round
                   (Double.round (inject_Z W / Double.round (155 * 0.1)) * 60))%Q).
Proof.
  intros Hw Hr. rewrite duration_max.
  apply Z.max_le_compat_l. apply Qceiling_resp_le.
  apply rounded_seconds_monotone.
  - apply (inject_Z_range 0). pose proof (wordCount_nonneg text). lia.
  - split; [reflexivity|exact Hr].
Qed.

(** For a valid request the duration stays below 19355 seconds: at most
    5000 words at no less than 15.5 words per minute. *)
Lemma duration_le text settings :
  valid_request text settings -> duration text settings <= 19355.
Proof.
  intros (_ & Hlen & [Hr1 _] & _).
  pose proof (wordCount_le_length text) as Hwc.
  pose proof (duration_le_words text settings 5000 ltac:(lia) Hr1) as H.
  assert (E : Z.max 2 (Math_ceil
                (Double.round
                   (Double.round (inject_Z 5000 / Double.round (155 * 0.1)) * 60))%Q)
              = 19355) by (vm_compute; reflexivity).
  rewrite E in H. exact H.
Qed.


(** ** The duration against its formula in exact arithmetic *)

(** Three roundings separate the estimate of the code from the exact
    quotient: each moves the value by at most one part in 2^53. *)
Lemma rounded_seconds_error (w r : Q) :
  (0 <= w)%Q -> (0 < r)%Q ->
  (w / (155 * r) * 60 * (1 - 6 * Double.unit_roundoff)
   <= Double.round (Double.round (w / Double.round (155 * r)) * 60)
   <= w / (155 * r) * 60 * (1 + 6 * Double.unit_roundoff))%Q.
Proof.
  intros Hw Hr.
  assert (Ha : (0 < 155 * r)%Q) by lra.
  pose proof (rounding_error (155 * r) ltac:(lra)) as [Ha1 Ha2].
  pose proof (rounding_pos (155 * r) Ha) as Ha0.
  assert (Et : (w / (155 * r) * (155 * r) == w)%Q) by (field; lra).
  assert (Ht : (0 <= w / (155 * r))%Q).
  { apply Qle_shift_div_l; [exact Ha|]. lra. }
  set (a := (155 * r)%Q) in *. set (a' := Double.round a) in *.
  set (t := (w / a)%Q) in *. clearbody t a' a.
  unfold Double.unit_roundoff in *.
  assert (Hta1 : (w * (1 - (1 # 9007199254740992)) <= t * a')%Q) by nra.
  assert (Hta2 : (t * a' <= w * (1 + (1 # 9007199254740992)))%Q) by nra.
  assert (Hq1 : (t * (1 - (1 # 9007199254740992)) <= w / a')%Q).
  { apply Qle_shift_div_l; [exact Ha0|]. nra. }
  assert (Hq2 : (w / a' <= t * (1 + (2 # 9007199254740992)))%Q).
  { apply Qle_shift_div_r; [exact Ha0|]. nra. }
  assert (Hq0 : (0 <= w / a')%Q) by lra.
  pose proof (rounding_error (w / a') Hq0) as [Hr1 Hr2].
  unfold Double.unit_roundoff in *.
  set (q := (w / a')%Q) in *. set (q' := Double.round q) in *. clearbody q' q.
  assert (Hz0 : (0 <= q' * 60)%Q) by lra.
  pose proof (rounding_error (q' * 60) Hz0) as [Hz1 Hz2].
  unfold Double.unit_roundoff in *.
  set (z' := Double.round (q' * 60)) in *. clearbody z'.
  split; lra.
Qed.

Lemma Qceiling_near (x y : Q) :
  (x - (1 # 2) <= y <= x + (1 # 2))%Q ->
  Qceiling x - 1 <= Qceiling y <= Qceiling x + 1.
Proof.
  intros [H1 H2].
  pose proof (Qle_ceiling x) as Hx. pose proof (Qle_ceiling y) as Hy.
  split.
  - assert (H : Qceiling x <= Qceiling (inject_Z (Qceiling y + 1))).
    { apply Qceiling_resp_le. rewrite inject_Z_plus.
      change (inject_Z 1) with 1%Q. lra. }
    rewrite Qceiling_Z in H. lia.
  - assert (H : Qceiling y <= Qceiling (inject_Z (Qceiling x + 1))).
    { apply Qceiling_resp_le. rewrite inject_Z_plus.
      change (inject_Z 1) with 1%Q. lra. }
    rewrite Qceiling_Z in H. exact H.
Qed.

(** C2, as stated, fails: 961 one-letter words at rate 3 are a valid
    request; [(961 / (155 * 3)) * 60] is exactly 124, and so is the duration
    of the specification; in binary64 the quotient [961 / 465] is rounded
    up, its product with 60 comes out just above 124, and the code returns
    125 seconds. *)
Lemma C2_rounding_adds_a_second :
  valid_request words_961 (mkSettings 3 1 1 None) /\
  wordCount words_961 = 961 /\
  ((inject_Z 961 / (155 * 3)) * 60 == 124)%Q /\
  spec_duration words_961 3 = 124 /\
  (124 < Double.round (Double.round (inject_Z 961 / Double.round (155 * 3)) * 60))%Q /\
  duration words_961 (mkSettings 3 1 1 None) = 125.
Proof.
  split; [unfold valid_request; repeat split; vm_compute; discriminate|].
  split; [vm_compute; reflexivity|].
  split; [reflexivity|].
  split; [vm_compute; reflexivity|].
  split; vm_compute; reflexivity.
Qed.

(** C2 (amended) — For every valid text and every rate in [0.1, 10] the
    computed duration is [max(2, ceil((wordCount / (155 * rate)) * 60))]
    with the product, the quotient and the second product each rounded to
    binary64, where [wordCount] is the number of non-empty tokens of the
    text split on runs of whitespace (its number of words); the result is
    an integer that is at least 2, and it is within one second of the value
    the formula has in exact arithmetic. *)
Theorem C2_duration_in_double_arithmetic text settings :
  valid_request text settings ->
  duration text settings
  = Z.max 2 (Math_ceil
               (Double.round
                  (Double.round (inject_Z (count_words text false)
                                 / Double.round (155 * rate settings)) * 60))%Q)
  /\ wordCount text = count_words text false
  /\ 2 <= duration text settings
  /\ spec_duration text (rate settings) - 1
     <= duration text settings
     <= spec_duration text (rate settings) + 1.
Proof.
  intros Hv. pose proof Hv as (_ & Hlen & [Hr1 Hr2] & _).
  pose proof (wordCount_count_words text) as Hc.
  split; [rewrite <- Hc; apply duration_max|].
  split; [exact Hc|].
  split; [apply duration_ge_2|].
  rewrite duration_max. unfold spec_duration, Math_ceil. rewrite <- Hc.
  pose proof (wordCount_le_length text) as Hwc.
  pose proof (wordCount_nonneg text) as Hwc0.
  destruct (inject_Z_range 0 (wordCount text) 5000 ltac:(lia)) as [Hw0 Hw1].
  change (inject_Z 0) with 0%Q in Hw0. change (inject_Z 5000) with 5000%Q in Hw1.
  pose proof (rounded_seconds_error (inject_Z (wordCount text)) (rate settings)
                Hw0 ltac:(lra)) as [He1 He2].
  assert (Hx : (0 <= inject_Z (wordCount text) / (155 * rate settings) * 60
                <= 19355)%Q).
  { assert (Hpos : (0 < 155 * rate settings)%Q) by lra.
    assert (Hq : (0 <= inject_Z (wordCount text) / (155 * rate settings)
                  <= 3871 # 12)%Q).
    { split.
      - apply Qle_shift_div_l; [exact Hpos|]. lra.
      - apply Qle_shift_div_r; [exact Hpos|]. lra. }
    set (q := (inject_Z (wordCount text) / (155 * rate settings))%Q) in *.
    clearbody q. lra. }
  unfold Double.unit_roundoff in *.
  set (x := (inject_Z (wordCount text) / (155 * rate settings) * 60)%Q) in *.
  set (y := Double.round
              (Double.round (inject_Z (wordCount text)
                             / Double.round (155 * rate settings)) * 60)) in *.
  clearbody x y.
  pose proof (Qceiling_near x y ltac:(lra)). lia.
Qed.

Lemma C2_witness :
  spec_duration hello_world (rate neutral) - 1
  <= duration hello_world neutral
  <= spec_duration hello_world (rate neutral) + 1.
Proof.
  apply (C2_duration_in_double_arithmetic hello_world neutral).
  unfold valid_request.
  repeat split; vm_compute; discriminate.
Defined.

(** ** Client and server durations *)

Example hello_duration : duration hello_world neutral = 2.
Proof. vm_compute. reflexivity. Qed.

(** With a leading space the unfiltered split counts one token more than
    there are words, which moves the client estimate past a whole second:
    31 words at rate 1 take 12 seconds, 32 tokens round up to 13. *)
Example leading_space_durations :
  let text := 32 :: concat (replicate 30 (lit "a ")) ++ lit "a" in
  wordCount text = 31 /\ length (split_ws text) = 32%nat /\
  duration text neutral = 12 /\ Client.duration text 1 = 13.
Proof. vm_compute. repeat split; reflexivity. Qed.

(** C7, as stated, fails: for the text [Hello world] at rate 1 the client
    placeholder path computes 1 second and the server path 2 seconds. *)
Lemma C7_hello_world_differs :
  Client.duration hello_world (rate neutral) = 1 /\
  duration hello_world neutral = 2 /\
  Client.duration hello_world (rate neutral) <> duration hello_world neutral.
Proof.
  vm_compute. split; [reflexivity|]. split; [reflexivity|discriminate].
Qed.

(** C7 (amended) — For every non-empty text without leading or trailing
    whitespace and every rate, both paths use the constants 155 and 60 on the
    same token count, with the same roundings, and the server duration is
    the client placeholder duration raised to the server's floor of 2
    seconds. *)
Theorem C7_server_is_client_floored text settings :
  trim text = text -> text <> [] ->
  Client.estimateDuration text (rate settings)
  = Double.round
      (Double.round (inject_Z (wordCount text) / wordsPerMinute settings) * 60)%Q
  /\ duration text settings
     = Z.max 2 (Client.duration text (rate settings)).
Proof.
  intros Ht Hne.
  pose proof (split_trimmed_tokens text Ht Hne) as Hwc.
  unfold Client.duration, Client.estimateDuration, wordsPerMinute. cbv zeta.
  rewrite duration_max, <- Hwc.
  split; [reflexivity|lia].
Qed.

Lemma C7_witness :
  duration (lit "one two three four five six seven") neutral
  = Z.max 2 (Client.duration (lit "one two three four five six seven")
                             (rate neutral)).
Proof.
  apply (C7_server_is_client_floored
           (lit "one two three four five six seven") neutral);
    [reflexivity|discriminate].
Defined.

(** ** Request validation *)

(** C6 — A request whose text is missing (or not a string), empty after
    trimming, or longer than 5000 code units after trimming is answered with
    status 400 by the guards that precede the call of the synthesizer: the
    response is fixed before [generateAudioWAV] is reached, whatever the
    host functions are, and it carries no audio bytes. *)
Theorem C6_invalid_text_rejected body :
  text_rejected (body_text body) ->
  exists error,
    POST_checks body = inl (JsonResponse error 400) /\
    forall Math_sin Math_random,
      POST Math_sin Math_random body = JsonResponse error 400 /\
      response_audio (POST Math_sin Math_random body) = None.
Proof.
  intros Hrej.
  assert (H : exists error, POST_checks body = inl (JsonResponse error 400)).
  { unfold POST_checks.
    destruct (body_text body) as [| | | |s|]; try (eexists; reflexivity).
    simpl in Hrej.
    destruct (negb (truthy (JSString s)) || Nat.eqb (length (trim s)) 0) eqn:E1;
      [eexists; reflexivity|].
    apply orb_false_iff in E1 as [_ E1]. apply Nat.eqb_neq in E1.
    destruct Hrej as [He|Hlong]; [rewrite He in E1; exfalso; apply E1; reflexivity|].
    pose proof (trim_length s) as Hl.
    assert (E2 : (5000 <? Z.of_nat (length s)) = true) by (apply Z.ltb_lt; lia).
    rewrite E2. eexists; reflexivity. }
  destruct H as [error H]. exists error. split; [exact H|].
  intros Math_sin Math_random. unfold POST. rewrite H. split; reflexivity.
Qed.

Lemma C6_witness :
  exists error,
    POST_checks (mkBody (JSString (lit "   ")) None None None None)
    = inl (JsonResponse error 400) /\
    forall Math_sin Math_random,
      POST Math_sin Math_random (mkBody (JSString (lit "   ")) None None None None)
      = JsonResponse error 400 /\
      response_audio
        (POST Math_sin Math_random (mkBody (JSString (lit "   ")) None None None None))
      = None.
Proof.
  apply (C6_invalid_text_rejected (mkBody (JSString (lit "   ")) None None None None)).
  simpl. left. reflexivity.
Defined.

(** ** Byte-level lemmas for the [DataView] *)

Lemma in_bounds_spec view off n :
  in_bounds view off n = true <-> 0 <= off /\ off + n <= Z.of_nat (length view).
Proof. unfold in_bounds. rewrite andb_true_iff, Z.leb_le, Z.leb_le. tauto. Qed.

Lemma le_bytes_length n : forall v, length (le_bytes n v) = n.
Proof. induction n as [|n IH]; intros v; simpl; [reflexivity|]. rewrite IH. reflexivity. Qed.

Lemma le_value_le_bytes n : forall v,
  le_value (le_bytes n v) = v mod 256 ^ Z.of_nat n.
Proof.
  induction n as [|n IH]; intros v.
  - simpl. rewrite Z.mod_1_r. reflexivity.
  - cbn [le_bytes le_value]. rewrite IH.
    rewrite Nat2Z.inj_succ, Z.pow_succ_r by lia.
    rewrite Z.rem_mul_r by lia. reflexivity.
Qed.

Lemma list_inserts_within {A} (k : list A) : forall i (l1 l2 : list A),
  (i + length k <= length l1)%nat ->
  list_inserts i k (l1 ++ l2) = list_inserts i k l1 ++ l2.
Proof.
  induction k as [|y k IH]; intros i l1 l2 H; simpl in *; [reflexivity|].
  rewrite IH by lia.
  rewrite insert_app_l; [reflexivity|]. rewrite length_inserts. lia.
Qed.

(** A write that fits in a prefix of the buffer only touches that prefix. *)
Lemma set_bytes_app_l l1 l2 off n v le l1' :
  set_bytes l1 off n v le = Some l1' ->
  set_bytes (l1 ++ l2) off n v le = Some (l1' ++ l2).
Proof.
  unfold set_bytes. destruct (in_bounds l1 off (Z.of_nat n)) eqn:E; [|discriminate].
  intros [= <-]. apply in_bounds_spec in E as [E1 E2].
  assert (E' : in_bounds (l1 ++ l2) off (Z.of_nat n) = true).
  { apply in_bounds_spec. rewrite length_app. lia. }
  rewrite E'. f_equal. apply list_inserts_within.
  unfold to_bytes. destruct le; rewrite ?length_rev, le_bytes_length; lia.
Qed.

Lemma writeString_app_l l2 str : forall l1 off l1',
  writeString l1 off str = Some l1' ->
  writeString (l1 ++ l2) off str = Some (l1' ++ l2).
Proof.
  induction str as [|c str IH]; intros l1 off l1'; simpl.
  - intros [= <-]. reflexivity.
  - unfold setUint8. destruct (set_bytes l1 off 1 c true) as [m|] eqn:E;
      [|discriminate].
    simpl. intros H. rewrite (set_bytes_app_l _ l2 _ _ _ _ _ E). simpl.
    apply IH, H.
Qed.

(** A little-endian write at the end of a prefix replaces the bytes that
    follow it. *)
Lemma set_bytes_boundary pre rest n v :
  (n <= length rest)%nat ->
  set_bytes (pre ++ rest) (Z.of_nat (length pre)) n v true
  = Some (pre ++ le_bytes n v ++ drop n rest).
Proof.
  intros Hn. unfold set_bytes.
  assert (E : in_bounds (pre ++ rest) (Z.of_nat (length pre)) (Z.of_nat n) = true).
  { apply in_bounds_spec. rewrite length_app. lia. }
  rewrite E, Nat2Z.id. f_equal. unfold to_bytes.
  rewrite <- (Nat.add_0_r (length pre)) at 1.
  rewrite list_inserts_app_r.
  rewrite <- (take_drop n rest) at 1.
  rewrite list_inserts_0_r; [reflexivity|].
  rewrite le_bytes_length, length_take. lia.
Qed.

Lemma get_bytes_boundary pre bs post :
  get_bytes (pre ++ bs ++ post) (Z.of_nat (length pre)) (length bs) true
  = Some (le_value bs).
Proof.
  unfold get_bytes.
  assert (E : in_bounds (pre ++ bs ++ post) (Z.of_nat (length pre))
                (Z.of_nat (length bs)) = true).
  { apply in_bounds_spec. rewrite !length_app. lia. }
  rewrite E, Nat2Z.id, drop_app_length, take_app_length. reflexivity.
Qed.

Lemma get_bytes_app_l l1 l2 off n le :
  0 <= off -> off + Z.of_nat n <= Z.of_nat (length l1) ->
  get_bytes (l1 ++ l2) off n le = get_bytes l1 off n le.
Proof.
  intros H0 H1. unfold get_bytes.
  assert (E1 : in_bounds l1 off (Z.of_nat n) = true) by (apply in_bounds_spec; lia).
  assert (E2 : in_bounds (l1 ++ l2) off (Z.of_nat n) = true).
  { apply in_bounds_spec. rewrite length_app. lia. }
  rewrite E1, E2. do 2 f_equal.
  assert (Hd : drop (Z.to_nat off) (l1 ++ l2) = drop (Z.to_nat off) l1 ++ l2).
  { rewrite drop_app_le by lia. reflexivity. }
  rewrite Hd, take_app_le; [reflexivity|]. rewrite length_drop. lia.
Qed.

Lemma encode_samples_cons v l :
  encode_samples (v :: l) = le_bytes 2 v ++ encode_samples l.
Proof. reflexivity. Qed.

Lemma encode_samples_length l :
  length (encode_samples l) = (2 * length l)%nat.
Proof.
  induction l as [|v l IH]; [reflexivity|].
  rewrite encode_samples_cons, length_app, le_bytes_length, IH. simpl. lia.
Qed.

(** Reading back the [k]-th 16-bit word behind a prefix. *)
Lemma get_bytes_encoded l : forall pre k,
  get_bytes (pre ++ encode_samples l)
            (Z.of_nat (length pre) + 2 * Z.of_nat k) 2 true
  = (fun v => v mod 65536) <$> l !! k
    \/ l !! k = None.
Proof.
  induction l as [|v l IH]; intros pre k; [right; destruct k; reflexivity|].
  destruct k as [|k].
  - left. rewrite encode_samples_cons, Z.add_0_r.
    change 2%nat with (length (le_bytes 2 v)) at 1.
    rewrite get_bytes_boundary, le_value_le_bytes. reflexivity.
  - rewrite encode_samples_cons, app_assoc.
    specialize (IH (pre ++ le_bytes 2 v) k).
    rewrite length_app in IH. simpl length in IH.
    replace (Z.of_nat (length pre) + 2 * Z.of_nat (S k))
      with (Z.of_nat (length pre + 2) + 2 * Z.of_nat k) by lia.
    exact IH.
Qed.

Lemma signed_of_unsigned v :
  -32768 <= v <= 32767 ->
  (let u := v mod 65536 in if u <? 32768 then u else u - 65536) = v.
Proof.
  intros H. cbv zeta.
  destruct (Z.ltb_spec (v mod 65536) 32768) as [Hlt|Hge].
  - destruct (Z_lt_le_dec v 0) as [Hneg|Hpos].
    + rewrite <- (Z_mod_plus_full v 1 65536) in Hlt |- *.
      rewrite Z.mod_small in Hlt |- * by lia. lia.
    + apply Z.mod_small. lia.
  - destruct (Z_lt_le_dec v 0) as [Hneg|Hpos].
    + rewrite <- (Z_mod_plus_full v 1 65536).
      rewrite Z.mod_small by lia. lia.
    + rewrite Z.mod_small in Hge by lia. lia.
Qed.

Lemma getInt16_encoded l pre k v :
  l !! k = Some v -> -32768 <= v <= 32767 ->
  getInt16 (pre ++ encode_samples l)
           (Z.of_nat (length pre) + 2 * Z.of_nat k) true = Some v.
Proof.
  intros Hk Hv. unfold getInt16.
  destruct (get_bytes_encoded l pre k) as [H|H]; [|congruence].
  rewrite H, Hk. simpl. f_equal. apply (signed_of_unsigned v Hv).
Qed.

(** ** The header and the sample loop *)

Lemma write_header_small text settings :
  write_header text settings (replicate 44 0) = Some (wav_header text settings).
Proof.
  unfold write_header, wav_header.
  generalize (fileSize text settings - 8), (dataSize text settings).
  intros a b. reflexivity.
Qed.

Lemma wav_header_length text settings : length (wav_header text settings) = 44%nat.
Proof. reflexivity. Qed.

Ltac header_step H :=
  match type of H with
  | (?m ≫= _) = Some _ =>
      let E := fresh "E" in
      destruct m eqn:E; [|discriminate H]; cbn [mbind option_bind] in H;
      first [ rewrite (writeString_app_l _ _ _ _ _ E)
            | rewrite (set_bytes_app_l _ _ _ _ _ _ _ E) ];
      cbn [mbind option_bind]
  end.

Lemma write_header_app text settings l1 l2 h :
  write_header text settings l1 = Some h ->
  write_header text settings (l1 ++ l2) = Some (h ++ l2).
Proof.
  unfold write_header, setUint32, setUint16. intros H.
  do 12 header_step H.
  apply set_bytes_app_l, H.
Qed.

Section Loop.

Variable Math_sin : Q -> Q.
Variable Math_random : nat -> Q.
Variable text : jsstring.
Variable settings : AudioSettings.

Lemma samples_length n : forall i d, length (samples Math_sin Math_random text settings n i d) = n.
Proof. induction n as [|n IH]; intros i d; simpl; [reflexivity|]. rewrite IH. reflexivity. Qed.

Lemma samples_lookup n : forall i d (k : nat),
  (k < n)%nat ->
  samples Math_sin Math_random text settings n i d !! k
  = Some (default 0 (intSample Math_sin Math_random text settings
                       (i + Z.of_nat k) (draws_from Math_sin Math_random text settings k i d))).
Proof.
  induction n as [|n IH]; intros i d k Hk; [lia|].
  destruct k as [|k]; cbn [samples draws_from lookup list_lookup].
  - change (Z.of_nat 0) with 0. rewrite Z.add_0_r. reflexivity.
  - rewrite IH by lia. do 3 f_equal. lia.
Qed.

(** The loop writes the quantised samples one after the other behind what
    is already there, and never fails when the room left is what it needs. *)
Lemma loop_spec n : forall i pre rest d,
  Z.of_nat (length pre) = 44 + i * 2 ->
  length rest = (2 * n)%nat ->
  loop Math_sin Math_random text settings n i (mkLoop (pre ++ rest) d)
  = Some (mkLoop (pre ++ encode_samples (samples Math_sin Math_random text settings n i d)) (draws_from Math_sin Math_random text settings n i d)).
Proof.
  induction n as [|n IH]; intros i pre rest d Hpre Hrest.
  - destruct rest; [|discriminate]. reflexivity.
  - cbn [loop samples draws_from]. unfold loop_body at 1, setInt16. cbn [view draws].
    rewrite <- Hpre, set_bytes_boundary by lia. cbn [mbind option_bind].
    rewrite app_assoc.
    rewrite IH.
    + rewrite encode_samples_cons, <- app_assoc. reflexivity.
    + rewrite length_app, le_bytes_length. lia.
    + rewrite length_drop. lia.
Qed.

Lemma numSamples_nonneg : 0 <= numSamples text settings.
Proof.
  unfold numSamples, sampleRate.
  pose proof (duration_ge_2 text settings) as Hz. revert Hz.
  generalize (duration text settings). intros z Hz. lia.
Qed.

Lemma fileSize_eq : fileSize text settings = 44 + 2 * numSamples text settings.
Proof.
  unfold fileSize, dataSize, numChannels, bitsPerSample.
  change (16 / 8) with 2. lia.
Qed.

(** The synthesizer always returns: the header followed by the samples. *)
Lemma synthesize_spec :
  synthesize Math_sin Math_random text settings
  = Some (mkLoop
            (wav_header text settings
             ++ encode_samples
                  (samples Math_sin Math_random text settings (Z.to_nat (numSamples text settings)) 0 0))
            (draws_from Math_sin Math_random text settings (Z.to_nat (numSamples text settings)) 0 0)).
Proof.
  unfold synthesize. cbv zeta.
  pose proof numSamples_nonneg as Hn.
  assert (Hsplit : replicate (Z.to_nat (fileSize text settings)) 0
                   = replicate 44 0
                     ++ replicate (2 * Z.to_nat (numSamples text settings)) 0).
  { rewrite <- replicate_add. f_equal. rewrite fileSize_eq. lia. }
  rewrite Hsplit.
  rewrite (write_header_app _ _ _ _ _ (write_header_small text settings)).
  cbn [mbind option_bind].
  apply loop_spec.
  - rewrite wav_header_length. lia.
  - apply length_replicate.
Qed.

Lemma generateAudioWAV_spec :
  generateAudioWAV Math_sin Math_random text settings
  = Some (wav_header text settings
          ++ encode_samples
               (samples Math_sin Math_random text settings (Z.to_nat (numSamples text settings)) 0 0)).
Proof. unfold generateAudioWAV. rewrite synthesize_spec. reflexivity. Qed.

End Loop.

(** ** Container sizes *)

Lemma header_chunk_size text settings :
  get_bytes (wav_header text settings) 4 4 true
  = Some ((fileSize text settings - 8) mod 2 ^ 32).
Proof.
  unfold wav_header.
  generalize (fileSize text settings - 8), (dataSize text settings). intros a b.
  change 4 with (Z.of_nat (length (lit "RIFF"))) at 1.
  change 4%nat with (length (le_bytes 4 a)) at 1.
  rewrite get_bytes_boundary, le_value_le_bytes. reflexivity.
Qed.

Lemma header_subchunk2_size text settings :
  get_bytes (wav_header text settings) 40 4 true
  = Some (dataSize text settings mod 2 ^ 32).
Proof.
  unfold wav_header.
  generalize (fileSize text settings - 8), (dataSize text settings). intros a b.
  rewrite <- (app_nil_r (le_bytes 4 b)).
  rewrite !app_assoc. rewrite <- (app_assoc _ (le_bytes 4 b) []).
  match goal with
  | |- get_bytes (?pre ++ _ ++ []) _ _ _ = _ =>
      change 40 with (Z.of_nat (length pre)) at 1
  end.
  change 4%nat with (length (le_bytes 4 b)) at 1.
  rewrite get_bytes_boundary, le_value_le_bytes. reflexivity.
Qed.

Lemma sample_buffer_length Math_sin Math_random text settings :
  Z.of_nat (length (sample_buffer Math_sin Math_random text settings))
  = numSamples text settings.
Proof.
  unfold sample_buffer. rewrite samples_length.
  pose proof (numSamples_nonneg text settings). lia.
Qed.

Lemma container_length Math_sin Math_random text settings :
  Z.of_nat (length (wav_header text settings
                    ++ encode_samples
                         (sample_buffer Math_sin Math_random text settings)))
  = 44 + 2 * numSamples text settings.
Proof.
  rewrite length_app, wav_header_length, encode_samples_length.
  pose proof (sample_buffer_length Math_sin Math_random text settings). lia.
Qed.

Lemma fileSize_fits_u32 text settings :
  valid_request text settings ->
  0 <= fileSize text settings - 8 < 2 ^ 32 /\
  0 <= dataSize text settings < 2 ^ 32.
Proof.
  intros Hv. pose proof (duration_le text settings Hv) as Hle.
  pose proof (duration_ge_2 text settings) as Hge.
  unfold fileSize, dataSize, numSamples, sampleRate, numChannels, bitsPerSample.
  change (16 / 8) with 2. change (2 ^ 32) with 4294967296.
  revert Hle Hge. generalize (duration text settings). intros z Hle Hge. lia.
Qed.

(** C1 — For every valid request the encoder returns a container made of a
    header of exactly 44 bytes followed by the encoded samples; the
    little-endian u32 at offset 4 is the byte length of the whole container
    minus 8 and the u32 at offset 40 is twice the number of samples
    actually emitted. *)
Theorem C1_header_sizes Math_sin Math_random text settings :
  valid_request text settings ->
  exists header data,
    generateAudioWAV Math_sin Math_random text settings = Some (header ++ data) /\
    header = wav_header text settings /\
    length header = 44%nat /\
    data = encode_samples (sample_buffer Math_sin Math_random text settings) /\
    getUint32 (header ++ data) 4 true
    = Some (Z.of_nat (length (header ++ data)) - 8) /\
    getUint32 (header ++ data) 40 true
    = Some (Z.of_nat (length (sample_buffer Math_sin Math_random text settings)) * 2).
Proof.
  intros Hv.
  exists (wav_header text settings),
         (encode_samples (sample_buffer Math_sin Math_random text settings)).
  destruct (fileSize_fits_u32 text settings Hv) as [Hfs Hds].
  split; [apply generateAudioWAV_spec|].
  split; [reflexivity|]. split; [reflexivity|]. split; [reflexivity|].
  unfold getUint32. split.
  - rewrite get_bytes_app_l by (rewrite ?wav_header_length; lia).
    rewrite header_chunk_size, container_length, Z.mod_small by exact Hfs.
    f_equal. rewrite fileSize_eq. lia.
  - rewrite get_bytes_app_l by (rewrite ?wav_header_length; lia).
    rewrite header_subchunk2_size, sample_buffer_length, Z.mod_small by exact Hds.
    f_equal. unfold dataSize, numChannels, bitsPerSample.
    change (16 / 8) with 2. lia.
Qed.

Ltac valid_by_computation :=
  unfold valid_request; repeat split; vm_compute; discriminate.

Lemma hello_world_valid : valid_request hello_world neutral.
Proof. valid_by_computation. Qed.

Lemma C1_witness :
  exists header data,
    generateAudioWAV clip_sin quarter_random hello_world neutral
    = Some (header ++ data) /\
    header = wav_header hello_world neutral /\
    length header = 44%nat /\
    data = encode_samples (sample_buffer clip_sin quarter_random hello_world neutral) /\
    getUint32 (header ++ data) 4 true
    = Some (Z.of_nat (length (header ++ data)) - 8) /\
    getUint32 (header ++ data) 40 true
    = Some (Z.of_nat (length (sample_buffer clip_sin quarter_random
                                hello_world neutral)) * 2).
Proof.
  apply (C1_header_sizes clip_sin quarter_random hello_world neutral).
  valid_by_computation.
Defined.

(** C3 — For every valid request the sample buffer holds exactly
    [44100 * duration] samples and the returned container is exactly
    [44 + 2 * (44100 * duration)] bytes long; for the text [Hello world]
    with rate, pitch and volume 1 that is a duration of 2 seconds, 88200
    samples and a container of 176444 bytes. *)
Theorem C3_buffer_sizes Math_sin Math_random text settings :
  valid_request text settings ->
  (exists container,
     generateAudioWAV Math_sin Math_random text settings = Some container /\
     Z.of_nat (length (sample_buffer Math_sin Math_random text settings))
     = 44100 * duration text settings /\
     Z.of_nat (length container) = 44 + 2 * (44100 * duration text settings))
  /\
  (duration hello_world neutral = 2 /\
   Z.of_nat (length (sample_buffer Math_sin Math_random hello_world neutral))
   = 88200 /\
   exists container,
     generateAudioWAV Math_sin Math_random hello_world neutral = Some container /\
     Z.of_nat (length container) = 176444).
Proof.
  intros _.
  assert (Hgen : forall t s,
    exists container,
      generateAudioWAV Math_sin Math_random t s = Some container /\
      Z.of_nat (length (sample_buffer Math_sin Math_random t s))
      = 44100 * duration t s /\
      Z.of_nat (length container) = 44 + 2 * (44100 * duration t s)).
  { intros t s. eexists. split; [apply generateAudioWAV_spec|].
    fold (sample_buffer Math_sin Math_random t s).
    rewrite container_length, sample_buffer_length.
    unfold numSamples, sampleRate. split; reflexivity. }
  split; [apply Hgen|].
  split; [exact hello_duration|].
  destruct (Hgen hello_world neutral) as (container & Hc & Hs & Hl).
  rewrite hello_duration in Hs, Hl.
  split; [exact Hs|]. exists container. split; [exact Hc|exact Hl].
Qed.

Lemma C3_witness :
  exists container,
    generateAudioWAV clip_sin quarter_random
      (lit "The quick brown fox") (mkSettings 0.5 2 1 None) = Some container /\
    Z.of_nat (length (sample_buffer clip_sin quarter_random
                        (lit "The quick brown fox") (mkSettings 0.5 2 1 None)))
    = 44100 * duration (lit "The quick brown fox") (mkSettings 0.5 2 1 None) /\
    Z.of_nat (length container)
    = 44 + 2 * (44100 * duration (lit "The quick brown fox")
                                 (mkSettings 0.5 2 1 None)).
Proof.
  apply (C3_buffer_sizes clip_sin quarter_random
           (lit "The quick brown fox") (mkSettings 0.5 2 1 None)).
  valid_by_computation.
Defined.

(** ** The character behind a sample *)

Lemma inject_Z_nonneg (z : Z) : 0 <= z -> (0 <= inject_Z z)%Q.
Proof. intros H. change 0%Q with (inject_Z 0). rewrite <- Zle_Qle. exact H. Qed.

Lemma charIndex_nonneg text settings (i : Z) :
  0 <= i -> 0 <= charIndex text settings i.
Proof.
  intros Hi. unfold charIndex, progress, Math_floor.
  change 0 with (Qfloor 0). apply Qfloor_resp_le.
  apply rounding_nonneg, Qmult_le_0_compat; [|apply inject_Z_nonneg; lia].
  apply rounding_nonneg. unfold Qdiv.
  apply Qmult_le_0_compat; [apply inject_Z_nonneg, Hi|].
  apply Qinv_le_0_compat, inject_Z_nonneg, numSamples_nonneg.
Qed.

(** A sample whose index falls on a character of the text reads that
    character. *)
Lemma char_of_lookup text settings (i : Z) (c : Z) :
  0 <= i ->
  text !! Z.to_nat (charIndex text settings i) = Some c ->
  char text settings i = [c].
Proof.
  intros Hi Hc. pose proof (charIndex_nonneg text settings i Hi) as H0.
  pose proof (lookup_lt_Some _ _ _ Hc) as Hlt.
  unfold char, charAt.
  assert (E : (0 <=? charIndex text settings i)
              && (charIndex text settings i <? Z.of_nat (length text)) = true).
  { apply andb_true_iff. split; [apply Z.leb_le|apply Z.ltb_lt]; lia. }
  rewrite E, Hc. reflexivity.
Qed.

(** What [charAt] returns is a character of the text, or the empty string
    when the index is out of range. *)
Lemma char_cases text settings (i : Z) :
  char text settings i = [] \/
  exists c, char text settings i = [c] /\ c ∈ text.
Proof.
  unfold char, charAt.
  destruct ((0 <=? charIndex text settings i)
            && (charIndex text settings i <? Z.of_nat (length text)));
    [|left; reflexivity].
  destruct (text !! Z.to_nat (charIndex text settings i)) as [c|] eqn:E;
    [right|left; reflexivity].
  exists c. split; [reflexivity|]. apply list_elem_of_lookup. eauto.
Qed.

Section CharacterMapping.

Variable text : jsstring.
Variable settings : AudioSettings.
Variable i : Z.
Hypothesis request_valid : valid_request text settings.
Hypothesis i_range : 0 <= i < numSamples text settings.

(** The quotient [i / numSamples] is below 1 by at least one part in
    853,555,500, far more than the two roundings can add: the index
    computed from it stays inside the text. *)
Lemma charIndex_range :
  0 <= charIndex text settings i < Z.of_nat (length text).
Proof.
  split; [apply charIndex_nonneg; lia|].
  pose proof (duration_le text settings request_valid) as Hd.
  pose proof (duration_ge_2 text settings) as Hd2.
  destruct request_valid as (Ht & Hlen & _).
  pose proof (trim_nonempty text Ht) as Hl.
  unfold charIndex, progress, Math_floor.
  set (L := Z.of_nat (length text)) in *.
  set (n := numSamples text settings) in *.
  assert (Hn : 88200 <= n <= 853555500).
  { unfold n, numSamples, sampleRate. lia. }
  destruct (inject_Z_range 88200 n 853555500 Hn) as [Hn1 Hn2].
  destruct (inject_Z_range 0 i (n - 1) ltac:(lia)) as [Hi1 Hi2].
  destruct (inject_Z_range 1 L 5000 ltac:(lia)) as [HL1 HL2].
  unfold Z.sub in Hi2. rewrite inject_Z_plus in Hi2.
  change (inject_Z 88200) with 88200%Q in Hn1.
  change (inject_Z 853555500) with 853555500%Q in Hn2.
  change (inject_Z 0) with 0%Q in Hi1. change (inject_Z (- (1))) with (-1 # 1)%Q in Hi2.
  change (inject_Z 1) with 1%Q in HL1. change (inject_Z 5000) with 5000%Q in HL2.
  assert (Hq : (0 <= inject_Z i / inject_Z n <= 1 - (1 # 853555500))%Q).
  { split.
    - apply Qle_shift_div_l; lra.
    - apply Qle_shift_div_r; lra. }
  pose proof (rounding_error (inject_Z i / inject_Z n) (proj1 Hq)) as [_ Hp].
  pose proof (rounding_nonneg (inject_Z i / inject_Z n) (proj1 Hq)) as Hp0.
  unfold Double.unit_roundoff in *.
  set (p := Double.round (inject_Z i / inject_Z n)) in *.
  set (q := (inject_Z i / inject_Z n)%Q) in *. clearbody p q.
  assert (Hy0 : (0 <= p * inject_Z L)%Q) by nra.
  pose proof (rounding_error (p * inject_Z L) Hy0) as [_ Hy].
  unfold Double.unit_roundoff in *.
  rewrite Zlt_Qlt.
  apply Qle_lt_trans with (Double.round (p * inject_Z L)); [apply Qfloor_le|].
  set (y := Double.round (p * inject_Z L)) in *. clearbody y.
  set (l := inject_Z L) in *. clearbody l.
  assert (Hpl : (p * l <= (1 - (1 # 853555500)) * (1 + (1 # 9007199254740992)) * l)%Q)
    by nra.
  set (pl := (p * l)%Q) in *. clearbody pl. lra.
Qed.

Lemma char_lookup :
  exists c, text !! Z.to_nat (charIndex text settings i) = Some c /\
            char text settings i = [c].
Proof.
  pose proof charIndex_range as [H0 H1].
  destruct (lookup_lt_is_Some_2 text (Z.to_nat (charIndex text settings i)))
    as [c Hc]; [lia|].
  exists c. split; [exact Hc|].
  apply char_of_lookup; [lia|exact Hc].
Qed.

Lemma baseCharFreq_defined c :
  char text settings i = [c] ->
  baseCharFreq text settings i = Some (baseFreq + inject_Z (Z.rem c 300))%Q.
Proof. unfold baseCharFreq, charCode. intros ->. reflexivity. Qed.

(** A sample of a valid request is never [NaN]. *)
Lemma sample_defined Math_sin Math_random d :
  exists s, sample Math_sin Math_random text settings i d = Some s.
Proof.
  destruct char_lookup as (c & _ & Hchar).
  unfold sample, waveform.
  rewrite (baseCharFreq_defined c Hchar).
  destruct (str_eqb _ _); [eexists; reflexivity|].
  destruct (isVowel _ _ _); eexists; reflexivity.
Qed.

End CharacterMapping.

(** The quotient is rounded before it is multiplied: in the text
    [b_space_xs] of 49 code units, sample 1800 of 88200 lies exactly at the
    start of the second character, [1800 / 88200 * 49 = 1], but the rounded
    quotient times 49 comes out just below 1 and the code reads the first
    character. *)
Example charIndex_below_exact_position :
  numSamples b_space_xs neutral = 88200 /\
  (inject_Z 1800 / inject_Z 88200 * inject_Z 49 == 1)%Q /\
  charIndex b_space_xs neutral 1800 = 0 /\
  char b_space_xs neutral 1800 = lit "b".
Proof. vm_compute. repeat split; reflexivity. Qed.

(** ** Envelope *)

Section Envelope.

Variable text : jsstring.
Variable settings : AudioSettings.

Lemma duration_Q_ge_2 : (2 <= inject_Z (duration text settings))%Q.
Proof.
  change 2%Q with (inject_Z 2). rewrite <- Zle_Qle. apply duration_ge_2.
Qed.

(** The duration is at least 2 seconds, so the fade always lasts 100 ms. *)
Lemma fadeTime_value : (fadeTime text settings == 0.1)%Q.
Proof.
  unfold fadeTime, Math_min. apply Q.min_l.
  pose proof duration_Q_ge_2. lra.
Qed.

Lemma div_fadeTime (x : Q) : (x / fadeTime text settings == x * 10)%Q.
Proof. rewrite fadeTime_value. field. Qed.

Lemma time_eq (i : Z) : (time i == inject_Z i * (1 # 44100))%Q.
Proof. unfold time, sampleRate. field. Qed.

Lemma time_range (i : Z) :
  0 <= i < numSamples text settings ->
  (0 <= time i /\ time i + (1 # 44100) <= inject_Z (duration text settings))%Q.
Proof.
  intros [H0 H1]. rewrite time_eq.
  assert (Hi0 : (0 <= inject_Z i)%Q)
    by (change 0%Q with (inject_Z 0); rewrite <- Zle_Qle; lia).
  assert (Hi1 : (inject_Z i + 1 <= 44100 * inject_Z (duration text settings))%Q).
  { change 1%Q with (inject_Z 1). change 44100%Q with (inject_Z 44100).
    rewrite <- inject_Z_plus, <- inject_Z_mult, <- Zle_Qle.
    unfold numSamples, sampleRate in H1. lia. }
  split; lra.
Qed.

(** The three pieces of the envelope, as the code selects them. *)
Lemma envelope_fade_in (i : Z) :
  (time i < fadeTime text settings)%Q ->
  envelope text settings i = (time i / fadeTime text settings)%Q.
Proof.
  intros H. unfold envelope.
  destruct (Qlt_le_dec (time i) (fadeTime text settings)) as [_|Hge];
    [reflexivity|].
  exfalso. apply (Qlt_not_le _ _ H Hge).
Qed.

Lemma envelope_middle (i : Z) :
  (fadeTime text settings <= time i)%Q ->
  (time i <= inject_Z (duration text settings) - fadeTime text settings)%Q ->
  envelope text settings i = 1%Q.
Proof.
  intros H1 H2. unfold envelope.
  destruct (Qlt_le_dec (time i) (fadeTime text settings)) as [Hlt|_].
  - exfalso. apply (Qlt_not_le _ _ Hlt H1).
  - destruct (Qlt_le_dec _ (time i)) as [Hlt|_]; [|reflexivity].
    exfalso. apply (Qlt_not_le _ _ Hlt H2).
Qed.

Lemma envelope_fade_out (i : Z) :
  (inject_Z (duration text settings) - fadeTime text settings < time i)%Q ->
  envelope text settings i
  = ((inject_Z (duration text settings) - time i) / fadeTime text settings)%Q.
Proof.
  intros H. unfold envelope.
  destruct (Qlt_le_dec (time i) (fadeTime text settings)) as [Hlt|_].
  - exfalso. pose proof fadeTime_value. pose proof duration_Q_ge_2. lra.
  - destruct (Qlt_le_dec _ (time i)) as [_|Hge]; [reflexivity|].
    exfalso. apply (Qlt_not_le _ _ H Hge).
Qed.

Lemma envelope_range (i : Z) :
  0 <= i < numSamples text settings ->
  (0 <= envelope text settings i <= 1)%Q.
Proof.
  intros Hi. destruct (time_range i Hi) as [Ht0 Ht1].
  pose proof fadeTime_value as Hf. unfold envelope.
  destruct (Qlt_le_dec (time i) (fadeTime text settings)) as [Hlt|Hge].
  - rewrite div_fadeTime. lra.
  - destruct (Qlt_le_dec _ (time i)) as [Hlt|_]; [|lra].
    rewrite div_fadeTime. lra.
Qed.

Lemma envelope_at_zero : (envelope text settings 0 == 0)%Q.
Proof.
  rewrite envelope_fade_in.
  - rewrite div_fadeTime, time_eq. reflexivity.
  - rewrite fadeTime_value, time_eq. reflexivity.
Qed.

(** One sample step before the end the envelope has come down to 1/4410. *)
Lemma envelope_at_last :
  (envelope text settings (numSamples text settings - 1) == 1 # 4410)%Q.
Proof.
  assert (Ht : (time (numSamples text settings - 1)
                == inject_Z (duration text settings) - (1 # 44100))%Q).
  { rewrite time_eq. unfold numSamples, sampleRate, Z.sub.
    rewrite inject_Z_plus, inject_Z_mult. change (inject_Z (- (1))) with (-1 # 1).
    change (inject_Z 44100) with 44100%Q. field. }
  rewrite envelope_fade_out.
  - rewrite div_fadeTime, Ht. field.
  - rewrite fadeTime_value, Ht. lra.
Qed.

Lemma envelope_increasing (i j : Z) :
  0 <= i < j -> (time j < fadeTime text settings)%Q ->
  (envelope text settings i < envelope text settings j)%Q.
Proof.
  intros [H0 Hij] Hj.
  assert (Hq : (inject_Z i < inject_Z j)%Q) by (rewrite <- Zlt_Qlt; exact Hij).
  assert (Hi : (time i < fadeTime text settings)%Q).
  { rewrite time_eq in *. lra. }
  rewrite (envelope_fade_in i Hi), (envelope_fade_in j Hj).
  rewrite !div_fadeTime, !time_eq. lra.
Qed.

Lemma envelope_decreasing (i j : Z) :
  i < j ->
  (inject_Z (duration text settings) - fadeTime text settings < time i)%Q ->
  (envelope text settings j < envelope text settings i)%Q.
Proof.
  intros Hij Hi.
  assert (Hq : (inject_Z i < inject_Z j)%Q) by (rewrite <- Zlt_Qlt; exact Hij).
  assert (Hj : (inject_Z (duration text settings) - fadeTime text settings
                < time j)%Q).
  { rewrite time_eq in *. lra. }
  rewrite (envelope_fade_out i Hi), (envelope_fade_out j Hj).
  rewrite !div_fadeTime, !time_eq. lra.
Qed.

End Envelope.

(** ** Amplitude *)

Lemma round_monotone (lo s hi : Q) :
  (lo <= s <= hi)%Q ->
  Math_round (lo * 32767) <= Math_round (s * 32767) <= Math_round (hi * 32767).
Proof.
  intros [H1 H2]. unfold Math_round. split; apply Qfloor_resp_le; lra.
Qed.

(** Below 0.84 of full scale the clamp of the quantiser is the identity. *)
Lemma quantize_unclamped (s : Q) :
  (-0.84 <= s <= 0.84)%Q ->
  quantize s = Math_round (s * 32767) /\ -27525 <= quantize s <= 27525.
Proof.
  intros H. pose proof (round_monotone _ _ _ H) as [H1 H2].
  change (Math_round (-0.84 * 32767)) with (-27524) in H1.
  change (Math_round (0.84 * 32767)) with 27524 in H2.
  unfold quantize. lia.
Qed.

Lemma quantize_range (s : Q) : -32768 <= quantize s <= 32767.
Proof. unfold quantize. lia. Qed.

Lemma quantize_zero (s : Q) : (s == 0)%Q -> quantize s = 0.
Proof.
  intros H. unfold quantize, Math_round.
  assert (E : (s * 32767 + 0.5 == 0.5)%Q) by (rewrite H; reflexivity).
  rewrite (Qfloor_comp _ _ E). reflexivity.
Qed.

Section Amplitude.

Variable Math_sin : Q -> Q.
Variable Math_random : nat -> Q.
Variable text : jsstring.
Variable settings : AudioSettings.

Hypothesis sin_range : forall x, (-1 <= Math_sin x <= 1)%Q.
Hypothesis random_range : forall k, (0 <= Math_random k < 1)%Q.
Hypothesis request_valid : valid_request text settings.

Lemma valid_text_nonempty : text <> [].
Proof.
  destruct request_valid as [Ht _]. intros ->. apply Ht. reflexivity.
Qed.

(** Harmonic weights 0.6 + 0.3 + 0.1 and 0.7 plus noise within 0.15: the
    waveform stays within [-1, 1]. *)
Lemma waveform_bound (i : Z) (d : nat) :
  0 <= i < numSamples text settings ->
  exists w, (waveform Math_sin Math_random text settings i d).1 = Some w /\
            (-1 <= w <= 1)%Q.
Proof.
  intros Hi.
  destruct (char_lookup text settings i request_valid Hi) as (c & _ & Hchar).
  unfold waveform. rewrite (baseCharFreq_defined text settings i c Hchar).
  destruct (str_eqb _ _); [exists 0%Q; split; [reflexivity|lra]|].
  destruct (isVowel _ _ _); cbn [fst fmap option_fmap option_map];
    eexists; (split; [reflexivity|]); cbv zeta.
  - match goal with
    | |- (_ <= Math_sin ?a * _ + Math_sin ?b * _ + Math_sin ?c * _ <= _)%Q =>
        pose proof (sin_range a); pose proof (sin_range b);
        pose proof (sin_range c);
        generalize dependent (Math_sin a); intros x1 ?;
        generalize dependent (Math_sin b); intros x2 ?;
        generalize dependent (Math_sin c); intros x3 ?
    end. lra.
  - match goal with
    | |- (_ <= Math_sin ?a * _ + _ <= _)%Q =>
        pose proof (sin_range a); pose proof (random_range d);
        generalize dependent (Math_sin a); intros x1 ?;
        generalize dependent (Math_random d); intros r ?
    end. lra.
Qed.

(** Worst case: waveform 1.0, rate modulation 2.8, volume 1, headroom 0.3,
    all of it scaled by the envelope. *)
Lemma sample_bound (i : Z) (d : nat) :
  0 <= i < numSamples text settings ->
  exists s, sample Math_sin Math_random text settings i d = Some s /\
            (- (0.84 * envelope text settings i) <= s
             <= 0.84 * envelope text settings i)%Q.
Proof.
  intros Hi. destruct (waveform_bound i d Hi) as (w & Hw & Hw1).
  destruct request_valid as (_ & _ & [Hr1 Hr2] & _ & [Hv1 Hv2]).
  pose proof (envelope_range text settings i Hi) as [He0 He1].
  unfold sample. rewrite Hw. eexists. split; [reflexivity|].
  unfold rateModulation.
  generalize dependent (envelope text settings i). intros e He0 He1.
  generalize dependent (rate settings). intros r Hr1 Hr2.
  generalize dependent (volume settings). intros v Hv1 Hv2.
  assert (Hm : (0 <= 1 + (r - 1) * 0.2 <= 2.8)%Q) by lra.
  generalize dependent (1 + (r - 1) * 0.2)%Q. intros m Hm.
  assert (Ha : (- 2.8 <= w * m <= 2.8)%Q) by nra.
  generalize dependent (w * m)%Q. intros a Ha.
  assert (Hb : (0 <= v * e <= e)%Q) by nra.
  generalize dependent (v * e)%Q. intros b Hb.
  nra.
Qed.

Lemma sample_bound_084 (i : Z) (d : nat) :
  0 <= i < numSamples text settings ->
  exists s, sample Math_sin Math_random text settings i d = Some s /\
            (-0.84 <= s <= 0.84)%Q.
Proof.
  intros Hi. destruct (sample_bound i d Hi) as (s & Hs & Hb).
  pose proof (envelope_range text settings i Hi) as [He0 He1].
  exists s. split; [exact Hs|]. lra.
Qed.

End Amplitude.

(** ** Emitted samples *)

(** The 16-bit word at [44 + i * 2] of the container is the quantised
    sample of index [i]. *)
Lemma emitted_sample Math_sin Math_random text settings (i : Z) :
  valid_request text settings -> 0 <= i < numSamples text settings ->
  exists s container,
    sample Math_sin Math_random text settings i
      (draws_before Math_sin Math_random text settings i) = Some s /\
    generateAudioWAV Math_sin Math_random text settings = Some container /\
    getInt16 container (44 + i * 2) true = Some (quantize s).
Proof.
  intros Hne Hi.
  destruct (sample_defined text settings i Hne Hi Math_sin Math_random
              (draws_before Math_sin Math_random text settings i)) as [s Hs].
  exists s. eexists. split; [exact Hs|].
  split; [apply generateAudioWAV_spec|].
  replace (44 + i * 2)
    with (Z.of_nat (length (wav_header text settings))
          + 2 * Z.of_nat (Z.to_nat i))
    by (rewrite wav_header_length; lia).
  apply getInt16_encoded; [|apply quantize_range].
  rewrite samples_lookup by lia.
  rewrite Z.add_0_l, Z2Nat.id by lia.
  fold (draws_before Math_sin Math_random text settings i).
  unfold intSample. rewrite Hs. reflexivity.
Qed.

(** Every 16-bit word of the data chunk reads back as the quantised sample
    of its index ([NaN] samples read back as 0). *)
Lemma emitted_lookup Math_sin Math_random text settings (i : Z) :
  0 <= i < numSamples text settings ->
  getInt16 (wav_header text settings
            ++ encode_samples (sample_buffer Math_sin Math_random text settings))
           (44 + i * 2) true
  = Some (default 0 (intSample Math_sin Math_random text settings i
                       (draws_before Math_sin Math_random text settings i))).
Proof.
  intros Hi.
  replace (44 + i * 2)
    with (Z.of_nat (length (wav_header text settings))
          + 2 * Z.of_nat (Z.to_nat i))
    by (rewrite wav_header_length; lia).
  apply getInt16_encoded.
  - unfold sample_buffer. rewrite samples_lookup by lia.
    rewrite Z.add_0_l, Z2Nat.id by lia. reflexivity.
  - unfold intSample.
    destruct (sample Math_sin Math_random text settings i _) as [s|];
      cbn [fmap option_fmap option_map default]; [apply quantize_range|lia].
Qed.

(** A sample that reads a space or a vowel is the same under any two
    random sources and draw counters. *)
Lemma intSample_no_random Math_sin (r1 r2 : nat -> Q) text settings
    (i : Z) (d1 d2 : nat) (c : Z) :
  char text settings i = [c] -> In c (lit " aeiouAEIOU") ->
  intSample Math_sin r1 text settings i d1
  = intSample Math_sin r2 text settings i d2.
Proof.
  intros Hchar Hin. unfold intSample, sample, waveform, isVowel.
  rewrite Hchar. vm_compute in Hin.
  destruct Hin as [<-|Hin]; [reflexivity|].
  assert (Hsp : str_eqb [c] (lit " ") = false)
    by (repeat (destruct Hin as [<-|Hin]; [reflexivity|]); contradiction).
  assert (Hvw : includes (lit "aeiouAEIOU") [c] = true)
    by (repeat (destruct Hin as [<-|Hin]; [reflexivity|]); contradiction).
  rewrite Hsp, Hvw. reflexivity.
Qed.

(** C4 — For every valid request and every sample index the emitted
    16-bit value is [round(sample * 32767)] clamped to [-32768, 32767], so it
    lies in that interval and is never wrapped; the statement holds for all
    parameters in range, rate = 10, pitch = 2, volume = 1 included. *)
Theorem C4_emitted_in_int16_range Math_sin Math_random text settings (i : Z) :
  valid_request text settings ->
  0 <= i < numSamples text settings ->
  exists s container,
    sample Math_sin Math_random text settings i
      (draws_before Math_sin Math_random text settings i) = Some s /\
    generateAudioWAV Math_sin Math_random text settings = Some container /\
    getInt16 container (44 + i * 2) true
    = Some (Z.max (-32768) (Z.min 32767 (Math_round (s * 32767)%Q))) /\
    -32768 <= Z.max (-32768) (Z.min 32767 (Math_round (s * 32767)%Q)) <= 32767.
Proof.
  intros Hv Hi.
  destruct (emitted_sample Math_sin Math_random text settings i Hv Hi)
    as (s & container & Hs & Hc & Hg).
  exists s, container. split; [exact Hs|]. split; [exact Hc|].
  split; [exact Hg|]. lia.
Qed.

Lemma C4_witness :
  exists s container,
    sample clip_sin quarter_random hello_world extreme 4321
      (draws_before clip_sin quarter_random hello_world extreme 4321) = Some s /\
    generateAudioWAV clip_sin quarter_random hello_world extreme = Some container /\
    getInt16 container (44 + 4321 * 2) true
    = Some (Z.max (-32768) (Z.min 32767 (Math_round (s * 32767)%Q))) /\
    -32768 <= Z.max (-32768) (Z.min 32767 (Math_round (s * 32767)%Q)) <= 32767.
Proof.
  apply (C4_emitted_in_int16_range clip_sin quarter_random hello_world extreme 4321).
  - valid_by_computation.
  - vm_compute. split; [discriminate|reflexivity].
Defined.

(** ** Silence on spaces *)

Lemma waveform_space Math_sin Math_random text settings (i : Z) (d : nat) :
  char text settings i = lit " " ->
  waveform Math_sin Math_random text settings i d = (Some 0%Q, d).
Proof. unfold waveform. intros ->. reflexivity. Qed.

Lemma tab_text_valid : valid_request tab_text neutral.
Proof. valid_by_computation. Qed.


(** The same sample under any host whose sine vanishes at 0: it is the noise
    term alone, which is 0 only when the draw is exactly one half. *)
Lemma tab_sample_any_host (Math_sin : Q -> Q) (Math_random : nat -> Q) :
  (forall x, x == 0 -> Math_sin x == 0)%Q ->
  exists w,
    (waveform Math_sin Math_random tab_text neutral 0 0).1 = Some w /\
    (w == (Math_random O - 0.5) * 0.3)%Q.
Proof.
  intros Hsin. unfold waveform.
  assert (Hchar : char tab_text neutral 0 = [9]) by reflexivity.
  rewrite (baseCharFreq_defined tab_text neutral 0 9 Hchar).
  unfold isVowel. rewrite Hchar.
  change (str_eqb [9] (lit " ")) with false.
  change (includes (lit "aeiouAEIOU") [9]) with false.
  cbn [fst fmap option_fmap option_map]. eexists. split; [reflexivity|].
  cbv zeta. rewrite Hsin; [ring|].
  unfold time. change (inject_Z 0 / inject_Z sampleRate)%Q with (0 # 44100)%Q.
  ring_simplify. reflexivity.
Qed.

(** The position has to be taken as the code computes it.  In the valid
    text [b_space_xs] sample 1800 lies, in exact arithmetic, on position 1,
    a space; the code reads position 0, the consonant [b], draws a random
    number for it and writes a sample that is not 0. *)
Example exact_position_on_space_is_not_silent :
  valid_request b_space_xs neutral /\
  b_space_xs !! Z.to_nat (Qfloor (inject_Z 1800 / inject_Z 88200 * inject_Z 49))
  = Some 32 /\
  b_space_xs !! Z.to_nat (charIndex b_space_xs neutral 1800) = Some 98 /\
  (waveform clip_sin quarter_random b_space_xs neutral 1800 1800).2 = 1801%nat /\
  intSample clip_sin quarter_random b_space_xs neutral 1800 1800 = Some 2508.
Proof.
  split; [valid_by_computation|]. vm_compute. repeat split; reflexivity.
Qed.



(** ** Determinism on vowels *)

Section Vowels.

Variable Math_sin : Q -> Q.
Variable text : jsstring.
Variable settings : AudioSettings.
Hypothesis text_vowels : vowel_only text.

(** On a vowel-only text the branch taken neither reads nor advances the
    random source; neither does it when [charAt] returns the empty string,
    which [includes] finds in every string. *)
Lemma waveform_vowel (r1 r2 : nat -> Q) (i : Z) (d : nat) :
  waveform Math_sin r1 text settings i d = waveform Math_sin r2 text settings i d
  /\ (waveform Math_sin r1 text settings i d).2 = d.
Proof.
  unfold waveform, isVowel.
  destruct (char_cases text settings i) as [->|(c & -> & Hc)];
    [split; reflexivity|].
  assert (Hin : In c (lit "aeiouAEIOU")).
  { unfold vowel_only in text_vowels.
    rewrite List.Forall_forall in text_vowels. apply text_vowels.
    apply list_elem_of_In, Hc. }
  assert (Hsp : str_eqb [c] (lit " ") = false).
  { vm_compute in Hin.
    repeat (destruct Hin as [<-|Hin]; [reflexivity|]). contradiction. }
  assert (Hvw : includes (lit "aeiouAEIOU") [c] = true).
  { vm_compute in Hin.
    repeat (destruct Hin as [<-|Hin]; [reflexivity|]). contradiction. }
  rewrite Hsp, Hvw. split; reflexivity.
Qed.

Lemma samples_vowel (r1 r2 : nat -> Q) (n : nat) : forall (i : Z) (d : nat),
  samples Math_sin r1 text settings n i d = samples Math_sin r2 text settings n i d
  /\ draws_from Math_sin r1 text settings n i d = d.
Proof.
  induction n as [|n IH]; intros i d; [split; reflexivity|].
  cbn [samples draws_from].
  destruct (waveform_vowel r1 r2 i d) as [Hw Hd].
  unfold intSample, sample. rewrite <- Hw, Hd.
  destruct (IH (i + 1) d) as [IHs IHd].
  rewrite IHs, IHd. split; reflexivity.
Qed.

End Vowels.

(** C8 — For any fixed non-empty vowel-only text and fixed rate, pitch and
    volume, two runs of the synthesizer under different random sources
    return the same container, sample for sample: the vowel branch draws no
    random number, so the output is a function of the inputs alone. *)
Theorem C8_vowel_text_deterministic
    (Math_sin : Q -> Q) (random1 random2 : nat -> Q) text settings :
  vowel_only text -> text <> [] ->
  sample_buffer Math_sin random1 text settings
  = sample_buffer Math_sin random2 text settings /\
  generateAudioWAV Math_sin random1 text settings
  = generateAudioWAV Math_sin random2 text settings /\
  (exists container,
     generateAudioWAV Math_sin random1 text settings = Some container) /\
  draws <$> synthesize Math_sin random1 text settings = Some O.
Proof.
  intros Hv _.
  destruct (samples_vowel Math_sin text settings Hv random1 random2
              (Z.to_nat (numSamples text settings)) 0 O) as [Hs Hd].
  split; [exact Hs|].
  rewrite !generateAudioWAV_spec, synthesize_spec, Hs, Hd.
  split; [reflexivity|]. split; [eexists; reflexivity|reflexivity].
Qed.

Lemma C8_witness :
  sample_buffer clip_sin quarter_random aaaa neutral
  = sample_buffer clip_sin (fun k => (Z.of_nat k # 1000)%Q) aaaa neutral.
Proof.
  refine (proj1 (C8_vowel_text_deterministic clip_sin quarter_random
                   (fun k => (Z.of_nat k # 1000)%Q) aaaa neutral _ _)).
  - unfold vowel_only, aaaa. vm_compute. repeat constructor.
  - discriminate.
Defined.

(** ** Headroom and envelope of the emitted samples *)

Lemma clip_sin_range (x : Q) : (-1 <= clip_sin x <= 1)%Q.
Proof.
  unfold clip_sin. split.
  - apply Q.le_max_l.
  - apply Q.max_lub; [discriminate|apply Q.le_min_l].
Qed.

Lemma quarter_random_range (k : nat) : (0 <= quarter_random k < 1)%Q.
Proof. unfold quarter_random. split; [discriminate|reflexivity]. Qed.

(** C10 — For every valid request (rate at most 10, pitch at most 2,
    volume at most 1) the sample before quantisation never exceeds 0.84 in
    magnitude (waveform 1.0, rate modulation 2.8, headroom 0.3, volume 1),
    so the clamp of the quantiser never alters a value: each emitted sample
    is [round(sample * 32767)] itself and lies within 27525 of zero. *)
Theorem C10_headroom_makes_clamp_idle
    Math_sin Math_random text settings (i : Z) :
  (forall x, (-1 <= Math_sin x <= 1)%Q) ->
  (forall k, (0 <= Math_random k < 1)%Q) ->
  valid_request text settings ->
  0 <= i < numSamples text settings ->
  exists s container,
    sample Math_sin Math_random text settings i
      (draws_before Math_sin Math_random text settings i) = Some s /\
    (-0.84 <= s <= 0.84)%Q /\
    Z.max (-32768) (Z.min 32767 (Math_round (s * 32767)%Q))
    = Math_round (s * 32767)%Q /\
    generateAudioWAV Math_sin Math_random text settings = Some container /\
    getInt16 container (44 + i * 2) true = Some (Math_round (s * 32767)%Q) /\
    -27525 <= Math_round (s * 32767)%Q <= 27525.
Proof.
  intros Hsin Hrand Hv Hi.
  destruct (emitted_sample Math_sin Math_random text settings i Hv Hi)
    as (s & container & Hs & Hc & Hg).
  destruct (sample_bound_084 Math_sin Math_random text settings Hsin Hrand Hv i
              (draws_before Math_sin Math_random text settings i) Hi)
    as (s' & Hs' & Hb).
  assert (s' = s) by congruence. subst s'.
  destruct (quantize_unclamped s Hb) as [Hq Hr].
  exists s, container. rewrite Hq in Hg, Hr.
  split; [exact Hs|]. split; [exact Hb|]. split; [exact Hq|].
  split; [exact Hc|]. split; [exact Hg|exact Hr].
Qed.

Lemma C10_witness :
  exists s container,
    sample clip_sin quarter_random hello_world extreme 30000
      (draws_before clip_sin quarter_random hello_world extreme 30000) = Some s /\
    (-0.84 <= s <= 0.84)%Q /\
    Z.max (-32768) (Z.min 32767 (Math_round (s * 32767)%Q))
    = Math_round (s * 32767)%Q /\
    generateAudioWAV clip_sin quarter_random hello_world extreme = Some container /\
    getInt16 container (44 + 30000 * 2) true = Some (Math_round (s * 32767)%Q) /\
    -27525 <= Math_round (s * 32767)%Q <= 27525.
Proof.
  refine (C10_headroom_makes_clamp_idle clip_sin quarter_random
            hello_world extreme 30000 clip_sin_range quarter_random_range _ _).
  - valid_by_computation.
  - vm_compute. split; [discriminate|reflexivity].
Defined.

Lemma quantize_comp (s s' : Q) : (s == s')%Q -> quantize s = quantize s'.
Proof.
  intros H. unfold quantize, Math_round.
  rewrite (Qfloor_comp (s * 32767 + 0.5) (s' * 32767 + 0.5)); [reflexivity|].
  rewrite H. reflexivity.
Qed.

Lemma a_extreme_valid : valid_request (lit "a") extreme.
Proof. valid_by_computation. Qed.

(** C9, as stated, fails at the end of the buffer: no sample is taken at
    [time = duration]; the sample nearest to it is one step earlier, where
    the envelope is 1/4410, not 0.  For the text [a] at rate 10, pitch 2 and
    volume 1, under a host whose sine returns 1 at the three partials, the
    last of the 88200 samples is written as 6. *)
Lemma C9_last_sample_is_not_zero :
  valid_request (lit "a") extreme /\
  numSamples (lit "a") extreme = 88200 /\
  (envelope (lit "a") extreme 88199 == 1 # 4410)%Q /\
  clip_sin (2 * Math_PI * 594 * time 88199) = 1%Q /\
  exists container,
    generateAudioWAV clip_sin quarter_random (lit "a") extreme = Some container /\
    getInt16 container (44 + 88199 * 2) true = Some 6.
Proof.
  split; [exact a_extreme_valid|].
  split; [vm_compute; reflexivity|].
  split; [vm_compute; reflexivity|].
  split; [vm_compute; reflexivity|].
  eexists. split; [apply generateAudioWAV_spec|].
  fold (sample_buffer clip_sin quarter_random (lit "a") extreme).
  rewrite emitted_lookup by (vm_compute; split; [discriminate|reflexivity]).
  apply (f_equal Some).
  rewrite (intSample_no_random clip_sin quarter_random quarter_random
             (lit "a") extreme 88199 _ O 97);
    [vm_compute; reflexivity|vm_compute; reflexivity|vm_compute; tauto].
Qed.

(** Under any host the last sample of that request is the sum of the three
    partials scaled by [2.8 * 0.3 / 4410] of full scale, about 6.24
    quantisation steps: it is written as 0 only when the partials cancel to
    within 0.08. *)
Lemma last_sample_any_host (Math_sin : Q -> Q) (Math_random : nat -> Q) :
  exists x1 x2 x3 container,
    generateAudioWAV Math_sin Math_random (lit "a") extreme = Some container /\
    getInt16 container (44 + 88199 * 2) true
    = Some (quantize ((Math_sin x1 * 0.6 + Math_sin x2 * 0.3 + Math_sin x3 * 0.1)
                      * (2.8 * 0.3 / 4410))%Q).
Proof.
  do 3 eexists. eexists. split; [apply generateAudioWAV_spec|].
  fold (sample_buffer Math_sin Math_random (lit "a") extreme).
  rewrite emitted_lookup by (vm_compute; split; [discriminate|reflexivity]).
  apply (f_equal Some).
  rewrite (intSample_no_random Math_sin Math_random Math_random
             (lit "a") extreme 88199 _ O 97);
    [|vm_compute; reflexivity|vm_compute; tauto].
  unfold intSample, sample, waveform, isVowel.
  assert (Hchar : char (lit "a") extreme 88199 = [97]) by (vm_compute; reflexivity).
  rewrite (baseCharFreq_defined (lit "a") extreme 88199 97 Hchar), Hchar.
  change (str_eqb [97] (lit " ")) with false.
  change (includes (lit "aeiouAEIOU") [97]) with true.
  cbn [fst fmap option_fmap option_map from_option id]. cbv zeta.
  apply quantize_comp.
  assert (He : (envelope (lit "a") extreme 88199 == 1 # 4410)%Q)
    by (vm_compute; reflexivity).
  rewrite He. unfold rateModulation. cbn [rate volume extreme].
  rewrite <- Qmult_assoc. apply Qmult_comp; [reflexivity|]. field.
Qed.

(** C9 (amended) — For every valid request the envelope is
    [time / fadeTime] before [fadeTime], 1 in the middle and
    [(duration - time) / fadeTime] after [duration - fadeTime], with
    [fadeTime = min(0.1, duration * 0.05)] (which is 0.1).  Consequently the
    sample emitted at time 0 is 0; the last sample, one step before
    [time = duration], carries an envelope of 1/4410 and is at most 6
    quantisation steps away from 0, without having to be 0; and the
    envelope is strictly increasing over the fade-in window and strictly
    decreasing over the fade-out window. *)
Theorem C9_envelope_shape Math_sin Math_random text settings :
  (forall x, (-1 <= Math_sin x <= 1)%Q) ->
  (forall k, (0 <= Math_random k < 1)%Q) ->
  valid_request text settings ->
  let d := inject_Z (duration text settings) in
  let f := fadeTime text settings in
  let last := numSamples text settings - 1 in
  f = Math_min 0.1 (d * 0.05)%Q /\ (f == 0.1)%Q /\
  (forall i, 0 <= i < numSamples text settings ->
     ((time i < f)%Q -> envelope text settings i = (time i / f)%Q) /\
     ((f <= time i)%Q -> (time i <= d - f)%Q -> envelope text settings i = 1%Q) /\
     ((d - f < time i)%Q -> envelope text settings i = ((d - time i) / f)%Q)) /\
  (envelope text settings 0 == 0)%Q /\
  (envelope text settings last == 1 # 4410)%Q /\
  (exists container first_sample last_sample,
     generateAudioWAV Math_sin Math_random text settings = Some container /\
     getInt16 container 44 true = Some first_sample /\ first_sample = 0 /\
     getInt16 container (44 + last * 2) true = Some last_sample /\
     -6 <= last_sample <= 6) /\
  (forall i j, 0 <= i < j -> (time j < f)%Q ->
     (envelope text settings i < envelope text settings j)%Q) /\
  (forall i j, i < j -> (d - f < time i)%Q ->
     (envelope text settings j < envelope text settings i)%Q).
Proof.
  intros Hsin Hrand Hv d f last.
  pose proof (valid_text_nonempty text settings Hv) as Hne.
  pose proof (duration_ge_2 text settings) as Hd.
  assert (Hn : 88200 <= numSamples text settings).
  { unfold numSamples, sampleRate. revert Hd.
    generalize (duration text settings). intros z Hz. lia. }
  split; [reflexivity|]. split; [apply fadeTime_value|].
  split.
  { intros i Hi. split; [apply envelope_fade_in|].
    split; [apply envelope_middle|apply envelope_fade_out]. }
  split; [apply envelope_at_zero|]. split; [apply envelope_at_last|].
  split.
  { assert (H0 : 0 <= 0 < numSamples text settings) by lia.
    assert (Hl : 0 <= last < numSamples text settings) by (unfold last; lia).
    destruct (emitted_sample Math_sin Math_random text settings 0 Hv H0)
      as (s0 & container & Hs0 & Hc & Hg0).
    destruct (emitted_sample Math_sin Math_random text settings last Hv Hl)
      as (s1 & container' & Hs1 & Hc' & Hg1).
    assert (container' = container) by congruence. subst container'.
    destruct (sample_bound Math_sin Math_random text settings Hsin Hrand Hv 0
                (draws_before Math_sin Math_random text settings 0) H0)
      as (s0' & Hs0' & Hb0).
    destruct (sample_bound Math_sin Math_random text settings Hsin Hrand Hv last
                (draws_before Math_sin Math_random text settings last) Hl)
      as (s1' & Hs1' & Hb1).
    assert (s0' = s0) by congruence. assert (s1' = s1) by congruence.
    subst s0' s1'.
    exists container, (quantize s0), (quantize s1).
    split; [exact Hc|]. split; [exact Hg0|].
    split.
    - apply quantize_zero. rewrite envelope_at_zero in Hb0. lra.
    - split; [exact Hg1|].
      unfold last in Hb1. rewrite envelope_at_last in Hb1.
      assert (Hb : ((-(0.84 * (1 # 4410))) <= s1 <= 0.84 * (1 # 4410))%Q)
        by exact Hb1.
      pose proof (round_monotone _ _ _ Hb) as [H1 H2].
      change (Math_round (- (0.84 * (1 # 4410)) * 32767)) with (-6) in H1.
      change (Math_round (0.84 * (1 # 4410) * 32767)) with 6 in H2.
      unfold quantize. lia. }
  split; [apply envelope_increasing|apply envelope_decreasing].
Qed.

Lemma C9_witness :
  (fadeTime hello_world neutral == 0.1)%Q /\
  (envelope hello_world neutral (numSamples hello_world neutral - 1)
   == 1 # 4410)%Q /\
  exists container first_sample last_sample,
    generateAudioWAV clip_sin quarter_random hello_world neutral = Some container /\
    getInt16 container 44 true = Some first_sample /\ first_sample = 0 /\
    getInt16 container (44 + (numSamples hello_world neutral - 1) * 2) true
    = Some last_sample /\
    -6 <= last_sample <= 6.
Proof.
  pose proof (C9_envelope_shape clip_sin quarter_random hello_world neutral
                clip_sin_range quarter_random_range) as H.
  assert (Hv : valid_request hello_world neutral) by valid_by_computation.
  specialize (H Hv). cbv zeta in H.
  destruct H as (_ & Hf & _ & _ & Hlast & Hex & _).
  split; [exact Hf|]. split; [exact Hlast|exact Hex].
Defined.

(** ** The route as a whole *)

(** A request that passes the guards is always answered with audio: the
    synthesizer does not fail, so the 500 branch is not taken. *)
Lemma POST_accepted Math_sin Math_random body text settings :
  POST_checks body = inr (text, settings) ->
  exists container,
    POST Math_sin Math_random body
    = AudioResponse container 200 (Z.of_nat (length container)) /\
    Z.of_nat (length container) = 44 + 2 * numSamples text settings.
Proof.
  intros H. unfold POST. rewrite H, generateAudioWAV_spec.
  eexists. split; [reflexivity|].
  fold (sample_buffer Math_sin Math_random text settings).
  apply container_length.
Qed.

(** The length guard reads the text as received: 4999 letters followed by
    two spaces are turned away although 4999 code units remain after
    trimming. *)
Example length_guard_reads_raw_text :
  let text := replicate 4999 97 ++ [32; 32] in
  length (trim text) = 4999%nat /\
  POST_checks (mkBody (JSString text) None None None None)
  = inl (JsonResponse "Text must be less than 5000 characters" 400).
Proof. vm_compute. split; reflexivity. Qed.

Example header_hello_world :
  wav_header hello_world neutral
  = [82; 73; 70; 70; 52; 177; 2; 0; 87; 65; 86; 69; 102; 109; 116; 32;
     16; 0; 0; 0; 1; 0; 1; 0; 68; 172; 0; 0; 136; 88; 1; 0; 2; 0; 16; 0;
     100; 97; 116; 97; 16; 177; 2; 0].
Proof. vm_compute. reflexivity. Qed.

Example setInt16_negative : setInt16 [0; 0; 0; 0] 2 (-2) true = Some [0; 0; 254; 255].
Proof. reflexivity. Qed.

Example getInt16_negative : getInt16 [0; 0; 254; 255] 2 true = Some (-2).
Proof. reflexivity. Qed.

Example setInt16_out_of_range : setInt16 [0; 0; 0; 0] 3 (-2) true = None.
Proof. reflexivity. Qed.

(** * Further properties of the code *)

(** ** [POST]: status codes *)




(** A rate that is not a number is answered 500, a pitch that is not a
    number with silence; a body that is a bare number has no text. *)
Example POST_request_examples :
  response_status
    (POST_request clip_sin quarter_random
       (JSONBody (JSString (lit "hi")) NotANumber Absent Absent None)) = 500 /\
  response_status
    (POST_request clip_sin quarter_random
       (JSONBody (JSString (lit "   ")) NotANumber Absent Absent None)) = 400 /\
  response_status
    (POST_request clip_sin quarter_random
       (JSONBody JSUndefined Absent Absent Absent None)) = 400 /\
  response_status (POST_request clip_sin quarter_random JSONNull) = 500.
Proof. repeat split; reflexivity. Qed.

Example POST_boundary_5000 :
  POST_checks (mkBody (JSString (replicate (Z.to_nat 5000) 97)) None None None None)
  = inr (replicate (Z.to_nat 5000) 97, mkSettings 1 1 1 None) /\
  POST_checks (mkBody (JSString (replicate (Z.to_nat 5001) 97)) None None None None)
  = inl (JsonResponse "Text must be less than 5000 characters" 400).
Proof. vm_compute. split; reflexivity. Qed.

(** ** The format fields of the container *)

Lemma wav_header_fields text settings :
  tag_at (wav_header text settings) 0 = lit "RIFF" /\
  tag_at (wav_header text settings) 8 = lit "WAVE" /\
  tag_at (wav_header text settings) 12 = lit "fmt " /\
  tag_at (wav_header text settings) 36 = lit "data" /\
  getUint32 (wav_header text settings) 16 true = Some 16 /\
  getUint16 (wav_header text settings) 20 true = Some 1 /\
  getUint16 (wav_header text settings) 22 true = Some 1 /\
  getUint32 (wav_header text settings) 24 true = Some 44100 /\
  getUint32 (wav_header text settings) 28 true = Some 88200 /\
  getUint16 (wav_header text settings) 32 true = Some 2 /\
  getUint16 (wav_header text settings) 34 true = Some 16.
Proof.
  unfold wav_header.
  generalize (fileSize text settings - 8), (dataSize text settings). intros a b.
  repeat split; reflexivity.
Qed.

Lemma tag_at_app_l (l1 l2 : list Z) (n : nat) :
  (n + 4 <= length l1)%nat -> tag_at (l1 ++ l2) n = tag_at l1 n.
Proof.
  intros H. unfold tag_at.
  rewrite drop_app_le by lia. rewrite take_app_le; [reflexivity|].
  rewrite length_drop. lia.
Qed.

(** X1 — Whatever the request, the container announces itself as RIFF /
    WAVE with a 16-byte [fmt ] chunk and a [data] chunk, PCM (format 1), one
    channel, 44100 Hz, 16 bits per sample, and its derived fields agree:
    block align is channels times bytes per sample and the byte rate is the
    sample rate times the block align. *)
Theorem X1_container_format Math_sin Math_random text settings :
  exists container channels sampleRate' byteRate blockAlign bits,
    generateAudioWAV Math_sin Math_random text settings = Some container /\
    tag_at container 0 = lit "RIFF" /\
    tag_at container 8 = lit "WAVE" /\
    tag_at container 12 = lit "fmt " /\
    tag_at container 36 = lit "data" /\
    getUint32 container 16 true = Some 16 /\
    getUint16 container 20 true = Some 1 /\
    getUint16 container 22 true = Some channels /\
    getUint32 container 24 true = Some sampleRate' /\
    getUint32 container 28 true = Some byteRate /\
    getUint16 container 32 true = Some blockAlign /\
    getUint16 container 34 true = Some bits /\
    channels = 1 /\ sampleRate' = 44100 /\ bits = 16 /\
    blockAlign = channels * (bits / 8) /\
    byteRate = sampleRate' * blockAlign.
Proof.
  destruct (wav_header_fields text settings)
    as (T0 & T8 & T12 & T36 & F16 & F20 & F22 & F24 & F28 & F32 & F34).
  eexists. exists 1, 44100, 88200, 2, 16.
  split; [apply generateAudioWAV_spec|].
  rewrite !tag_at_app_l by (rewrite wav_header_length; lia).
  unfold getUint32, getUint16 in *.
  rewrite !get_bytes_app_l by (rewrite ?wav_header_length; simpl; lia).
  repeat (split; [assumption|]).
  repeat split; reflexivity.
Qed.

(** ** [GET] against [POST] *)



(** ** The largest container *)

(** Words need a separator between them: a text of [n] code units has at
    most [(n + 1) / 2] words. *)
Lemma count_words_bound s : forall inword,
  2 * count_words s inword
  <= Z.of_nat (length s) + (if inword then 0 else 1).
Proof.
  induction s as [|c s IH]; intros inword; simpl count_words.
  - destruct inword; simpl; lia.
  - destruct (is_whitespace c).
    + specialize (IH false). cbn [length]. destruct inword; lia.
    + specialize (IH true). cbn [length]. destruct inword; lia.
Qed.

Lemma wordCount_half text : 2 * wordCount text <= Z.of_nat (length text) + 1.
Proof.
  rewrite wordCount_count_words. apply (count_words_bound text false).
Qed.

Lemma duration_le_tight text settings :
  valid_request text settings -> duration text settings <= 9678.
Proof.
  intros (_ & Hlen & [Hr1 _] & _).
  pose proof (wordCount_half text) as Hh.
  pose proof (duration_le_words text settings 2500 ltac:(lia) Hr1) as H.
  assert (E : Z.max 2 (Math_ceil
                (Double.round
                   (Double.round (inject_Z 2500 / Double.round (155 * 0.1)) * 60))%Q)
              = 9678) by (vm_compute; reflexivity).
  rewrite E in H. exact H.
Qed.

(** X3 — A valid request never synthesises more than 9678 seconds of
    audio, so its container never exceeds 853,599,644 bytes; the bound is
    reached by 2500 one-letter words at rate 0.1. *)
Theorem X3_largest_container Math_sin Math_random text settings :
  valid_request text settings ->
  duration text settings <= 9678 /\
  (exists container,
     generateAudioWAV Math_sin Math_random text settings = Some container /\
     Z.of_nat (length container) <= 853599644) /\
  valid_request densest_text slowest /\
  duration densest_text slowest = 9678 /\
  fileSize densest_text slowest = 853599644.
Proof.
  intros Hv. pose proof (duration_le_tight text settings Hv) as Hd.
  split; [exact Hd|]. split.
  - eexists. split; [apply generateAudioWAV_spec|].
    fold (sample_buffer Math_sin Math_random text settings).
    rewrite container_length. unfold numSamples, sampleRate.
    revert Hd. generalize (duration text settings). intros z Hz. lia.
  - split; [valid_by_computation|]. split; vm_compute; reflexivity.
Qed.

Lemma X3_witness : duration hello_world neutral <= 9678.
Proof.
  refine (proj1 (X3_largest_container clip_sin quarter_random
                   hello_world neutral _)).
  valid_by_computation.
Defined.

(** ** Duration against rate and word count *)

(** X4 — Speaking faster never lengthens the audio and more words never
    shorten it: for positive rates, the duration is antitone in the rate and
    monotone in the number of words. *)
Theorem X4_duration_monotone text1 text2 settings1 settings2 :
  wordCount text1 <= wordCount text2 ->
  (0 < rate settings2 <= rate settings1)%Q ->
  duration text1 settings1 <= duration text2 settings2.
Proof.
  intros Hw Hr. unfold duration, baseDuration, Math_ceil, Math_max, wordsPerMinute.
  apply Qceiling_resp_le, Q.max_le_compat_l, rounded_seconds_monotone; [|exact Hr].
  apply (inject_Z_range 0). pose proof (wordCount_nonneg text1). lia.
Qed.

Lemma X4_witness :
  duration (lit "one two three") (mkSettings 2 1 1 None)
  <= duration (lit "one two three four") (mkSettings 0.5 1 1 None).
Proof.
  apply (X4_duration_monotone (lit "one two three") (lit "one two three four")
           (mkSettings 2 1 1 None) (mkSettings 0.5 1 1 None)).
  - vm_compute. discriminate.
  - split; vm_compute; [reflexivity|discriminate].
Defined.

(** ** Silence *)

Lemma intSample_mute Math_sin Math_random text settings (i : Z) (d : nat) :
  (volume settings == 0)%Q ->
  default 0 (intSample Math_sin Math_random text settings i d) = 0.
Proof.
  intros Hv. unfold intSample, sample.
  destruct (waveform Math_sin Math_random text settings i d).1 as [w|];
    cbn [fmap option_fmap option_map default]; [|reflexivity].
  apply quantize_zero. rewrite Hv. ring.
Qed.

Lemma samples_mute Math_sin Math_random text settings (n : nat) :
  (volume settings == 0)%Q ->
  forall i d, samples Math_sin Math_random text settings n i d = replicate n 0.
Proof.
  intros Hv. induction n as [|n IH]; intros i d; [reflexivity|].
  cbn [samples replicate]. rewrite intSample_mute by exact Hv. rewrite IH.
  reflexivity.
Qed.

(** X2 — With the volume at 0 the synthesizer emits digital silence: every
    sample of the buffer is exactly 0 and the container is the header
    followed by zero bytes, whatever the text, rate and pitch. *)
Theorem X2_mute_is_silent Math_sin Math_random text settings :
  (volume settings == 0)%Q ->
  sample_buffer Math_sin Math_random text settings
  = replicate (Z.to_nat (numSamples text settings)) 0 /\
  generateAudioWAV Math_sin Math_random text settings
  = Some (wav_header text settings
          ++ replicate (2 * Z.to_nat (numSamples text settings)) 0).
Proof.
  intros Hv.
  assert (Hs : sample_buffer Math_sin Math_random text settings
               = replicate (Z.to_nat (numSamples text settings)) 0)
    by (apply samples_mute, Hv).
  split; [exact Hs|].
  rewrite generateAudioWAV_spec.
  fold (sample_buffer Math_sin Math_random text settings). rewrite Hs.
  do 2 f_equal.
  generalize (Z.to_nat (numSamples text settings)). intros n.
  induction n as [|n IH]; [reflexivity|].
  cbn [replicate]. rewrite encode_samples_cons, IH.
  replace (2 * S n)%nat with (S (S (2 * n))) by lia. reflexivity.
Qed.

Lemma X2_witness :
  sample_buffer clip_sin quarter_random hello_world (mkSettings 1 1 0 None)
  = replicate (Z.to_nat (numSamples hello_world (mkSettings 1 1 0 None))) 0.
Proof.
  refine (proj1 (X2_mute_is_silent clip_sin quarter_random hello_world
                   (mkSettings 1 1 0 None) _)).
  reflexivity.
Defined.

(** X8 — A sample whose character index, computed as the code computes
    it, falls on a space is written to the file as the 16-bit value 0, at
    every rate, pitch and volume. *)
Theorem X8_space_emits_zero Math_sin Math_random text settings (i : Z) :
  text <> [] ->
  0 <= i < numSamples text settings ->
  text !! Z.to_nat (charIndex text settings i) = Some 32 ->
  exists container,
    generateAudioWAV Math_sin Math_random text settings = Some container /\
    getInt16 container (44 + i * 2) true = Some 0.
Proof.
  intros Hne Hi Hc. eexists. split; [apply generateAudioWAV_spec|].
  fold (sample_buffer Math_sin Math_random text settings).
  rewrite emitted_lookup by exact Hi. f_equal.
  unfold intSample, sample.
  rewrite (waveform_space Math_sin Math_random text settings i _
             (char_of_lookup text settings i 32 (proj1 Hi) Hc)).
  cbn [fst fmap option_fmap option_map default].
  apply quantize_zero. ring.
Qed.

Lemma X8_witness :
  exists container,
    generateAudioWAV clip_sin quarter_random (lit "a ") extreme = Some container /\
    getInt16 container (44 + 60000 * 2) true = Some 0.
Proof.
  apply (X8_space_emits_zero clip_sin quarter_random (lit "a ") extreme 60000).
  - discriminate.
  - vm_compute. split; [discriminate|reflexivity].
  - reflexivity.
Defined.

(** ** Where the random source can be heard *)

(** X9 — The random source is audible on consonants only: a sample whose
    character index, computed as the code computes it, falls on a space or
    on a vowel is written with the same 16-bit value under any two random
    sources, whatever the rest of the text is. *)
Theorem X9_random_only_on_consonants
    Math_sin (random1 random2 : nat -> Q) text settings (i : Z) (c : Z) :
  text <> [] ->
  0 <= i < numSamples text settings ->
  text !! Z.to_nat (charIndex text settings i) = Some c ->
  In c (lit " aeiouAEIOU") ->
  exists container1 container2,
    generateAudioWAV Math_sin random1 text settings = Some container1 /\
    generateAudioWAV Math_sin random2 text settings = Some container2 /\
    getInt16 container1 (44 + i * 2) true
    = getInt16 container2 (44 + i * 2) true.
Proof.
  intros Hne Hi Hc Hin. do 2 eexists.
  split; [apply generateAudioWAV_spec|]. split; [apply generateAudioWAV_spec|].
  fold (sample_buffer Math_sin random1 text settings).
  fold (sample_buffer Math_sin random2 text settings).
  rewrite !emitted_lookup by exact Hi. do 2 f_equal.
  apply (intSample_no_random Math_sin random1 random2 text settings i _ _ c);
    [apply (char_of_lookup text settings i c (proj1 Hi) Hc)|exact Hin].
Qed.

Lemma X9_witness :
  exists container1 container2,
    generateAudioWAV clip_sin quarter_random hello_world neutral = Some container1 /\
    generateAudioWAV clip_sin (fun k => (Z.of_nat k # 1000)%Q) hello_world neutral
    = Some container2 /\
    getInt16 container1 (44 + 9000 * 2) true
    = getInt16 container2 (44 + 9000 * 2) true.
Proof.
  apply (X9_random_only_on_consonants clip_sin quarter_random
           (fun k => (Z.of_nat k # 1000)%Q) hello_world neutral 9000 101).
  - discriminate.
  - vm_compute. split; [discriminate|reflexivity].
  - reflexivity.
  - vm_compute. tauto.
Defined.

(** ** Out-of-range settings *)

(** Clamping returns one of its three arguments, so clamping twice is
    clamping once, on the nose. *)
Lemma clamp_idempotent (lo hi x : Q) :
  Math_max lo (Math_min hi lo) = lo ->
  Math_max lo (Math_min hi hi) = hi ->
  Math_max lo (Math_min hi (Math_max lo (Math_min hi x)))
  = Math_max lo (Math_min hi x).
Proof.
  intros Hlo Hhi.
  assert (H : Math_max lo (Math_min hi x) = lo \/
              Math_max lo (Math_min hi x) = hi \/
              (Math_max lo (Math_min hi x) = x /\ Math_min hi x = x /\
               Math_max lo x = x)).
  { unfold Math_max, Math_min, Qmax, Qmin, GenericMinMax.gmax, GenericMinMax.gmin.
    destruct (hi ?= x)%Q eqn:E1.
    - destruct (lo ?= hi)%Q eqn:E2; auto.
    - destruct (lo ?= hi)%Q eqn:E2; auto.
    - destruct (lo ?= x)%Q eqn:E2; auto. }
  destruct H as [H|[H|(H & H1 & H2)]]; rewrite H.
  - exact Hlo.
  - exact Hhi.
  - rewrite H1. exact H2.
Qed.

(** X6 — Settings outside their range are clamped, not rejected, and
    clamping is idempotent: a request gets exactly the response of the
    request whose rate, pitch and volume were already normalised (absent
    ones replaced by 1). *)
Theorem X6_clamping_is_idempotent Math_sin Math_random body :
  POST_checks (normalised_body body) = POST_checks body /\
  POST Math_sin Math_random (normalised_body body)
  = POST Math_sin Math_random body.
Proof.
  assert (H : POST_checks (normalised_body body) = POST_checks body).
  { unfold POST_checks, normalised_body.
    cbn [body_text body_rate body_pitch body_volume body_voiceName
         from_option id].
    destruct (body_text body) as [| | | |s|]; try reflexivity.
    destruct (negb _ || _); [reflexivity|].
    destruct (5000 <? _); [reflexivity|].
    rewrite !clamp_idempotent by reflexivity. reflexivity. }
  split; [exact H|]. unfold POST. rewrite H. reflexivity.
Qed.

Example out_of_range_settings_clamped :
  POST_checks (mkBody (JSString hello_world) (Some 50%Q) (Some (-1)%Q)
                      (Some 7%Q) None)
  = inr (hello_world, mkSettings 10 0 1 None).
Proof. reflexivity. Qed.

(** ** [TextToSpeechManager]: playback state *)

Lemma manager_step_invariant (st : Manager.State) (e : Manager.Event) :
  (Manager.isPaused st = true -> Manager.isPlaying st = true) ->
  Manager.isPaused (Manager.step st e).1 = true ->
  Manager.isPlaying (Manager.step st e).1 = true.
Proof.
  destruct st as [[|] [|]], e; cbn; intros H; try tauto; try discriminate;
    intros; try reflexivity; auto.
Qed.

Lemma manager_run_app (events : list Manager.Event) : forall st,
  (Manager.isPaused st = true -> Manager.isPlaying st = true) ->
  Manager.isPaused (Manager.run st events).1 = true ->
  Manager.isPlaying (Manager.run st events).1 = true.
Proof.
  induction events as [|e events IH]; intros st Hinv; [exact Hinv|].
  cbn [Manager.run].
  pose proof (manager_step_invariant st e Hinv) as Hstep.
  destruct (Manager.step st e) as [st1 calls1]. cbn [fst] in Hstep.
  specialize (IH st1 Hstep).
  destruct (Manager.run st1 events) as [st2 calls2]. exact IH.
Qed.

(** X10 — Whatever methods are called and whatever callbacks the browser
    fires, in any order, the manager is never paused without playing;
    [getState] therefore reports idle exactly when it is not playing. *)
Theorem X10_manager_paused_implies_playing (events : list Manager.Event) :
  let st := (Manager.run Manager.initial events).1 in
  (Manager.isPaused st = true -> Manager.isPlaying st = true) /\
  Manager.view_isIdle (Manager.getState st) = negb (Manager.isPlaying st).
Proof.
  intros st.
  assert (H : Manager.isPaused st = true -> Manager.isPlaying st = true).
  { apply manager_run_app. discriminate. }
  split; [exact H|].
  unfold Manager.getState. cbn [Manager.view_isIdle].
  destruct (Manager.isPlaying st), (Manager.isPaused st); try reflexivity.
  discriminate (H eq_refl).
Qed.

(** X11 — The synthesizer of the browser is only asked to pause a
    manager that is playing and not paused, and only asked to resume one
    that is paused: a call of [pause] or [resume] in any other state
    changes nothing and reaches the browser not at all; and once paused, a
    call of [resume] restores the state there was before [pause]. *)
Theorem X11_pause_resume (st : Manager.State) :
  (Manager.isPlaying st && negb (Manager.isPaused st) = false ->
   Manager.pause st = (st, [])) /\
  (Manager.isPaused st = false -> Manager.resume st = (st, [])) /\
  (Manager.isPlaying st && negb (Manager.isPaused st) = true ->
   Manager.pause st = (Manager.mkState true true, [Manager.synth_pause]) /\
   Manager.resume (Manager.pause st).1 = (st, [Manager.synth_resume])).
Proof.
  destruct st as [[|] [|]]; cbn; repeat split; intros; try discriminate;
    reflexivity.
Qed.

(** X12 — [createUtterance] never configures a rate, pitch or volume of
    0: a requested value other than 0 is taken as it is, a missing or zero
    one becomes 1.  In particular a volume of 0 is played at volume 1. *)
Theorem X12_utterance_never_zero (options : Manager.TTSOptions) :
  let u := Manager.createUtterance options in
  (~ Manager.utt_rate u == 0 /\ ~ Manager.utt_pitch u == 0 /\
   ~ Manager.utt_volume u == 0)%Q /\
  (forall q, Manager.opt_volume options = Some q ->
     (~ q == 0 -> Manager.utt_volume u = q)%Q /\
     (q == 0 -> Manager.utt_volume u = 1)%Q).
Proof.
  assert (H : forall x, ~ (Manager.or_one x == 0)%Q).
  { intros [q|]; cbn; [|discriminate].
    destruct (Qeq_bool q 0) eqn:E; [discriminate|].
    apply Qeq_bool_neq, E. }
  cbv zeta. unfold Manager.createUtterance. cbn.
  split; [repeat split; apply H|].
  intros q ->. cbn. split.
  - intros Hq. destruct (Qeq_bool q 0) eqn:E; [|reflexivity].
    exfalso. apply Hq, Qeq_bool_eq, E.
  - intros Hq. apply Qeq_eq_bool in Hq. rewrite Hq. reflexivity.
Qed.

(** ** [downloadAudioWithProgress]: the progress reports *)

(** X13 — The progress reported reaches 100 exactly when the download
    promise resolves; on every failure the last value reported is 0 and the
    promise rejects.  The reports before the last one increase strictly, and
    [downloadAudio] is never handed an empty blob, so its own guard never
    produces the error. *)
Theorem X13_progress_reports
    (created : AudioUtils.Outcome (option Z)) (dom : AudioUtils.Outcome unit) :
  let '(reports, outcome) := AudioUtils.downloadAudioWithProgress created dom in
  (outcome = AudioUtils.Resolved tt <-> last reports = Some 100) /\
  (outcome <> AudioUtils.Resolved tt -> last reports = Some 0) /\
  (In 100 reports -> outcome = AudioUtils.Resolved tt) /\
  (exists final, reports = [0; 25] ++ final \/ reports = [0; 25; 75] ++ final
                 \/ reports = [0; 25; 75; 90] ++ final) /\
  (outcome = AudioUtils.Rejected "Invalid audio file - empty or corrupted" ->
   created = AudioUtils.Rejected "Invalid audio file - empty or corrupted" \/
   dom = AudioUtils.Rejected "Invalid audio file - empty or corrupted").
Proof.
  unfold AudioUtils.downloadAudioWithProgress, AudioUtils.downloadAudio.
  destruct created as [blob|error].
  - destruct (AudioUtils.is_empty_blob blob) eqn:E.
    + cbn. split; [split; intros H; discriminate H|].
      split; [intros _; reflexivity|].
      split; [intros H; exfalso; intuition discriminate|].
      split; [eexists; right; left; reflexivity|].
      intros H; discriminate H.
    + destruct dom as [[]|error].
      * cbn. split; [split; intros H; reflexivity|].
        split; [intros H; congruence|].
        split; [intros _; reflexivity|].
        split; [eexists; right; right; reflexivity|].
        intros H; discriminate H.
      * cbn. split; [split; intros H; discriminate H|].
        split; [intros _; reflexivity|].
        split; [intros H; exfalso; intuition discriminate|].
        split; [eexists; right; right; reflexivity|].
        intros H. right. exact H.
  - cbn. split; [split; intros H; discriminate H|].
    split; [intros _; reflexivity|].
    split; [intros H; exfalso; intuition discriminate|].
    split; [eexists; left; reflexivity|].
    intros [= ->]. left. reflexivity.
Qed.

(** ** Trimming twice *)

Lemma trimStart_clean s :
  match trimStart s with
  | [] => True
  | c :: _ => is_whitespace c = false
  end.
Proof.
  induction s as [|c s IH]; simpl; [exact I|].
  destruct (is_whitespace c) eqn:E; [exact IH|exact E].
Qed.

Lemma trimStart_idempotent s : trimStart (trimStart s) = trimStart s.
Proof.
  pose proof (trimStart_clean s) as H.
  destruct (trimStart s) as [|c r]; [reflexivity|].
  apply trimStart_head, H.
Qed.

Lemma trimStart_suffix s : exists w, s = w ++ trimStart s.
Proof.
  induction s as [|c s [w IH]]; simpl; [exists []; reflexivity|].
  destruct (is_whitespace c).
  - exists (c :: w). simpl. f_equal. exact IH.
  - exists []. reflexivity.
Qed.

Lemma trimEnd_prefix s : exists w, s = trimEnd s ++ w.
Proof.
  unfold trimEnd. destruct (trimStart_suffix (rev s)) as [w Hw].
  exists (rev w). rewrite <- rev_app_distr, <- Hw, rev_involutive. reflexivity.
Qed.

Lemma trimEnd_fixed s : trimEnd (trimEnd s) = trimEnd s.
Proof.
  unfold trimEnd. rewrite rev_involutive, trimStart_idempotent. reflexivity.
Qed.

(** [trim] leaves a trimmed text alone. *)
Lemma trim_idempotent s : trim (trim s) = trim s.
Proof.
  assert (Hs : trimStart (trim s) = trim s).
  { unfold trim. pose proof (trimStart_clean s) as Hc.
    destruct (trimEnd_prefix (trimStart s)) as [w Hw].
    destruct (trimEnd (trimStart s)) as [|c r] eqn:E; [reflexivity|].
    rewrite Hw in Hc. simpl in Hc. apply trimStart_head, Hc. }
  unfold trim at 1. rewrite Hs. unfold trim. apply trimEnd_fixed.
Qed.

(** ** The text state of the component *)

Lemma split_go_not_nil s : forall cur inws, split_go s cur inws <> [].
Proof.
  induction s as [|c s IH]; intros cur inws; simpl; [discriminate|].
  destruct (is_whitespace c); [destruct inws; [apply IH|discriminate]|apply IH].
Qed.

Lemma join_cons (sep w : jsstring) (words : list jsstring) :
  words <> [] -> App.join sep (w :: words) = w ++ sep ++ App.join sep words.
Proof. destruct words; [congruence|reflexivity]. Qed.

(** Joining the pieces with single spaces never gives more than the text
    had: every separator was at least one code unit. *)
Lemma join_split_length s : forall cur inws,
  (length (App.join (lit " ") (split_go s cur inws))
   <= length s + length cur)%nat.
Proof.
  induction s as [|c s IH]; intros cur inws; simpl split_go.
  - simpl. rewrite length_rev. lia.
  - destruct (is_whitespace c).
    + destruct inws.
      * specialize (IH cur true). simpl length. lia.
      * rewrite join_cons by apply split_go_not_nil.
        rewrite !length_app, length_rev. specialize (IH [] true).
        simpl in *. lia.
    + specialize (IH (c :: cur) false). simpl in *. lia.
Qed.

Lemma join_take_length (sep : jsstring) (words : list jsstring) : forall k,
  (length (App.join sep (take k words)) <= length (App.join sep words))%nat.
Proof.
  induction words as [|w words IH]; intros k.
  - rewrite take_nil. lia.
  - destruct k as [|k]; [simpl; lia|].
    cbn [take]. specialize (IH k).
    destruct words as [|w' words'].
    + rewrite take_nil. lia.
    + rewrite (join_cons sep w (w' :: words')) by discriminate.
      destruct (take k (w' :: words')) as [|x l] eqn:E.
      * simpl. rewrite length_app. lia.
      * rewrite join_cons by discriminate. rewrite !length_app in *. lia.
Qed.

Lemma keepFirstHalf_length text :
  (length (App.keepFirstHalf text) <= length text)%nat.
Proof.
  unfold App.keepFirstHalf. cbv zeta.
  etransitivity; [apply join_take_length|].
  pose proof (join_split_length text [] false) as H. simpl in H.
  unfold split_ws. lia.
Qed.

Lemma act_within_limit text a :
  Z.of_nat (length text) <= App.MAX_CHARACTER_LIMIT ->
  Z.of_nat (length (App.act text a)) <= App.MAX_CHARACTER_LIMIT.
Proof.
  intros H. destruct a as [value|index| |]; cbn [App.act].
  - unfold App.handleTextChange.
    destruct (Z.leb_spec (Z.of_nat (length value)) App.MAX_CHARACTER_LIMIT);
      [assumption|exact H].
  - do 4 (destruct index as [|index]; [vm_compute; discriminate|]).
    exact H.
  - unfold App.MAX_CHARACTER_LIMIT. simpl. lia.
  - pose proof (keepFirstHalf_length text). lia.
Qed.

(** X14 — Typing, picking a sample text, clearing and [Keep First Half],
    in any order, never leave more than [MAX_CHARACTER_LIMIT] code units in
    the text state; [Keep First Half] in particular never lengthens the
    text.  (The two case-mapping buttons are not among these actions.) *)
Theorem X14_text_state_within_limit (actions : list App.Action) :
  Z.of_nat (length (App.text_after actions)) <= App.MAX_CHARACTER_LIMIT /\
  forall text, (length (App.keepFirstHalf text) <= length text)%nat.
Proof.
  split; [|apply keepFirstHalf_length].
  unfold App.text_after.
  assert (H : forall text,
            Z.of_nat (length text) <= App.MAX_CHARACTER_LIMIT ->
            Z.of_nat (length (fold_left App.act actions text))
            <= App.MAX_CHARACTER_LIMIT).
  { induction actions as [|a actions IH]; intros text Ht; [exact Ht|].
    simpl. apply IH, act_within_limit, Ht. }
  apply H. unfold App.MAX_CHARACTER_LIMIT. simpl. lia.
Qed.

Example keep_first_half_example :
  App.keepFirstHalf (lit "  one two   three four five ")
  = lit " one two three".
Proof. vm_compute. reflexivity. Qed.

(** ** From the component to the route *)

Lemma text_after_within_limit (actions : list App.Action) :
  Z.of_nat (length (App.text_after actions)) <= 5000.
Proof.
  unfold App.text_after.
  assert (H : forall text,
            Z.of_nat (length text) <= App.MAX_CHARACTER_LIMIT ->
            Z.of_nat (length (fold_left App.act actions text))
            <= App.MAX_CHARACTER_LIMIT).
  { induction actions as [|a actions IH]; intros text Ht; [exact Ht|].
    simpl. apply IH, act_within_limit, Ht. }
  apply (H []). unfold App.MAX_CHARACTER_LIMIT. simpl. lia.
Qed.

(** X15 — When the text state is valid for the component (not empty
    after trimming), the request [handleDownload] sends is answered 200,
    with the trimmed text synthesised, exactly when the trimmed text has at
    most 5000 code units, and 400 otherwise, whatever the voice settings
    are.  The text states reached by typing, picking a sample, clearing and
    [Keep First Half] are always within that bound; the case-mapping
    buttons check no length, and a state beyond the bound is turned away. *)
Theorem X15_download_request_status Math_sin Math_random
    (text : jsstring) (voiceSettings : AudioUtils.VoiceSettings) :
  App.isTextValid text = true ->
  (Z.of_nat (length (trim text)) <= 5000 ->
   exists settings,
     POST_checks (App.download_request text voiceSettings)
     = inr (trim text, settings) /\
     response_status
       (POST Math_sin Math_random (App.download_request text voiceSettings))
     = 200) /\
  (5000 < Z.of_nat (length (trim text)) ->
   response_status
     (POST Math_sin Math_random (App.download_request text voiceSettings))
   = 400) /\
  (forall actions : list App.Action,
     Z.of_nat (length (trim (App.text_after actions))) <= 5000).
Proof.
  intros Hvalid.
  unfold App.isTextValid in Hvalid. apply Nat.ltb_lt in Hvalid.
  assert (E1 : Nat.eqb (length (trim text)) 0 = false)
    by (apply Nat.eqb_neq; lia).
  split; [|split].
  - intros Hlen.
    assert (Hchecks : exists settings,
      POST_checks (App.download_request text voiceSettings)
      = inr (trim text, settings)).
    { unfold POST_checks, App.download_request, AudioUtils.request_body.
      cbn [body_text truthy]. rewrite !trim_idempotent.
      rewrite E1. cbn [negb orb].
      assert (E2 : (5000 <? Z.of_nat (length (trim text))) = false)
        by (apply Z.ltb_ge; lia).
      rewrite E2. eexists. reflexivity. }
    destruct Hchecks as [settings Hc]. exists settings. split; [exact Hc|].
    unfold POST. rewrite Hc, generateAudioWAV_spec. reflexivity.
  - intros Hlen. unfold POST, POST_checks, App.download_request,
      AudioUtils.request_body.
    cbn [body_text truthy]. rewrite !trim_idempotent.
    rewrite E1. cbn [negb orb].
    assert (E2 : (5000 <? Z.of_nat (length (trim text))) = true)
      by (apply Z.ltb_lt; lia).
    rewrite E2. reflexivity.
  - intros actions. pose proof (text_after_within_limit actions).
    pose proof (trim_length (App.text_after actions)). lia.
Qed.

Lemma X15_witness :
  exists settings,
    POST_checks
      (App.download_request
         (App.text_after [App.TextChange (lit " hello there  "); App.KeepFirstHalf])
         (AudioUtils.mkVoiceSettings 1 1 1 None))
    = inr (trim (App.text_after
                   [App.TextChange (lit " hello there  "); App.KeepFirstHalf]),
           settings) /\
    response_status
      (POST clip_sin quarter_random
         (App.download_request
            (App.text_after [App.TextChange (lit " hello there  "); App.KeepFirstHalf])
            (AudioUtils.mkVoiceSettings 1 1 1 None))) = 200.
Proof.
  refine (proj1 (X15_download_request_status clip_sin quarter_random
                   (App.text_after
                      [App.TextChange (lit " hello there  "); App.KeepFirstHalf])
                   (AudioUtils.mkVoiceSettings 1 1 1 None) _) _).
  - reflexivity.
  - vm_compute. discriminate.
Defined.

(** A text state of more than 5000 code units, as the UPPERCASE button can
    leave behind (one code unit can map to two), is turned away. *)
Example download_beyond_limit_refused :
  App.isTextValid (replicate (Z.to_nat 5002) 83) = true /\
  POST_checks (App.download_request (replicate (Z.to_nat 5002) 83)
                 (AudioUtils.mkVoiceSettings 1 1 1 None))
  = inl (JsonResponse "Text must be less than 5000 characters" 400).
Proof. vm_compute. split; reflexivity. Qed.

(** ** The case-mapping buttons *)

Lemma handle_within_limit (toUpperCase toLowerCase : jsstring -> jsstring)
    (text : jsstring) (e : App.Event) :
  (forall s, (length (toUpperCase s) <= length s)%nat) ->
  (forall s, (length (toLowerCase s) <= length s)%nat) ->
  Z.of_nat (length text) <= App.MAX_CHARACTER_LIMIT ->
  Z.of_nat (length (App.handle toUpperCase toLowerCase text e))
  <= App.MAX_CHARACTER_LIMIT.
Proof.
  intros Hu Hl H. destruct e as [a| |]; cbn [App.handle].
  - apply act_within_limit, H.
  - specialize (Hu text). lia.
  - specialize (Hl text). lia.
Qed.

Lemma download_refused Math_sin Math_random (text : jsstring)
    (voiceSettings : AudioUtils.VoiceSettings) :
  App.isTextValid text = true ->
  5000 < Z.of_nat (length (trim text)) ->
  response_status
    (POST Math_sin Math_random (App.download_request text voiceSettings))
  = 400.
Proof.
  intros Hvalid Hlen.
  unfold App.isTextValid in Hvalid. apply Nat.ltb_lt in Hvalid.
  unfold POST, POST_checks, App.download_request, AudioUtils.request_body.
  cbn [body_text truthy]. rewrite !trim_idempotent.
  assert (E1 : Nat.eqb (length (trim text)) 0 = false)
    by (apply Nat.eqb_neq; lia).
  rewrite E1. cbn [negb orb].
  assert (E2 : (5000 <? Z.of_nat (length (trim text))) = true)
    by (apply Z.ltb_lt; lia).
  rewrite E2. reflexivity.
Qed.

(** X24 — The buttons UPPERCASE and lowercase set the text without
    checking its length.  As long as the case mappings of the platform
    never lengthen a text, every text state stays within
    [MAX_CHARACTER_LIMIT]; but Unicode's upper-casing lengthens some texts:
    under a [toUpperCase] that maps U+00DF to [SS], typing 2501 times U+00DF
    and pressing UPPERCASE leaves 5002 code units in the text state, which
    the component holds valid and whose download the route answers 400. *)
Theorem X24_case_buttons_unchecked Math_sin Math_random :
  (forall (toUpperCase toLowerCase : jsstring -> jsstring)
          (events : list App.Event),
     (forall s, (length (toUpperCase s) <= length s)%nat) ->
     (forall s, (length (toLowerCase s) <= length s)%nat) ->
     Z.of_nat (length (App.text_after_events toUpperCase toLowerCase events))
     <= App.MAX_CHARACTER_LIMIT) /\
  (let text :=
     App.text_after_events upper_sharp_s (fun s => s)
       [App.Act (App.TextChange (replicate 2501 223)); App.UpperCase] in
   Z.of_nat (length text) = 5002 /\
   App.isTextValid text = true /\
   forall voiceSettings,
     response_status
       (POST Math_sin Math_random (App.download_request text voiceSettings))
     = 400).
Proof.
  split.
  - intros toUpperCase toLowerCase events Hu Hl.
    unfold App.text_after_events.
    assert (H : forall text,
              Z.of_nat (length text) <= App.MAX_CHARACTER_LIMIT ->
              Z.of_nat (length (fold_left (App.handle toUpperCase toLowerCase)
                                          events text))
              <= App.MAX_CHARACTER_LIMIT).
    { induction events as [|e events IH]; intros text Ht; [exact Ht|].
      simpl. apply IH, handle_within_limit; assumption. }
    apply H. unfold App.MAX_CHARACTER_LIMIT. simpl. lia.
  - cbv zeta.
    assert (Hv : App.isTextValid
                   (App.text_after_events upper_sharp_s (fun s => s)
                      [App.Act (App.TextChange (replicate 2501 223));
                       App.UpperCase]) = true) by (vm_compute; reflexivity).
    split; [vm_compute; reflexivity|]. split; [exact Hv|].
    intros voiceSettings. apply download_refused; [exact Hv|].
    vm_compute. reflexivity.
Qed.

(** ** The two tiers on the download path *)

Lemma clamp_in_range (lo hi x : Q) :
  (lo <= x <= hi)%Q -> (Math_max lo (Math_min hi x) == x)%Q.
Proof.
  intros [H1 H2]. unfold Math_max, Math_min.
  rewrite (Q.min_r hi x H2). apply Q.max_r, H1.
Qed.

Lemma duration_rate_ext text settings (r : Q) :
  (rate settings == r)%Q ->
  duration text settings
  = Z.max 2 (Math_ceil
               (Double.round
                  (Double.round (inject_Z (wordCount text)
                                 / Double.round (155 * r)) * 60))%Q).
Proof.
  intros Hr. rewrite duration_max.
  rewrite (rounding_comp (155 * rate settings) (155 * r)); [reflexivity|].
  rewrite Hr. reflexivity.
Qed.

(** X16 — On the download path the fallback tiers agree up to the floor:
    for a valid text state and a rate within [0.1, 10], the duration the
    route synthesises for the request equals the duration of the
    placeholder file the client would build from the same trimmed text,
    raised to 2 seconds. *)
Theorem X16_tiers_agree_on_download_path
    (text : jsstring) (voiceSettings : AudioUtils.VoiceSettings)
    (sent : jsstring) (settings : AudioSettings) :
  App.isTextValid text = true ->
  (0.1 <= AudioUtils.vs_rate voiceSettings <= 10)%Q ->
  POST_checks (App.download_request text voiceSettings) = inr (sent, settings) ->
  sent = trim text /\
  duration sent settings
  = Z.max 2 (Client.duration (trim text) (AudioUtils.vs_rate voiceSettings)).
Proof.
  intros Hvalid Hrate Hc.
  unfold App.isTextValid in Hvalid. apply Nat.ltb_lt in Hvalid.
  assert (Hne : trim text <> []) by (destruct (trim text); [simpl in *; lia|discriminate]).
  unfold POST_checks, App.download_request, AudioUtils.request_body in Hc.
  cbn [body_text body_rate truthy from_option id] in Hc.
  rewrite !trim_idempotent in Hc.
  destruct (negb _ || _); [discriminate|].
  destruct (5000 <? _); [discriminate|].
  injection Hc as <- <-. split; [reflexivity|].
  rewrite (duration_rate_ext (trim text) _ (AudioUtils.vs_rate voiceSettings))
    by (cbn [rate]; apply clamp_in_range, Hrate).
  unfold Client.duration, Client.estimateDuration. cbv zeta.
  rewrite <- (split_trimmed_tokens (trim text) (trim_idempotent text) Hne).
  lia.
Qed.

Lemma X16_witness :
  duration (trim (lit "  Hello world ")) (mkSettings 1 1 1 (Some "default"%string))
  = Z.max 2 (Client.duration (trim (lit "  Hello world ")) 1).
Proof.
  refine (proj2 (X16_tiers_agree_on_download_path (lit "  Hello world ")
            (AudioUtils.mkVoiceSettings 1 1 1 None)
            (trim (lit "  Hello world "))
            (mkSettings 1 1 1 (Some "default"%string)) _ _ _)).
  - reflexivity.
  - split; vm_compute; discriminate.
  - reflexivity.
Defined.

(** ** Tokens against words *)

(** Empty tokens only arise before the first and after the last word. *)
Lemma split_go_empties s : forall cur inws,
  (length (split_go s cur inws)
   <= length (List.filter nonempty (split_go s cur inws))
      + (if inws then 1 else if nonemptyb_of cur then 1 else 2))%nat.
Proof.
  induction s as [|c s IH]; intros cur inws; simpl split_go.
  - simpl. unfold nonempty. rewrite length_rev.
    destruct cur, inws; simpl; lia.
  - destruct (is_whitespace c).
    + destruct inws.
      * specialize (IH cur true). simpl in IH. exact IH.
      * specialize (IH [] true). simpl in *.
        unfold nonempty in *. rewrite length_rev.
        destruct cur; simpl in *; lia.
    + specialize (IH (c :: cur) false). simpl in IH.
      destruct inws; [lia|]. destruct (nonemptyb_of cur); lia.
Qed.

Lemma tokens_between text :
  wordCount text <= Z.of_nat (length (split_ws text)) <= wordCount text + 2.
Proof.
  unfold wordCount, split_ws.
  change (fun word : jsstring => (0 <? length word)%nat) with nonempty.
  pose proof (split_go_empties text [] false) as H. simpl in H.
  pose proof (List.filter_length_le nonempty (split_go text [] false)).
  lia.
Qed.

(** X17 — The client counts every piece of the split, the server only the
    non-empty ones, so the client counts the server's words plus at most 2
    (an empty piece before the first word and one after the last); hence,
    for a positive rate, the server never synthesises more than the client
    estimate raised to the floor of 2 seconds. *)
Theorem X17_client_counts_at_most_two_more text settings :
  (0 < rate settings)%Q ->
  wordCount text <= Z.of_nat (length (split_ws text)) <= wordCount text + 2 /\
  duration text settings <= Z.max 2 (Client.duration text (rate settings)).
Proof.
  intros Hr. pose proof (tokens_between text) as [H1 H2].
  split; [split; assumption|].
  rewrite duration_max. unfold Client.duration, Client.estimateDuration.
  cbv zeta.
  assert (H : Math_ceil
                (Double.round
                   (Double.round (inject_Z (wordCount text)
                                  / Double.round (155 * rate settings)) * 60))%Q
              <= Math_ceil
                   (Double.round
                      (Double.round (inject_Z (Z.of_nat (length (split_ws text)))
                                     / Double.round (155 * rate settings)) * 60))%Q).
  { apply Qceiling_resp_le, rounded_seconds_monotone.
    - apply (inject_Z_range 0). pose proof (wordCount_nonneg text). lia.
    - split; [exact Hr|apply Qle_refl]. }
  lia.
Qed.

Lemma X17_witness :
  duration (lit " a b ") neutral <= Z.max 2 (Client.duration (lit " a b ") (rate neutral)).
Proof.
  refine (proj2 (X17_client_counts_at_most_two_more (lit " a b ") neutral _)).
  reflexivity.
Defined.

(** ** The placeholder file of the client *)

Lemma placeholder_header_small text settings :
  AudioUtils.placeholder_header text settings (replicate 44 0)
  = Some (placeholder_wav_header text (AudioUtils.vs_rate settings)).
Proof.
  unfold AudioUtils.placeholder_header, placeholder_wav_header. cbv zeta.
  generalize (Client.bufferSize text (AudioUtils.vs_rate settings) - 8),
             (Client.numSamples text (AudioUtils.vs_rate settings) * 2).
  intros a b. reflexivity.
Qed.

Lemma placeholder_header_app text settings l1 l2 h :
  AudioUtils.placeholder_header text settings l1 = Some h ->
  AudioUtils.placeholder_header text settings (l1 ++ l2) = Some (h ++ l2).
Proof.
  unfold AudioUtils.placeholder_header, setUint32, setUint16. cbv zeta. intros H.
  do 12 header_step H.
  apply set_bytes_app_l, H.
Qed.

Lemma placeholder_wav_header_length text r :
  length (placeholder_wav_header text r) = 44%nat.
Proof. reflexivity. Qed.

Lemma placeholder_samples_length Math_sin text settings n : forall i,
  length (placeholder_samples Math_sin text settings n i) = n.
Proof. induction n as [|n IH]; intros i; simpl; [reflexivity|]. rewrite IH. reflexivity. Qed.

Lemma placeholder_samples_lookup Math_sin text settings n : forall i (k : nat),
  (k < n)%nat ->
  placeholder_samples Math_sin text settings n i !! k
  = Some (AudioUtils.to_integer
            (AudioUtils.placeholder_sample Math_sin text settings (i + Z.of_nat k))).
Proof.
  induction n as [|n IH]; intros i k Hk; [lia|].
  destruct k as [|k]; simpl.
  - rewrite Z.add_0_r. reflexivity.
  - rewrite IH by lia. do 3 f_equal. lia.
Qed.

Lemma placeholder_loop_spec Math_sin text settings n : forall i pre rest,
  Z.of_nat (length pre) = 44 + i * 2 ->
  length rest = (2 * n)%nat ->
  AudioUtils.placeholder_loop Math_sin text settings n i (pre ++ rest)
  = Some (pre ++ encode_samples (placeholder_samples Math_sin text settings n i)).
Proof.
  induction n as [|n IH]; intros i pre rest Hpre Hrest.
  - destruct rest; [|discriminate]. reflexivity.
  - cbn [AudioUtils.placeholder_loop placeholder_samples]. unfold setInt16.
    rewrite <- Hpre, set_bytes_boundary by lia. cbn [mbind option_bind].
    rewrite app_assoc.
    rewrite IH.
    + rewrite encode_samples_cons, <- app_assoc. reflexivity.
    + rewrite length_app, le_bytes_length. lia.
    + rewrite length_drop. lia.
Qed.

Lemma client_duration_ge_1 text r : 1 <= Client.duration text r.
Proof. unfold Client.duration. lia. Qed.

Lemma createPlaceholderAudioFile_spec Math_sin text settings :
  AudioUtils.createPlaceholderAudioFile Math_sin text settings
  = Some (placeholder_wav_header text (AudioUtils.vs_rate settings)
          ++ encode_samples
               (placeholder_samples Math_sin text settings
                  (Z.to_nat (Client.numSamples text (AudioUtils.vs_rate settings))) 0)).
Proof.
  unfold AudioUtils.createPlaceholderAudioFile. cbv zeta.
  pose proof (client_duration_ge_1 text (AudioUtils.vs_rate settings)) as Hd.
  assert (Hsplit :
    replicate (Z.to_nat (Client.bufferSize text (AudioUtils.vs_rate settings))) 0
    = replicate 44 0
      ++ replicate (2 * Z.to_nat (Client.numSamples text (AudioUtils.vs_rate settings))) 0).
  { rewrite <- replicate_add. f_equal.
    unfold Client.bufferSize, Client.numSamples. revert Hd.
    generalize (Client.duration text (AudioUtils.vs_rate settings)).
    intros z Hz. lia. }
  rewrite Hsplit.
  rewrite (placeholder_header_app _ _ _ _ _ (placeholder_header_small text settings)).
  cbn [mbind option_bind].
  apply placeholder_loop_spec.
  - rewrite placeholder_wav_header_length. lia.
  - apply length_replicate.
Qed.

Lemma client_duration_le text r :
  Z.of_nat (length text) <= 5000 -> (0.1 <= r)%Q ->
  Client.duration text r <= 19363.
Proof.
  intros Hlen Hr. unfold Client.duration, Client.estimateDuration. cbv zeta.
  pose proof (tokens_between text) as [_ Ht].
  pose proof (wordCount_le_length text) as Hw.
  assert (H : Math_ceil
                (Double.round
                   (Double.round (inject_Z (Z.of_nat (length (split_ws text)))
                                  / Double.round (155 * r)) * 60))%Q
              <= Math_ceil
                   (Double.round
                      (Double.round (inject_Z 5002 / Double.round (155 * 0.1)) * 60))%Q).
  { apply Qceiling_resp_le, rounded_seconds_monotone.
    - apply (inject_Z_range 0). lia.
    - split; [reflexivity|exact Hr]. }
  assert (E : Math_ceil
                (Double.round
                   (Double.round (inject_Z 5002 / Double.round (155 * 0.1)) * 60))%Q
              = 19363) by (vm_compute; reflexivity).
  rewrite E in H. lia.
Qed.

(** X18 — The placeholder file is a well-formed container too: for a text
    of at most 5000 code units and a rate of at least 0.1 it is a 44-byte
    header followed by [2 * 44100 * duration] bytes of samples, with
    [duration = max(1, ceil(estimateDuration))]; the u32 at offset 4 is the
    byte length minus 8, the u32 at offset 40 is twice the number of
    samples, and the format fields are those of the server's container
    (44100 Hz, one channel, 16 bits). *)
Theorem X18_placeholder_container Math_sin text settings :
  Z.of_nat (length text) <= 5000 ->
  (0.1 <= AudioUtils.vs_rate settings)%Q ->
  exists container,
    AudioUtils.createPlaceholderAudioFile Math_sin text settings = Some container /\
    Z.of_nat (length container)
    = 44 + 2 * (44100 * Client.duration text (AudioUtils.vs_rate settings)) /\
    1 <= Client.duration text (AudioUtils.vs_rate settings) /\
    getUint32 container 4 true = Some (Z.of_nat (length container) - 8) /\
    getUint32 container 40 true = Some (Z.of_nat (length container) - 44) /\
    getUint32 container 24 true = Some 44100 /\
    getUint16 container 22 true = Some 1 /\
    getUint16 container 34 true = Some 16.
Proof.
  intros Hlen Hr.
  pose proof (client_duration_le text _ Hlen Hr) as Hle.
  pose proof (client_duration_ge_1 text (AudioUtils.vs_rate settings)) as Hge.
  eexists. split; [apply createPlaceholderAudioFile_spec|].
  assert (Hl : Z.of_nat (length
                 (placeholder_wav_header text (AudioUtils.vs_rate settings)
                  ++ encode_samples
                       (placeholder_samples Math_sin text settings
                          (Z.to_nat (Client.numSamples text (AudioUtils.vs_rate settings))) 0)))
               = 44 + 2 * (44100 * Client.duration text (AudioUtils.vs_rate settings))).
  { rewrite length_app, placeholder_wav_header_length, encode_samples_length,
      placeholder_samples_length.
    unfold Client.numSamples. lia. }
  rewrite Hl. split; [reflexivity|]. split; [exact Hge|].
  unfold getUint32, getUint16.
  rewrite !get_bytes_app_l by (rewrite ?placeholder_wav_header_length; simpl; lia).
  unfold placeholder_wav_header, Client.bufferSize, Client.numSamples.
  revert Hle Hge. generalize (Client.duration text (AudioUtils.vs_rate settings)).
  intros z Hle Hge.
  assert (E1 : get_bytes
                 (lit "RIFF" ++ le_bytes 4 (44 + 44100 * z * 2 - 8) ++ lit "WAVE"
                  ++ lit "fmt " ++ le_bytes 4 16 ++ le_bytes 2 1 ++ le_bytes 2 1
                  ++ le_bytes 4 44100 ++ le_bytes 4 (44100 * 1 * 2)
                  ++ le_bytes 2 (1 * 2) ++ le_bytes 2 16 ++ lit "data"
                  ++ le_bytes 4 (44100 * z * 2)) 4 4 true
               = Some ((44 + 44100 * z * 2 - 8) mod 2 ^ 32)).
  { generalize (44 + 44100 * z * 2 - 8), (44100 * z * 2). intros a b.
    change 4 with (Z.of_nat (length (lit "RIFF"))) at 1.
    change 4%nat with (length (le_bytes 4 a)) at 1.
    rewrite get_bytes_boundary, le_value_le_bytes. reflexivity. }
  assert (E2 : get_bytes
                 (lit "RIFF" ++ le_bytes 4 (44 + 44100 * z * 2 - 8) ++ lit "WAVE"
                  ++ lit "fmt " ++ le_bytes 4 16 ++ le_bytes 2 1 ++ le_bytes 2 1
                  ++ le_bytes 4 44100 ++ le_bytes 4 (44100 * 1 * 2)
                  ++ le_bytes 2 (1 * 2) ++ le_bytes 2 16 ++ lit "data"
                  ++ le_bytes 4 (44100 * z * 2)) 40 4 true
               = Some ((44100 * z * 2) mod 2 ^ 32)).
  { generalize (44 + 44100 * z * 2 - 8), (44100 * z * 2). intros a b.
    rewrite <- (app_nil_r (le_bytes 4 b)).
    rewrite !app_assoc. rewrite <- (app_assoc _ (le_bytes 4 b) []).
    match goal with
    | |- get_bytes (?pre ++ _ ++ []) _ _ _ = _ =>
        change 40 with (Z.of_nat (length pre)) at 1
    end.
    change 4%nat with (length (le_bytes 4 b)) at 1.
    rewrite get_bytes_boundary, le_value_le_bytes. reflexivity. }
  rewrite E1, E2. change (2 ^ 32) with 4294967296.
  rewrite !Z.mod_small by lia.
  split; [f_equal; lia|]. split; [f_equal; lia|].
  generalize (44 + 44100 * z * 2 - 8), (44100 * z * 2). intros a b.
  repeat split; reflexivity.
Qed.

Lemma X18_witness :
  exists container,
    AudioUtils.createPlaceholderAudioFile clip_sin hello_world
      (AudioUtils.mkVoiceSettings 1 1 1 None) = Some container /\
    Z.of_nat (length container) = 44 + 2 * (44100 * Client.duration hello_world 1).
Proof.
  destruct (X18_placeholder_container clip_sin hello_world
              (AudioUtils.mkVoiceSettings 1 1 1 None))
    as (container & Hc & Hl & _).
  - vm_compute. discriminate.
  - vm_compute. discriminate.
  - exists container. split; [exact Hc|exact Hl].
Defined.

Lemma to_integer_bound (q : Q) :
  (-3276.7 <= q <= 3276.7)%Q ->
  -3276 <= AudioUtils.to_integer (Some q) <= 3276.
Proof.
  destruct q as [n d]. unfold Qle. cbn [Qnum Qden AudioUtils.to_integer].
  intros [H1 H2].
  destruct (Z_lt_le_dec n 0) as [Hneg|Hpos].
  - replace n with (- (- n)) by lia. rewrite Z.quot_opp_l by lia.
    rewrite Z.quot_div_nonneg by lia.
    assert (0 <= - n / Z.pos d) by (apply Z.div_pos; lia).
    assert (- n / Z.pos d < 3277) by (apply Z.div_lt_upper_bound; lia).
    lia.
  - rewrite Z.quot_div_nonneg by lia.
    assert (0 <= n / Z.pos d) by (apply Z.div_pos; lia).
    assert (n / Z.pos d < 3277) by (apply Z.div_lt_upper_bound; lia).
    lia.
Qed.

Lemma placeholder_sample_bound Math_sin text settings (i : Z) :
  (forall x, (-1 <= Math_sin x <= 1)%Q) ->
  (0 <= AudioUtils.vs_volume settings <= 1)%Q ->
  -3276 <= AudioUtils.to_integer
             (AudioUtils.placeholder_sample Math_sin text settings i) <= 3276.
Proof.
  intros Hsin [Hv0 Hv1]. unfold AudioUtils.placeholder_sample.
  destruct (AudioUtils.frequency text i) as [f|];
    cbn [fmap option_fmap option_map]; [|simpl; lia].
  apply to_integer_bound. unfold AudioUtils.amplitude.
  match goal with
  | |- (_ <= Math_sin ?a * _ * _ <= _)%Q =>
      pose proof (Hsin a); generalize dependent (Math_sin a); intros x Hx
  end.
  generalize dependent (AudioUtils.vs_volume settings). intros v Hv0 Hv1.
  assert (Ha : (-0.1 <= x * (0.1 * v) <= 0.1)%Q) by nra.
  generalize dependent (x * (0.1 * v))%Q. intros a Ha. lra.
Qed.

(** X19 — The placeholder tone has no clamp, and needs none while the
    volume stays within [0, 1]: every sample written is the tone value
    truncated towards zero, within 3276 of zero, so the 16-bit store never
    wraps. *)
Theorem X19_placeholder_amplitude Math_sin text settings (i : Z) :
  (forall x, (-1 <= Math_sin x <= 1)%Q) ->
  (0 <= AudioUtils.vs_volume settings <= 1)%Q ->
  0 <= i < Client.numSamples text (AudioUtils.vs_rate settings) ->
  exists container v,
    AudioUtils.createPlaceholderAudioFile Math_sin text settings = Some container /\
    getInt16 container (44 + i * 2) true = Some v /\
    v = AudioUtils.to_integer
          (AudioUtils.placeholder_sample Math_sin text settings i) /\
    -3276 <= v <= 3276.
Proof.
  intros Hsin Hvol Hi.
  pose proof (placeholder_sample_bound Math_sin text settings i Hsin Hvol) as Hb.
  eexists. eexists. split; [apply createPlaceholderAudioFile_spec|].
  split; [|split; [reflexivity|exact Hb]].
  replace (44 + i * 2)
    with (Z.of_nat (length (placeholder_wav_header text (AudioUtils.vs_rate settings)))
          + 2 * Z.of_nat (Z.to_nat i))
    by (rewrite placeholder_wav_header_length; lia).
  apply getInt16_encoded; [|lia].
  rewrite placeholder_samples_lookup by lia.
  rewrite Z.add_0_l, Z2Nat.id by lia. reflexivity.
Qed.

Lemma X19_witness :
  exists container v,
    AudioUtils.createPlaceholderAudioFile clip_sin hello_world
      (AudioUtils.mkVoiceSettings 1 1 1 None) = Some container /\
    getInt16 container (44 + 100 * 2) true = Some v /\
    v = AudioUtils.to_integer
          (AudioUtils.placeholder_sample clip_sin hello_world
             (AudioUtils.mkVoiceSettings 1 1 1 None) 100) /\
    -3276 <= v <= 3276.
Proof.
  refine (X19_placeholder_amplitude clip_sin hello_world
            (AudioUtils.mkVoiceSettings 1 1 1 None) 100 clip_sin_range _ _).
  - split; vm_compute; discriminate.
  - vm_compute. split; [discriminate|reflexivity].
Defined.

Lemma charCodeAt_nil (i : Z) : charCodeAt [] i = None.
Proof.
  unfold charCodeAt. destruct ((0 <=? i) && (i <? Z.of_nat (length []))) eqn:E;
    [|reflexivity].
  apply andb_true_iff in E as [E1 E2].
  apply Z.leb_le in E1. apply Z.ltb_lt in E2. simpl in E2. lia.
Qed.

Lemma placeholder_samples_empty Math_sin settings (n : nat) : forall i,
  placeholder_samples Math_sin [] settings n i = replicate n 0.
Proof.
  induction n as [|n IH]; intros i; [reflexivity|].
  cbn [placeholder_samples replicate]. rewrite IH.
  unfold AudioUtils.placeholder_sample, AudioUtils.frequency.
  rewrite charCodeAt_nil. reflexivity.
Qed.

(** X20 — On the empty text the placeholder has no character to take a
    frequency from: every sample is [NaN] and is stored as 0.  For a rate
    within [0.1, 10] the file is a header followed by silence, and since the
    empty text splits into one (empty) token, it lasts between 1 and 4
    seconds. *)
Theorem X20_placeholder_empty_text Math_sin settings :
  (0.1 <= AudioUtils.vs_rate settings <= 10)%Q ->
  AudioUtils.createPlaceholderAudioFile Math_sin [] settings
  = Some (placeholder_wav_header [] (AudioUtils.vs_rate settings)
          ++ replicate
               (2 * Z.to_nat (Client.numSamples [] (AudioUtils.vs_rate settings))) 0)
  /\ length (split_ws []) = 1%nat
  /\ 1 <= Client.duration [] (AudioUtils.vs_rate settings) <= 4.
Proof.
  intros [Hr1 Hr2]. split; [|split; [reflexivity|]].
  - rewrite createPlaceholderAudioFile_spec, placeholder_samples_empty.
    do 2 f_equal.
    generalize (Z.to_nat (Client.numSamples [] (AudioUtils.vs_rate settings))).
    intros n. induction n as [|n IH]; [reflexivity|].
    cbn [replicate]. rewrite encode_samples_cons, IH.
    replace (2 * S n)%nat with (S (S (2 * n))) by lia. reflexivity.
  - split; [apply client_duration_ge_1|].
    unfold Client.duration, Client.estimateDuration. cbv zeta.
    change (inject_Z (Z.of_nat (length (split_ws [])))) with 1%Q.
    assert (H : Math_ceil
                  (Double.round
                     (Double.round
                        (1 / Double.round (155 * AudioUtils.vs_rate settings)) * 60))%Q
                <= Math_ceil
                     (Double.round
                        (Double.round (1 / Double.round (155 * 0.1)) * 60))%Q).
    { apply Qceiling_resp_le, rounded_seconds_monotone.
      - split; [discriminate|apply Qle_refl].
      - split; [reflexivity|exact Hr1]. }
    assert (E : Math_ceil
                  (Double.round
                     (Double.round (1 / Double.round (155 * 0.1)) * 60))%Q = 4)
      by (vm_compute; reflexivity).
    rewrite E in H. lia.
Qed.

Lemma X20_witness :
  1 <= Client.duration [] 1 <= 4.
Proof.
  refine (proj2 (proj2 (X20_placeholder_empty_text clip_sin
                          (AudioUtils.mkVoiceSettings 1 1 1 None) _))).
  split; vm_compute; discriminate.
Defined.

(** At the binary64 rate nearest to 60/155 the product [155 * rate] is
    rounded to 60 and the estimate to 1 second, where the exact quotient is
    just above 1 and would be rounded up to 2. *)
Example placeholder_duration_rounds_down :
  let rate := Double.round 0.3870967741935484 in
  (rate < 60 / 155)%Q /\
  (Double.round (155 * rate) == 60)%Q /\
  Client.duration [] rate = 1 /\
  Qceiling (1 / (155 * rate) * 60) = 2.
Proof. vm_compute. repeat split; reflexivity. Qed.

(** ** [formatTime] *)

Lemma Qfloor_unique (n : Z) (y : Q) :
  (inject_Z n <= y)%Q -> (y < inject_Z (n + 1))%Q -> Qfloor y = n.
Proof.
  intros H1 H2.
  assert (Ha : n <= Qfloor y).
  { rewrite <- (Qfloor_Z n). apply Qfloor_resp_le, H1. }
  assert (Hb : Qfloor y < n + 1).
  { rewrite Zlt_Qlt. apply Qle_lt_trans with y; [apply Qfloor_le|exact H2]. }
  lia.
Qed.

Lemma to_integer_nonneg (q : Q) :
  (0 <= q)%Q -> AudioUtils.to_integer (Some q) = Qfloor q.
Proof.
  destruct q as [n d]. unfold Qle. cbn [Qnum Qden AudioUtils.to_integer Qfloor].
  intros H. apply Z.quot_div_nonneg; lia.
Qed.

(** Minutes and seconds of a non-negative time are the quotient and the
    remainder of its whole seconds by 60. *)
Lemma minutes_seconds (x : Q) :
  (0 <= x)%Q ->
  Math_floor (x / 60) = Qfloor x / 60 /\
  Math_floor (AudioUtils.js_rem x 60) = Qfloor x mod 60.
Proof.
  intros Hx. unfold Math_floor, AudioUtils.js_rem.
  assert (Hq : (0 <= x / 60)%Q).
  { apply Qle_shift_div_l; [reflexivity|]. lra. }
  rewrite (to_integer_nonneg _ Hq).
  pose proof (Qfloor_le (x / 60)) as Hk1.
  pose proof (Qlt_floor (x / 60)) as Hk2.
  pose proof (Qfloor_le x) as Hm1.
  pose proof (Qlt_floor x) as Hm2.
  set (k := Qfloor (x / 60)) in *. set (m := Qfloor x) in *.
  assert (E : (x / 60 == x * (1 # 60))%Q) by field.
  rewrite E in Hk1, Hk2.
  assert (Hx1 : (60 * inject_Z k <= x)%Q) by lra.
  assert (Hx2 : (x < 60 * inject_Z (k + 1))%Q) by lra.
  rewrite inject_Z_plus in Hx2, Hm2.
  change (inject_Z 1) with 1%Q in Hx2, Hm2.
  assert (H1 : 60 * k <= m).
  { assert (H : (inject_Z (60 * k) < inject_Z (m + 1))%Q).
    { rewrite inject_Z_plus, inject_Z_mult.
      change (inject_Z 60) with 60%Q. change (inject_Z 1) with 1%Q. lra. }
    rewrite <- Zlt_Qlt in H. lia. }
  assert (H2 : m < 60 * k + 60).
  { assert (H : (inject_Z m < inject_Z (60 * k + 60))%Q).
    { rewrite inject_Z_plus, inject_Z_mult.
      change (inject_Z 60) with 60%Q. lra. }
    rewrite <- Zlt_Qlt in H. exact H. }
  assert (Hdiv : m / 60 = k).
  { symmetry. apply (Z.div_unique m 60 k (m - 60 * k)); lia. }
  split; [symmetry; exact Hdiv|].
  assert (Hmod : m mod 60 = m - 60 * k).
  { symmetry. apply (Z.mod_unique m 60 k (m - 60 * k)); lia. }
  rewrite Hmod. apply Qfloor_unique.
  - unfold Z.sub. rewrite inject_Z_plus, inject_Z_opp, inject_Z_mult.
    change (inject_Z 60) with 60%Q. lra.
  - unfold Z.sub. rewrite !inject_Z_plus, inject_Z_opp, inject_Z_mult.
    change (inject_Z 60) with 60%Q. change (inject_Z 1) with 1%Q. lra.
Qed.

Lemma padStart_two_digits (r : Z) :
  0 <= r < 60 ->
  AudioUtils.padStart (AudioUtils.number_toString r) 2 = two_digits r.
Proof.
  intros Hr. rewrite <- (Z2Nat.id r) by lia.
  assert (Hn : (Z.to_nat r < 60)%nat) by lia.
  generalize dependent (Z.to_nat r). clear Hr. intros n Hn.
  do 60 (destruct n as [|n]; [reflexivity|]). lia.
Qed.

(** The quotient by 60 is rounded before its floor is taken: the minutes
    are the whole minutes of the time or, at worst, one more. *)
Lemma rounded_minutes (x : Q) :
  (0 <= x)%Q -> (x < 4503599627370496)%Q ->
  Qfloor x / 60 <= Math_floor (Double.round (x / 60)) <= Qfloor x / 60 + 1.
Proof.
  intros H0 H1. destruct (minutes_seconds x H0) as [Hm _].
  unfold Math_floor in *. rewrite <- Hm.
  pose proof (Qfloor_le (x / 60)) as Hk1.
  pose proof (Qlt_floor (x / 60)) as Hk2.
  assert (Hq : (0 <= x / 60 /\ x / 60 < 4503599627370496)%Q).
  { assert (E : (x / 60 == x * (1 # 60))%Q) by field. rewrite E. lra. }
  assert (Hk : 0 <= Qfloor (x / 60) < 2 ^ 52).
  { split.
    - change 0 with (Qfloor 0). apply Qfloor_resp_le, Hq.
    - rewrite Zlt_Qlt. apply Qle_lt_trans with (x / 60)%Q; [exact Hk1|].
      apply Hq. }
  set (k := Qfloor (x / 60)) in *.
  pose proof (rounding_Z k ltac:(lia)) as Ek.
  pose proof (rounding_Z (k + 1) ltac:(lia)) as Ek1.
  pose proof (rounding_le _ _ Hk1) as Hlo.
  pose proof (rounding_le _ _ (Qlt_le_weak _ _ Hk2)) as Hhi.
  rewrite Ek in Hlo. rewrite Ek1 in Hhi.
  split.
  - rewrite <- (Qfloor_Z k). apply Qfloor_resp_le, Hlo.
  - rewrite <- (Qfloor_Z (k + 1)). apply Qfloor_resp_le, Hhi.
Qed.

(** On a whole number of seconds the rounding of the quotient never
    reaches the next minute. *)
Lemma rounded_minutes_whole (n : Z) :
  0 <= n < 2 ^ 52 ->
  Math_floor (Double.round (inject_Z n / 60)) = n / 60.
Proof.
  intros Hn. unfold Math_floor.
  pose proof (Z.div_mod n 60 ltac:(lia)) as Hdm.
  pose proof (Z.mod_pos_bound n 60 ltac:(lia)) as Hr.
  set (k := n / 60) in *. set (r := n mod 60) in *.
  assert (Hk : 0 <= k < 2 ^ 52) by (change (2 ^ 52) with 4503599627370496 in *; lia).
  assert (En : (inject_Z n / 60 == inject_Z k + inject_Z r / 60)%Q).
  { rewrite Hdm, inject_Z_plus, inject_Z_mult.
    change (inject_Z 60) with 60%Q. field. }
  destruct (inject_Z_range 0 r 59 ltac:(lia)) as [Hr0 Hr1].
  destruct (inject_Z_range 0 k 75059993789509
              ltac:(change (2 ^ 52) with 4503599627370496 in *; lia))
    as [Hk0 Hk1].
  change (inject_Z 0) with 0%Q in Hr0, Hk0. change (inject_Z 59) with 59%Q in Hr1.
  change (inject_Z 75059993789509) with 75059993789509%Q in Hk1.
  assert (Hq : (inject_Z k <= inject_Z n / 60
                /\ inject_Z n / 60 <= inject_Z k + (59 # 60))%Q).
  { rewrite En. assert (E : (inject_Z r / 60 == inject_Z r * (1 # 60))%Q) by field.
    rewrite E. lra. }
  apply Qfloor_unique.
  - rewrite <- (rounding_Z k) by lia. apply rounding_le, Hq.
  - pose proof (rounding_error (inject_Z n / 60) ltac:(lra)) as [_ He].
    unfold Double.unit_roundoff in He. rewrite inject_Z_plus.
    change (inject_Z 1) with 1%Q.
    set (q := (inject_Z n / 60)%Q) in *.
    set (y := Double.round q) in *. clearbody y q. lra.
Qed.

(** X21 — For a non-negative time below 2^52 seconds [formatTime] prints
    the minutes, a colon, and the remaining whole seconds with exactly two
    digits, the seconds always below 60.  The minutes are the floor of the
    rounded quotient by 60: the whole minutes of the time or at most one
    more; for a whole number of seconds they are exact, and minutes and
    seconds together give back the time: [60 * minutes + seconds = time]. *)
Theorem X21_formatTime (seconds : Q) :
  (0 <= seconds)%Q -> (seconds < 4503599627370496)%Q ->
  let mins := Math_floor (Double.round (seconds / 60)) in
  let secs := Qfloor seconds mod 60 in
  AudioUtils.formatTime seconds
  = (AudioUtils.number_toString mins ++ ":" ++ two_digits secs)%string /\
  String.length (two_digits secs) = 2%nat /\
  0 <= secs < 60 /\
  Qfloor seconds / 60 <= mins <= Qfloor seconds / 60 + 1 /\
  ((seconds == inject_Z (Qfloor seconds))%Q ->
   mins = Qfloor seconds / 60 /\ 60 * mins + secs = Qfloor seconds).
Proof.
  intros H0 H1 mins secs.
  destruct (minutes_seconds seconds H0) as [_ Hs].
  assert (Hr : 0 <= secs < 60) by (apply Z.mod_pos_bound; lia).
  split.
  - unfold AudioUtils.formatTime. cbv zeta. rewrite Hs.
    fold mins secs. rewrite (padStart_two_digits secs Hr). reflexivity.
  - split; [reflexivity|]. split; [exact Hr|].
    split; [apply rounded_minutes; assumption|].
    intros Hw.
    assert (Hn : 0 <= Qfloor seconds < 2 ^ 52).
    { split.
      - change 0 with (Qfloor 0). apply Qfloor_resp_le, H0.
      - rewrite Zlt_Qlt.
        apply Qle_lt_trans with seconds; [apply Qfloor_le|exact H1]. }
    assert (Em : mins = Qfloor seconds / 60).
    { unfold mins.
      rewrite (rounding_comp (seconds / 60) (inject_Z (Qfloor seconds) / 60))
        by (rewrite <- Hw; reflexivity).
      apply rounded_minutes_whole, Hn. }
    split; [exact Em|].
    rewrite Em. unfold secs. pose proof (Z.div_mod (Qfloor seconds) 60). lia.
Qed.

Lemma X21_witness :
  AudioUtils.formatTime 125.7
  = (AudioUtils.number_toString (Math_floor (Double.round (125.7 / 60))) ++ ":"
     ++ two_digits (Qfloor 125.7 mod 60))%string.
Proof.
  refine (proj1 (X21_formatTime 125.7 _ _)).
  - discriminate.
  - reflexivity.
Defined.

Example formatTime_examples :
  AudioUtils.formatTime 125.7 = "2:05"%string /\
  AudioUtils.formatTime 0 = "0:00"%string /\
  AudioUtils.formatTime 3599.99 = "59:59"%string /\
  AudioUtils.formatTime 3600 = "60:00"%string.
Proof. vm_compute. repeat split. Qed.

(** ** The voice name *)

Lemma samples_voiceName Math_sin Math_random text (r p v : Q)
    (name1 name2 : option string) (n : nat) : forall i d,
  samples Math_sin Math_random text (mkSettings r p v name1) n i d
  = samples Math_sin Math_random text (mkSettings r p v name2) n i d.
Proof.
  induction n as [|n IH]; intros i d; [reflexivity|].
  cbn [samples]. rewrite IH.
  unfold intSample, sample, waveform, envelope, fadeTime, rateModulation,
    isVowel, baseCharFreq, charCode, char, charIndex, progress, numSamples,
    duration, baseDuration, wordsPerMinute.
  cbn [rate pitch volume]. reflexivity.
Qed.

(** X22 — The voice name travels with the request and changes nothing:
    two requests that differ in the voice name only get the same container,
    byte for byte. *)
Theorem X22_voiceName_is_ignored Math_sin Math_random text (r p v : Q)
    (name1 name2 : option string) :
  generateAudioWAV Math_sin Math_random text (mkSettings r p v name1)
  = generateAudioWAV Math_sin Math_random text (mkSettings r p v name2).
Proof.
  rewrite !generateAudioWAV_spec.
  rewrite (samples_voiceName Math_sin Math_random text r p v name1 name2).
  reflexivity.
Qed.

(** ** Frequencies *)

(** X23 — Every sine the synthesizer plays stays far below the Nyquist
    frequency of 22050 Hz: for a valid request the base frequency of a
    character lies between 200 and 499 Hz, the highest vowel partial
    [base * (1 + pitch * 0.5) * 3.2] is at most 3193.6 Hz and the consonant
    tone [base * (1.5 + pitch * 0.8)] is at most 1546.9 Hz. *)
Theorem X23_frequencies_below_nyquist text settings (i : Z) :
  valid_request text settings ->
  Forall (fun c => 0 <= c) text ->
  0 <= i < numSamples text settings ->
  exists base,
    baseCharFreq text settings i = Some base /\
    (200 <= base <= 499)%Q /\
    (200 <= base * (1 + pitch settings * 0.5))%Q /\
    (base * (1 + pitch settings * 0.5) * 3.2 <= 3193.6)%Q /\
    (300 <= base * (1.5 + pitch settings * 0.8) <= 1546.9)%Q /\
    (3193.6 < inject_Z sampleRate / 2)%Q.
Proof.
  intros Hv Hpos Hi.
  destruct (char_lookup text settings i Hv Hi) as (c & Hc & Hchar).
  destruct Hv as (_ & _ & _ & [Hp0 Hp2] & _).
  assert (Hc0 : 0 <= c).
  { rewrite List.Forall_forall in Hpos. apply Hpos.
    apply list_elem_of_In, list_elem_of_lookup. eauto. }
  rewrite (baseCharFreq_defined text settings i c Hchar).
  eexists. split; [reflexivity|].
  pose proof (Z.rem_bound_pos c 300 Hc0 ltac:(lia)) as [Hr0 Hr1].
  assert (Hb : (200 <= baseFreq + inject_Z (Z.rem c 300) <= 499)%Q).
  { unfold baseFreq.
    assert (H1 : (0 <= inject_Z (Z.rem c 300))%Q)
      by (change 0%Q with (inject_Z 0); rewrite <- Zle_Qle; lia).
    assert (H2 : (inject_Z (Z.rem c 300) <= 299)%Q)
      by (change 299%Q with (inject_Z 299); rewrite <- Zle_Qle; lia).
    lra. }
  generalize dependent (baseFreq + inject_Z (Z.rem c 300))%Q. intros b Hb.
  generalize dependent (pitch settings). intros p Hp0 Hp2.
  split; [exact Hb|]. split; [nra|]. split; [nra|]. split; [nra|].
  reflexivity.
Qed.

Lemma X23_witness :
  exists base,
    baseCharFreq hello_world extreme 40000 = Some base /\
    (200 <= base <= 499)%Q.
Proof.
  destruct (X23_frequencies_below_nyquist hello_world extreme 40000)
    as (base & Hb & Hr & _).
  - valid_by_computation.
  - vm_compute. repeat constructor; discriminate.
  - vm_compute. split; [discriminate|reflexivity].
  - exists base. split; [exact Hb|exact Hr].
Defined.
